(** * FinTwitch: the ledger and habit-streak state machines of [src/App.jsx]

    The development embeds the state-update functions of [UserProvider]
    ([transact], [login], [markArticleRead], [invest], [realizeInvestment])
    and of [HabitTracker] ([toggleTask] and the streak effect) as pure
    functions on records, the way React's functional [setUser (u => ...)]
    updaters are written, and proves the ledger properties about them.
    The further components of the page follow, and [useLocalState], which
    keeps the account in the local cache through [JSON.stringify] and
    [JSON.parse].

    Numbers.  JavaScript numbers are modelled as exact rationals in
    canonical form ([Qc]), so [===] on numbers is Leibniz equality; the
    rounding error of the individual double operations is not modelled.
    [Math.round] rounds half-way cases towards plus infinity, which is
    [floor (x + 1/2)].

    Dates.  [todayStr ()] and [yesterdayStr ()] return the ten-character
    ISO date of a [Date] object, which is its date in UTC; the code only
    compares these strings for equality and tests them for [null].  A
    calendar date is modelled by its day number and the clock is an explicit
    argument.  [yesterdayStr] moves the [Date] one day back with [getDate]
    and [setDate], which work on local time, so the clock carries the
    offset of the host's time zone, and the date that comes out is computed
    the way the language definition gives it ([LocalTime], [UTC], [Day]).

    The local cache.  [JSON.stringify] and [JSON.parse] are functions of
    the language, not of the repository.  They are modelled from their
    definition in the language standard, on the values that an account is
    made of, with numbers written and read in positional decimal notation.

    Notifications.  The toasts that the operations [push] are not part of
    the account and are left out of the ledger operations. *)

From Stdlib Require Import QArith Qcanon Qround ZArith NArith List String
  Ascii Lia Lqa.
From stdpp Require Import gmap strings list.
Import ListNotations.

Local Open Scope Z_scope.
Local Open Scope Qc_scope.

(** ** Utility helpers *)

Module Num.

(** The rational [z / 1] in canonical form. *)
Definition ofZ (z : Z) : Qc := Q2Qc (inject_Z z).

(** [Math.round x]: the nearest integer, ties towards plus infinity. *)
Definition Math_round (x : Qc) : Z := Qfloor (this x + (1 # 2))%Q.

(** [const round2 = (n) => Math.round(n * 100) / 100] *)
Definition round2 (n : Qc) : Qc := ofZ (Math_round (n * ofZ 100)) / ofZ 100.

(** [Math.max(a, b)] *)
Definition Math_max (a b : Qc) : Qc := if Qclt_le_dec a b then b else a.

End Num.
Import Num.

(** [xs.slice(-k)]: the last [k] elements (all of them when there are
    fewer than [k]). *)
Definition slice_last {A} (k : nat) (xs : list A) : list A :=
  drop (length xs - k) xs.

(** [x || 0] on a number: zero is the only falsy counter value. *)
Definition or0 (x : Z) : Z := if Z.eqb x 0 then 0%Z else x.

(** A JavaScript [Set] keeps its elements in insertion order, without
    duplicates: [Set_add] is [s.add(x)], [Set_of] is [new Set(xs)], and
    [Array.from] lists the elements in that order. *)
Definition Set_add `{EqDecision A} (x : A) (s : list A) : list A :=
  if decide (x ∈ s) then s else s ++ [x].

Definition Set_of `{EqDecision A} (xs : list A) : list A :=
  foldl (fun s x => Set_add x s) [] xs.

(** ** The clock *)

(** Calendar dates, by day number: the days since 1970-01-01. *)
Definition Date := Z.

Definition msPerDay : Z := 86400000.

(** [Day (t)] of the language definition: the day in which the time value
    [t] (milliseconds since the epoch, in UTC) falls.  The first ten
    characters of [toISOString ()] name that day. *)
Definition Day (t : Z) : Date := Z.div t msPerDay.

(** What the code reads from [new Date()] and [Date.now()] during one
    state update, together with the time zone of the host.
    [LocalTZA t isUTC] is the offset of local time from UTC, in
    milliseconds: at the UTC time value [t] when [isUTC] is [true], and at
    the local time value [t] otherwise (for a local time that a clock
    change skips or repeats, the offset before the change). *)
Record Clock := {
  Date_now : Z;               (* Date.now(), in milliseconds *)
  toISOString : string;       (* new Date().toISOString() *)
  LocalTZA : Z → bool → Z     (* the host's time zone *)
}.

(** The calendar date of [new Date().toISOString().slice(0, 10)]. *)
Definition day (c : Clock) : Date := Day (Date_now c).

(** [LocalTime (t)] and [UTC (t)] of the language definition. *)
Definition LocalTime (c : Clock) (t : Z) : Z := (t + LocalTZA c t true)%Z.
Definition UTC (c : Clock) (t : Z) : Z := (t - LocalTZA c t false)%Z.

(** [const d = new Date(); d.setDate(d.getDate() - n)]: the time value of
    [d] afterwards.  [getDate] reads the day of the month of the local
    time and [setDate] puts the local time on the day of the month it is
    given, keeping the time of day; a day of the month before the first
    counts back into the months before.  So the local time moves back by
    [n] whole days, and [setDate] stores it converted to UTC. *)
Definition setDate_back (c : Clock) (n : Z) : Z :=
  UTC c (LocalTime c (Date_now c) - n * msPerDay)%Z.

Definition todayStr (c : Clock) : Date := day c.

(** [yesterdayStr ()]: one local day back, then the date in UTC. *)
Definition yesterdayStr (c : Clock) : Date := Day (setDate_back c 1).

(** Two time zones: India, five and a half hours ahead of UTC all year,
    and the United Kingdom in 2024, one hour ahead of UTC from
    2024-03-31T01:00Z until 2024-10-27T01:00Z, which in local time is from
    02:00 on 31 March until 02:00 on 27 October. *)
Definition Asia_Kolkata (t : Z) (isUTC : bool) : Z := 19800000.

Definition Europe_London_2024 (t : Z) (isUTC : bool) : Z :=
  if isUTC
  then if (1711846800000 <=? t)%Z && (t <? 1729990800000)%Z
       then 3600000 else 0
  else if (1711850400000 <=? t)%Z && (t <? 1729994400000)%Z
       then 3600000 else 0.

(** ** Data model *)

(** A ledger entry, as built in [transact]. *)
Record Tx := {
  tx_id : Z;
  tx_ts : string;
  tx_amount : Qc;
  tx_balanceAfter : Qc;
  tx_source : string;
  tx_label : option string
}.

(** An open position; the code reads [id] and [amount] only. *)
Record Investment := {
  inv_id : Z;
  inv_amount : Qc;
  inv_symbol : string;
  inv_metadata : string
}.

(** The [user] object of [UserProvider].  [None] is JavaScript's [null];
    [readArticles] holds the own properties of the object that is used as
    a map from article id to [true]. *)
Record UserAccount := {
  username : option string;
  balance : Qc;
  lastLogin : option Date;
  streak : Z;
  loginDates : list Date;
  readArticles : gmap string bool;
  investments : list Investment;
  transactions : list Tx
}.

(** The initial value given to [useLocalState]. *)
Definition initialUser : UserAccount := {|
  username := None;
  balance := ofZ 1000;
  lastLogin := None;
  streak := 0;
  loginDates := [];
  readArticles := ∅;
  investments := [];
  transactions := []
|}.

(** The second argument of [transact]: [{ source = "system", label = null }];
    [None] for [opt_source] is a missing property, which takes the default. *)
Record TxOpts := {
  opt_source : option string;
  opt_label : option string
}.

Definition noOpts : TxOpts := {| opt_source := None; opt_label := None |}.

(** ** Ledger operations *)

(** [transact (amount, opts)]: the updater passed to [setUser].  On an
    array [u.transactions || []] is [u.transactions]. *)
Definition transact (c : Clock) (amount : Qc) (o : TxOpts) (u : UserAccount)
  : UserAccount :=
  let newBalance := round2 (Math_max 0 (balance u + amount)) in
  let tx := {|
    tx_id := Date_now c;
    tx_ts := toISOString c;
    tx_amount := round2 amount;
    tx_balanceAfter := newBalance;
    tx_source := default "system"%string (opt_source o);
    tx_label := opt_label o
  |} in
  {| username := username u;
     balance := newBalance;
     lastLogin := lastLogin u;
     streak := streak u;
     loginDates := loginDates u;
     readArticles := readArticles u;
     investments := investments u;
     transactions := slice_last 200 (transactions u ++ [tx]) |}.

(** [login (username)] *)
Definition login (c : Clock) (name : option string) (u : UserAccount)
  : UserAccount :=
  let today := todayStr c in
  let was := lastLogin u in
  let '(newStreak, newBalance) :=
    if decide (was = Some today) then (streak u, balance u)
    else if decide (was = Some (yesterdayStr c)) then
      ((or0 (streak u) + 1)%Z, round2 (balance u + ofZ 10))
    else
      (1%Z,
       match was with
       | Some _ => Math_max 0 (round2 (balance u - ofZ 20))
       | None => balance u
       end) in
  let loginDates' := Set_add today (Set_of (loginDates u)) in
  {| username := name;
     balance := newBalance;
     lastLogin := Some today;
     streak := newStreak;
     loginDates := slice_last 30 loginDates';
     readArticles := readArticles u;
     investments := investments u;
     transactions := transactions u |}.

(** The property names that every object inherits from
    [Object.prototype]; each of them holds a function or an object, which
    counts as true in a condition. *)
Definition Object_prototype : list string :=
  [ "constructor"; "hasOwnProperty"; "isPrototypeOf"; "propertyIsEnumerable";
    "toLocaleString"; "toString"; "valueOf"; "__proto__";
    "__defineGetter__"; "__defineSetter__";
    "__lookupGetter__"; "__lookupSetter__" ]%string.

(** [u.readArticles[id]] as a condition: an own property counts with its
    value, and without an own property the lookup goes on to
    [Object.prototype]. *)
Definition isRead (u : UserAccount) (id : string) : bool :=
  match readArticles u !! id with
  | Some b => b
  | None => bool_decide (id ∈ Object_prototype)
  end.

(** [markArticleRead (id, reward = 10)] *)
Definition markArticleRead (id : string) (reward : Qc) (u : UserAccount)
  : UserAccount :=
  if isRead u id then u
  else
    let newBal := round2 (balance u + reward) in
    {| username := username u;
       balance := newBal;
       lastLogin := lastLogin u;
       streak := streak u;
       loginDates := loginDates u;
       readArticles := <[id := true]> (readArticles u);
       investments := investments u;
       transactions := transactions u |}.

(** [invest (investment)] *)
Definition invest (investment : Investment) (u : UserAccount) : UserAccount :=
  {| username := username u;
     balance := balance u;
     lastLogin := lastLogin u;
     streak := streak u;
     loginDates := loginDates u;
     readArticles := readArticles u;
     investments := investments u ++ [investment];
     transactions := transactions u |}.

(** [realizeInvestment (id, multiplier)] *)
Definition realizeInvestment (id : Z) (multiplier : Qc) (u : UserAccount)
  : UserAccount :=
  match List.find (fun i => bool_decide (inv_id i = id)) (investments u) with
  | None => u
  | Some inv =>
      let returned := round2 (inv_amount inv * multiplier) in
      let nextBalance := round2 (balance u + returned) in
      {| username := username u;
         balance := nextBalance;
         lastLogin := lastLogin u;
         streak := streak u;
         loginDates := loginDates u;
         readArticles := readArticles u;
         investments :=
           List.filter (fun i => negb (bool_decide (inv_id i = id)))
                       (investments u);
         transactions := transactions u |}
  end.

(** One ledger operation, as the components call them through the user
    context. *)
Inductive Op :=
| OTransact (c : Clock) (amount : Qc) (o : TxOpts)
| OLogin (c : Clock) (name : option string)
| OMarkArticleRead (id : string) (reward : Qc)
| OInvest (investment : Investment)
| ORealizeInvestment (id : Z) (multiplier : Qc).

Definition apply_op (op : Op) (u : UserAccount) : UserAccount :=
  match op with
  | OTransact c amount o => transact c amount o u
  | OLogin c name => login c name u
  | OMarkArticleRead id reward => markArticleRead id reward u
  | OInvest investment => invest investment u
  | ORealizeInvestment id multiplier => realizeInvestment id multiplier u
  end.

(** A sequence of calls, oldest first. *)
Definition run (ops : list Op) (u : UserAccount) : UserAccount :=
  foldl (fun u op => apply_op op u) u ops.

(** ** Habit tracker *)

Module Habit.

Record Task := { id : Z; text : string; done : bool }.

Record Streak := {
  current : Z;
  best : Z;
  lastDate : option Date;
  history : list Date
}.

(** The two [useState] cells of [HabitTracker]. *)
Record HabitState := { tasks : list Task; streak : Streak }.

Definition initialTasks : list Task :=
  [ {| id := 1; text := "Read 1 Article"; done := false |};
    {| id := 2; text := "Play a Game"; done := false |};
    {| id := 3; text := "Log In Today"; done := false |} ].

Definition initialStreak : Streak :=
  {| current := 0; best := 0; lastDate := None; history := [] |}.

(** [const today = new Date().toISOString().split("T")[0]] and
    [getYesterday ()] have the bodies of [todayStr] and [yesterdayStr],
    with [split("T")[0]] for [slice(0, 10)]. *)
Definition today (c : Clock) : Date := day c.
Definition getYesterday (c : Clock) : Date := Day (setDate_back c 1).

(** [tasks.map((t) => t.id === id ? { ...t, done: !t.done } : t)] *)
Definition toggle (i : Z) (ts : list Task) : list Task :=
  List.map (fun t =>
    if decide (id t = i)
    then {| id := id t; text := text t; done := negb (done t) |}
    else t) ts.

Definition allDone (ts : list Task) : bool := forallb done ts.

(** The condition of the [useEffect] that watches [tasks]. *)
Definition fires (c : Clock) (ts : list Task) (s : Streak) : bool :=
  allDone ts && negb (bool_decide (lastDate s = Some (today c))).

(** The body of that effect: the streak it stores, when it stores one. *)
Definition advance (c : Clock) (s : Streak) : Streak :=
  let newCurrent :=
    if decide (lastDate s = Some (getYesterday c))
    then (current s + 1)%Z else 1%Z in
  let newBest := Z.max newCurrent (best s) in
  {| current := newCurrent;
     best := newBest;
     lastDate := Some (today c);
     history := history s ++ [today c] |}.

Definition effect (c : Clock) (ts : list Task) (s : Streak) : Streak :=
  if fires c ts s then advance c s else s.

(** [toggleTask (id)] followed by the effect that the new [tasks]
    triggers. *)
Definition toggleTask (c : Clock) (i : Z) (h : HabitState) : HabitState :=
  let updated := toggle i (tasks h) in
  {| tasks := updated; streak := effect c updated (streak h) |}.

(** A sequence of clicks, each with the clock read at that click; the
    result is the final state together with the number of times the
    streak transition fired. *)
Fixpoint toggles (evs : list (Clock * Z)) (h : HabitState)
  : HabitState * nat :=
  match evs with
  | [] => (h, 0%nat)
  | (c, i) :: evs' =>
      let n := if fires c (toggle i (tasks h)) (streak h)
               then 1%nat else 0%nat in
      let '(h', k) := toggles evs' (toggleTask c i h) in
      (h', (n + k)%nat)
  end.

End Habit.

(** ** Vocabulary of the properties, and sample accounts *)

(** An amount with at most two fractional digits: a whole number of
    hundredths. *)
Definition is_cents (x : Qc) : Prop := ∃ z : Z, x = ofZ z / ofZ 100.

(** A balance change is logged when the new log is the old one with one
    entry appended that carries the new balance. *)
Definition logged (u u' : UserAccount) : Prop :=
  ∃ tx, transactions u' = transactions u ++ [tx]
        ∧ tx_balanceAfter tx = balance u'.

Definition sampleClock : Clock :=
  {| Date_now := 1700000000000;
     toISOString := "2023-11-14T22:13:20.000Z";
     LocalTZA := Asia_Kolkata |}.

(** An account whose log holds exactly 200 entries. *)
Definition fullLog : UserAccount :=
  run (repeat (OTransact sampleClock (ofZ 1) noOpts) 200) initialUser.

(** The entry that [transact] builds when the balance becomes [b]. *)
Definition entry (c : Clock) (amount : Qc) (o : TxOpts) (b : Qc) : Tx :=
  {| tx_id := Date_now c;
     tx_ts := toISOString c;
     tx_amount := round2 amount;
     tx_balanceAfter := b;
     tx_source := default "system"%string (opt_source o);
     tx_label := opt_label o |}.

(** One call: the clock it reads, the amount and the options. *)
Definition Call : Type := Clock * Qc * TxOpts.

Definition call_amount (k : Call) : Qc := snd (fst k).

Definition transacts (calls : list Call) (u : UserAccount) : UserAccount :=
  foldl (fun u '(c, amount, o) => transact c amount o u) u calls.

(** The clamped, rounded partial sum after one more amount. *)
Definition clamped_sum (b amount : Qc) : Qc := round2 (Math_max 0 (b + amount)).

(** All the entries that a sequence of calls writes from balance [b],
    oldest first, each with the partial sum reached at its call. *)
Fixpoint entries (b : Qc) (calls : list Call) : list Tx :=
  match calls with
  | [] => []
  | (c, amount, o) :: calls' =>
      entry c amount o (clamped_sum b amount)
      :: entries (clamped_sum b amount) calls'
  end.

(** Three calls: 50 spent on food, 500 earned, 20 spent on tea. *)
Definition threeCalls : list Call :=
  [ (sampleClock, ofZ (-50), {| opt_source := None; opt_label := Some "food"%string |});
    (sampleClock, ofZ 500, {| opt_source := None; opt_label := Some "freelance"%string |});
    (sampleClock, ofZ (-20), {| opt_source := None; opt_label := Some "tea"%string |}) ].

(** The credit that an operation adds outside the clamp is not negative:
    the reward of [markArticleRead], and the amount times the multiplier of
    the position that [realizeInvestment] finds. *)
Definition credit_nonneg (u : UserAccount) (op : Op) : Prop :=
  match op with
  | OMarkArticleRead _ reward => 0 ≤ reward
  | ORealizeInvestment id multiplier =>
      ∀ inv,
        List.find (fun i => bool_decide (inv_id i = id)) (investments u)
        = Some inv →
        0 ≤ inv_amount inv * multiplier
  | _ => True
  end.

(** The accounts that the initial one reaches through such operations. *)
Inductive reachable : UserAccount → Prop :=
| reachable_init : reachable initialUser
| reachable_step u op :
    reachable u → credit_nonneg u op → reachable (apply_op op u).

(** The invariant of [loginDates]: no date twice, at most 30 dates, and
    the date of the last login among them. *)
Definition datesOk (u : UserAccount) : Prop :=
  NoDup (loginDates u)
  ∧ (length (loginDates u) ≤ 30)%nat
  ∧ ∀ d, lastLogin u = Some d → d ∈ loginDates u.

(** An account whose last login is today although [loginDates] is empty. *)
Definition noDates : UserAccount :=
  {| username := Some "asha"%string;
     balance := ofZ 1000;
     lastLogin := Some (todayStr sampleClock);
     streak := 1;
     loginDates := [];
     readArticles := ∅;
     investments := [];
     transactions := [] |}.

(** The clock at the first instant of day [d], in India. *)
Definition clockOn (d : Date) : Clock :=
  {| Date_now := d * msPerDay; toISOString := EmptyString;
     LocalTZA := Asia_Kolkata |}.

(** A clock in the United Kingdom in 2024. *)
Definition londonClock (now : Z) : Clock :=
  {| Date_now := now; toISOString := EmptyString;
     LocalTZA := Europe_London_2024 |}.

(** The clocks on which the date of [yesterdayStr ()] is the day before
    the date of [todayStr ()]. *)
Definition steady (c : Clock) : Prop := yesterdayStr c = (todayStr c - 1)%Z.

(** An account whose last login was the day before day 100, with a streak
    of five days. *)
Definition fiveDays : UserAccount :=
  {| username := Some "asha"%string;
     balance := ofZ 1000;
     lastLogin := Some 99%Z;
     streak := 5;
     loginDates := [95; 96; 97; 98; 99]%Z;
     readArticles := ∅;
     investments := [];
     transactions := [] |}.

(** An account whose last login was on day 20000 (4 October 2024). *)
Definition threeWeeksAgo : UserAccount :=
  {| username := Some "asha"%string;
     balance := ofZ 1000;
     lastLogin := Some 20000%Z;
     streak := 3;
     loginDates := [19998; 19999; 20000]%Z;
     readArticles := ∅;
     investments := [];
     transactions := [] |}.

(** An account that holds two positions. *)
Definition twoPositions : UserAccount :=
  invest {| inv_id := 2; inv_amount := ofZ 300;
            inv_symbol := "INFY"; inv_metadata := "it" |}
    (invest {| inv_id := 1; inv_amount := ofZ 200;
               inv_symbol := "TCS"; inv_metadata := "it" |} initialUser).

(** Two of the three tasks are done, and the streak of four days ended
    on day 99. *)
Definition lastTaskOpen : Habit.HabitState :=
  {| Habit.tasks := Habit.toggle 2 (Habit.toggle 1 Habit.initialTasks);
     Habit.streak :=
       {| Habit.current := 4; Habit.best := 9;
          Habit.lastDate := Some 99%Z;
          Habit.history := [96; 97; 98; 99]%Z |} |}.

(** Two of the three tasks are done, and the streak of four days ended
    on day 20023 (27 October 2024). *)
Definition lastTaskOpenLondon : Habit.HabitState :=
  {| Habit.tasks := Habit.toggle 2 (Habit.toggle 1 Habit.initialTasks);
     Habit.streak :=
       {| Habit.current := 4; Habit.best := 9;
          Habit.lastDate := Some 20023%Z;
          Habit.history := [20020; 20021; 20022; 20023]%Z |} |}.

(** ** Vocabulary of the further ledger properties *)

(** What every entry written by [transact] satisfies: its [balanceAfter] is
    a balance that is not negative, and it and the amount are amounts in
    cents. *)
Definition entry_ok (tx : Tx) : Prop :=
  0 ≤ tx_balanceAfter tx
  ∧ is_cents (tx_balanceAfter tx)
  ∧ is_cents (tx_amount tx).

(** The sum of a list of amounts. *)
Definition total (amounts : list Qc) : Qc := foldr Qcplus 0 amounts.

(** A sequence of [login] calls, oldest first, each with the clock read at
    the call. *)
Definition logins (evs : list (Clock * option string)) (u : UserAccount)
  : UserAccount :=
  foldl (fun u '(c, name) => login c name u) u evs.

(** The login fields of an account: before the first login there is no
    date and no streak; after it the streak is at least 1. *)
Definition loginOk (u : UserAccount) : Prop :=
  datesOk u
  ∧ (lastLogin u = None → streak u = 0%Z ∧ loginDates u = [])
  ∧ (∀ d, lastLogin u = Some d → (1 ≤ streak u)%Z).

(** ** The rest of [HabitTracker] *)

Module HabitPage.
Import Habit.

(** [handleReset ()]: [confirmed] is the answer to the [confirm] dialog.
    The new [tasks] array triggers the streak effect like any other. *)
Definition handleReset (c : Clock) (confirmed : bool) (h : HabitState)
  : HabitState :=
  if confirmed then
    let ts := List.map (fun task =>
                {| id := id task; text := text task; done := false |})
                (tasks h) in
    {| tasks := ts; streak := effect c ts initialStreak |}
  else h.

(** [last30]: the thirty cells of the calendar, oldest first.  Cell [i]
    takes a [Date] back by [29 - i] local days, prints its date in UTC, and
    is active when [history] includes that date.  The thirty cells of one
    render are computed with one reading of the clock. *)
Definition last30 (c : Clock) (s : Streak) : list (Date * bool) :=
  (fun i : nat =>
     let dateStr := Day (setDate_back c (29 - Z.of_nat i)) in
     (dateStr, bool_decide (dateStr ∈ history s)))
  <$> seq 0 30.

(** What the user does on the page. *)
Inductive Event :=
| Toggle (c : Clock) (i : Z)
| Reset (c : Clock) (confirmed : bool).

Definition step (ev : Event) (h : HabitState) : HabitState :=
  match ev with
  | Toggle c i => toggleTask c i h
  | Reset c confirmed => handleReset c confirmed h
  end.

Definition play (evs : list Event) (h : HabitState) : HabitState :=
  foldl (fun h ev => step ev h) h evs.

(** The clicks whose clock gives the day before today as the date of
    [getYesterday ()]; a reset compares no dates. *)
Definition steadyEvent (ev : Event) : Prop :=
  match ev with
  | Toggle c _ => steady c
  | Reset _ _ => True
  end.

(** The page as it is mounted without a saved streak. *)
Definition mounted : HabitState :=
  {| tasks := initialTasks; streak := initialStreak |}.

(** What the counters of a streak promise: [current] is between 0 and
    [best] and at most the number of completed days, [lastDate] is the last
    day of [history], and the last [current] days of [history] are
    consecutive days that end with [lastDate]. *)
Definition streakOk (s : Streak) : Prop :=
  (0 ≤ current s ≤ best s)%Z
  ∧ (current s ≤ Z.of_nat (length (history s)))%Z
  ∧ lastDate s = last (history s)
  ∧ (lastDate s = None → current s = 0%Z)
  ∧ ∀ (d : Date) (k : nat),
      lastDate s = Some d → (Z.of_nat k < current s)%Z →
      history s !! (length (history s) - 1 - k)%nat = Some (d - Z.of_nat k)%Z.

End HabitPage.

(** ** Toast notifications: [ToastsProvider] *)

Module Toasts.

Record Toast := { id : Z; text : string; ttl : Z; style : string }.

(** The second argument of [push]; [None] is a property that is not
    given. *)
Record Opts := { opts_ttl : option Z; opts_style : option string }.

(** [opts.ttl || 3000]: a missing or zero [ttl] takes the default. *)
Definition ttl_or_default (o : Opts) : Z :=
  match opts_ttl o with
  | Some t => if Z.eqb t 0 then 3000%Z else t
  | None => 3000%Z
  end.

(** [opts.style || "default"]: a missing or empty style takes the
    default. *)
Definition style_or_default (o : Opts) : string :=
  match opts_style o with
  | Some EmptyString | None => "default"
  | Some s => s
  end.

(** The provider: the [toasts] array, the counter [idRef.current], and the
    timers that [setTimeout] holds, each with the time at which it is due
    and the id that its callback removes. *)
Record State := {
  toasts : list Toast;
  idRef : Z;
  timers : list (Z * Z)
}.

Definition initial : State := {| toasts := []; idRef := 1; timers := [] |}.

(** The callback of a timer: [setToasts ((t) => t.filter ((x) => x.id !== id))] *)
Definition dismiss (i : Z) (ts : list Toast) : list Toast :=
  List.filter (fun x => negb (Z.eqb (id x) i)) ts.

(** [push (text, opts)] at the time [now]; a negative delay of
    [setTimeout] counts as zero. *)
Definition push (now : Z) (text : string) (o : Opts) (s : State) : State :=
  let i := idRef s in
  {| toasts := toasts s
               ++ [{| id := i; text := text; ttl := ttl_or_default o;
                      style := style_or_default o |}];
     idRef := (i + 1)%Z;
     timers := timers s ++ [((now + Z.max 0 (ttl_or_default o))%Z, i)] |}.

(** The time reaches [t]: the timers due by then run their callbacks. *)
Definition elapse (t : Z) (s : State) : State :=
  {| toasts := foldl (fun ts tm => dismiss tm.2 ts) (toasts s)
                 (List.filter (fun tm => Z.leb tm.1 t) (timers s));
     idRef := idRef s;
     timers := List.filter (fun tm => negb (Z.leb tm.1 t)) (timers s) |}.

Inductive Event :=
| Push (now : Z) (text : string) (o : Opts)
| Elapse (t : Z).

Definition step (ev : Event) (s : State) : State :=
  match ev with
  | Push now text o => push now text o s
  | Elapse t => elapse t s
  end.

Definition run (evs : list Event) (s : State) : State :=
  foldl (fun s ev => step ev s) s evs.

(** A list of numbers in which every number is below all the later
    ones. *)
Fixpoint increasing (l : list Z) : Prop :=
  match l with
  | [] => True
  | x :: l' => Forall (Z.lt x) l' ∧ increasing l'
  end.

(** What the provider keeps: the ids on display grow along the array and
    are below the counter, so are the ids of the timers, and every toast on
    display has a timer that will remove it. *)
Definition ok (s : State) : Prop :=
  increasing (id <$> toasts s)
  ∧ Forall (fun x => (id x < idRef s)%Z) (toasts s)
  ∧ Forall (fun tm => (tm.2 < idRef s)%Z) (timers s)
  ∧ ∀ x, x ∈ toasts s → ∃ due, (due, id x) ∈ timers s.

End Toasts.

(** ** The stock market game: [StockMarketGame] *)

Module Market.

Record Stock := { symbol : string; price : Qc }.

(** A holding is the stock as it was bought, with [buyPrice] added:
    [{ ...stock, buyPrice: stock.price }]. *)
Record Holding := { h_symbol : string; h_price : Qc; buyPrice : Qc }.

Record State := {
  user : UserAccount;
  stocks : list Stock;
  portfolio : list Holding
}.

(** [x.toFixed(2)] read back as a number (as [Math.max] does with the
    string): the nearest amount in cents, a tie going to the larger
    magnitude. *)
Definition toFixed2 (x : Qc) : Qc :=
  if Qclt_le_dec x 0 then - round2 (- x) else round2 x.

(** The body of the price update for one stock; [random] is the value of
    [Math.random ()]. *)
Definition reprice (random : Qc) (s : Stock) : Stock :=
  let change := (random * Q2Qc (4 # 100) - Q2Qc (2 # 100)) * price s in
  {| symbol := symbol s;
     price := Math_max (ofZ 50) (toFixed2 (price s + change)) |}.

(** One run of the interval callback; [random i] is the value that
    [Math.random ()] returns for the stock at index [i]. *)
Definition tick (random : nat → Qc) (st : State) : State :=
  {| user := user st;
     stocks := imap (fun i s => reprice (random i) s) (stocks st);
     portfolio := portfolio st |}.

Definition ticks (randoms : list (nat → Qc)) (st : State) : State :=
  foldl (fun st random => tick random st) st randoms.

Definition stockOpts (label : string) : TxOpts :=
  {| opt_source := Some "stock"%string; opt_label := Some label |}.

(** [buyStock (stock)] *)
Definition buyStock (c : Clock) (s : Stock) (st : State) : State :=
  if Qclt_le_dec (balance (user st)) (price s) then st
  else
    {| user := transact c (- price s) (stockOpts ("Bought " ++ symbol s))
                 (user st);
       stocks := stocks st;
       portfolio := portfolio st
                    ++ [{| h_symbol := symbol s; h_price := price s;
                           buyPrice := price s |}] |}.

(** The Buy button of the stock at index [k] of the list on display. *)
Definition clickBuy (c : Clock) (k : nat) (st : State) : State :=
  match stocks st !! k with
  | Some s => buyStock c s st
  | None => st
  end.

(** [p.filter ((_, i) => i !== index)] *)
Definition without {A} (index : nat) (p : list A) : list A :=
  snd <$> List.filter (fun ix => negb (Nat.eqb ix.1 index))
                      (imap (fun i x => (i, x)) p).

(** [sellStock (index)]; [None] is the [TypeError] of reading [price] of
    a holding that is not there. *)
Definition sellStock (c : Clock) (index : nat) (st : State) : option State :=
  match portfolio st !! index with
  | None => None
  | Some stock =>
      Some {| user := transact c (h_price stock)
                        (stockOpts ("Sold " ++ h_symbol stock)) (user st);
              stocks := stocks st;
              portfolio := without index (portfolio st) |}
  end.

End Market.

Module MarketGame.
Import Market.

(** What happens on the page: the interval fires, or a button is clicked.
    A click whose handler throws leaves the state as it is. *)
Inductive Event :=
| Tick (random : nat → Qc)
| Buy (c : Clock) (k : nat)
| Sell (c : Clock) (index : nat).

Definition step (ev : Event) (st : State) : State :=
  match ev with
  | Tick random => tick random st
  | Buy c k => clickBuy c k st
  | Sell c index => default st (sellStock c index st)
  end.

Definition play (evs : list Event) (st : State) : State :=
  foldl (fun st ev => step ev st) st evs.

End MarketGame.

(** ** Articles and their quiz: [ArticleQuiz] and [ArticlesArea] *)

Module Articles.

Record Question := { q : string; opts : list string; a : nat }.

(** An article, without the texts that are only displayed ([excerpt] and
    [content]). *)
Record Article := {
  id : string;
  title : string;
  quiz : list Question;
  reward : Qc
}.

(** The first article of [ArticlesArea]. *)
Definition a1 : Article :=
  {| id := "a1";
     title := "The Power of Compounding 💫";
     quiz :=
       [ {| q := "What does compounding mean?";
            opts := ["Interest on interest"; "Spending money"; "No growth"];
            a := 0 |};
         {| q := "What grows faster: simple or compound?";
            opts := ["Simple"; "Compound"]; a := 1 |};
         {| q := "What is key to compounding?";
            opts := ["Patience"; "Luck"]; a := 0 |} ];
     reward := ofZ 50 |}.

(** The state of [ArticleQuiz]. *)
Record QuizState := {
  index : nat;
  score : nat;
  selected : option nat;
  finished : bool
}.

Definition fresh : QuizState :=
  {| index := 0; score := 0; selected := None; finished := false |}.

(** A click on the option [i]: [setSelected (i)] *)
Definition select (i : nat) (s : QuizState) : QuizState :=
  {| index := index s; score := score s; selected := Some i;
     finished := finished s |}.

(** [handleSubmit ()]: the new state and the score handed to
    [onComplete], if it is called.  The outer [None] is the [TypeError] of
    reading [a] of a question that is not there. *)
Definition handleSubmit (quiz : list Question) (s : QuizState)
  : option (QuizState * option nat) :=
  match selected s with
  | None => Some (s, None)
  | Some sel =>
      match quiz !! index s with
      | None => None
      | Some question =>
          let right := bool_decide (sel = a question) in
          let score' := if right then S (score s) else score s in
          if Nat.ltb (index s + 1) (length quiz) then
            Some ({| index := index s + 1; score := score';
                     selected := None; finished := finished s |}, None)
          else
            let finalScore := (score s + (if right then 1 else 0))%nat in
            Some ({| index := index s; score := score';
                     selected := selected s; finished := true |},
                  Some finalScore)
      end
  end.

(** The reader answers question after question: each answer is a click
    on an option and a click on Submit.  A finished quiz renders nothing, so
    nothing more can be clicked.  The result lists the scores handed to
    [onComplete]. *)
Fixpoint takeQuiz (quiz : list Question) (answers : list nat) (s : QuizState)
  : option (QuizState * list nat) :=
  match answers with
  | [] => Some (s, [])
  | answer :: answers' =>
      if finished s then Some (s, [])
      else
        match handleSubmit quiz (select answer s) with
        | None => None
        | Some (s', out) =>
            match takeQuiz quiz answers' s' with
            | None => None
            | Some (s'', outs) => Some (s'', option_list out ++ outs)
            end
        end
  end.

(** The number of answers that are the right ones. *)
Fixpoint rightAnswers (quiz : list Question) (answers : list nat) : nat :=
  match quiz, answers with
  | question :: quiz', answer :: answers' =>
      ((if bool_decide (answer = a question) then 1 else 0)
       + rightAnswers quiz' answers')%nat
  | _, _ => 0%nat
  end.

(** An entry of the read history. *)
Record Read := {
  r_id : string;
  r_title : string;
  r_date : string;
  r_reward : Qc
}.

(** The part of the page that [handleQuizComplete] works on. *)
Record Page := {
  user : UserAccount;
  readHistory : list Read;
  showQuiz : bool
}.

(** [handleQuizComplete (score, article)]; [date] is what
    [new Date ().toLocaleString ()] returns. *)
Definition handleQuizComplete (date : string) (score : nat) (article : Article)
    (p : Page) : Page :=
  if Nat.leb 2 score then
    let newRecord := {| r_id := id article; r_title := title article;
                        r_date := date; r_reward := reward article |} in
    {| user := markArticleRead (id article) (reward article) (user p);
       readHistory := readHistory p ++ [newRecord];
       showQuiz := false |}
  else
    {| user := user p; readHistory := readHistory p; showQuiz := false |}.

(** A reader takes the quiz of an article; every score that the quiz
    hands over goes to [handleQuizComplete]. *)
Definition readAndAnswer (date : string) (article : Article)
    (answers : list nat) (p : Page) : option Page :=
  match takeQuiz (quiz article) answers fresh with
  | None => None
  | Some (_, outs) =>
      Some (foldl (fun p n => handleQuizComplete date n article p) p outs)
  end.

End Articles.

(** ** The story game: [DreamLifePlanner] *)

Module DreamLife.

(** A choice of a scene, without [feedback], the text of its toast.
    [None] is a property that the choice does not have. *)
Record Choice := {
  label : string;
  cost : option Qc;
  income : option Qc;
  happiness : option Z;
  consistency : option Z;
  wisdom : option Z;
  next : option Z
}.

Record Stats := { s_happiness : Z; s_consistency : Z; s_wisdom : Z }.

(** The component with the account it spends from, and the calls of
    [nextScene] that [setTimeout] holds, oldest first, each with its
    argument. *)
Record State := {
  user : UserAccount;
  scene : Z;
  stats : Stats;
  log : list string;
  timers : list (option Z)
}.

(** A number used as a condition: missing and zero are false. *)
Definition truthy (x : option Qc) : option Qc :=
  match x with
  | Some v => if Qc_eq_dec v 0 then None else Some v
  | None => None
  end.

(** [x || 0] *)
Definition or_zero (x : option Z) : Z := default 0%Z x.

(** [nextScene (next = null)]: the updater [(s) => next || s + 1]. *)
Definition nextScene (next : option Z) (s : Z) : Z :=
  match next with
  | Some n => if Z.eqb n 0 then (s + 1)%Z else n
  | None => (s + 1)%Z
  end.

Definition labelled (l : string) : TxOpts :=
  {| opt_source := None; opt_label := Some l |}.

(** [handleChoice (choice)]; [c1] and [c2] are the clocks that its two
    calls of [transact] read. *)
Definition handleChoice (c1 c2 : Clock) (choice : Choice) (st : State)
  : State :=
  let refused :=
    match truthy (cost choice) with
    | Some k => if Qclt_le_dec (balance (user st)) k then true else false
    | None => false
    end in
  if refused then st
  else
    let u1 := match truthy (cost choice) with
              | Some k => transact c1 (- k) (labelled (label choice)) (user st)
              | None => user st
              end in
    let u2 := match truthy (income choice) with
              | Some k => transact c2 k (labelled (label choice)) u1
              | None => u1
              end in
    {| user := u2;
       scene := scene st;
       stats :=
         {| s_happiness :=
              Z.max 0 (s_happiness (stats st) + or_zero (happiness choice));
            s_consistency :=
              Z.max 0 (s_consistency (stats st) + or_zero (consistency choice));
            s_wisdom :=
              Z.max 0 (s_wisdom (stats st) + or_zero (wisdom choice)) |};
       log := log st ++ [label choice];
       timers := timers st ++ [next choice] |}.

(** The oldest timer runs its [nextScene]. *)
Definition timeout (st : State) : State :=
  match timers st with
  | [] => st
  | next :: rest =>
      {| user := user st; scene := nextScene next (scene st);
         stats := stats st; log := log st; timers := rest |}
  end.

Record Scene := {
  title : string;
  choices : list Choice;
  summary : bool
}.

(** The table [scenes], without the [story] texts. *)
Definition scenes (n : Z) : option Scene :=
  if Z.eqb n 1 then
    Some {| title := "Scene 1: The Morning Dilemma 🌅";
            choices :=
              [ {| label := "Buy a good breakfast (₹50)";
                   cost := Some (ofZ 50); income := None;
                   happiness := Some 2%Z; consistency := None;
                   wisdom := None; next := None |};
                {| label := "Skip breakfast, save money";
                   cost := Some (ofZ 0); income := None;
                   happiness := Some (-2)%Z; consistency := None;
                   wisdom := None; next := None |};
                {| label := "Grab tea with friends (₹20)";
                   cost := Some (ofZ 20); income := None;
                   happiness := Some 1%Z; consistency := Some 1%Z;
                   wisdom := None; next := None |} ];
            summary := false |}
  else if Z.eqb n 2 then
    Some {| title := "Scene 2: The College Event 🎤";
            choices :=
              [ {| label := "Buy tickets (₹200)";
                   cost := Some (ofZ 200); income := None;
                   happiness := Some 2%Z; consistency := Some 1%Z;
                   wisdom := None; next := None |};
                {| label := "Volunteer for free";
                   cost := Some (ofZ 0); income := None;
                   happiness := None; consistency := Some 2%Z;
                   wisdom := Some 1%Z; next := None |};
                {| label := "Skip the event";
                   cost := Some (ofZ 0); income := None;
                   happiness := Some (-1)%Z; consistency := None;
                   wisdom := None; next := None |} ];
            summary := false |}
  else if Z.eqb n 3 then
    Some {| title := "Scene 3: The Freelance Offer 💼";
            choices :=
              [ {| label := "Accept the project";
                   cost := None; income := Some (ofZ 500);
                   happiness := None; consistency := Some (-1)%Z;
                   wisdom := Some 2%Z; next := Some 4%Z |};
                {| label := "Reject it and study";
                   cost := Some (ofZ 0); income := None;
                   happiness := None; consistency := None;
                   wisdom := Some 3%Z; next := Some 4%Z |};
                {| label := "Ignore the message";
                   cost := Some (ofZ 0); income := None;
                   happiness := None; consistency := None;
                   wisdom := None; next := Some 4%Z |} ];
            summary := false |}
  else if Z.eqb n 4 then
    Some {| title := "Scene 4: The Outcome 🧾"; choices := [];
            summary := true |}
  else None.

(** A click on the button of the choice at index [k] of the scene on
    display; the summary and a scene that is not in the table show no such
    button. *)
Definition click (c1 c2 : Clock) (k : nat) (st : State) : State :=
  match scenes (scene st) with
  | Some sceneData =>
      if summary sceneData then st
      else match choices sceneData !! k with
           | Some choice => handleChoice c1 c2 choice st
           | None => st
           end
  | None => st
  end.

(** One round of the story: a choice is clicked and, a second later, its
    timer runs. *)
Definition round (c1 c2 : Clock) (k : nat) (st : State) : State :=
  timeout (click c1 c2 k st).

(** The state in which the component is mounted without saved progress. *)
Definition start (u : UserAccount) : State :=
  {| user := u; scene := 1;
     stats := {| s_happiness := 5; s_consistency := 5; s_wisdom := 5 |};
     log := []; timers := [] |}.

End DreamLife.

Module DreamLifeStory.
Import DreamLife.

(** What the choices of one scene have in common: costs in cents between
    zero and [most], incomes in cents that are not negative, and the scene
    [target] to which they lead from the scene [n]. *)
Definition leads (n target : Z) (most : Qc) (choice : Choice) : Prop :=
  is_cents (default 0 (cost choice))
  ∧ 0 ≤ default 0 (cost choice)
  ∧ default 0 (cost choice) ≤ most
  ∧ is_cents (default 0 (income choice))
  ∧ 0 ≤ default 0 (income choice)
  ∧ nextScene (next choice) n = target.

End DreamLifeStory.

(** ** The animated balance: [AnimatedBalance] *)

Module Animated.

(** [Math.min (a, b)] *)
Definition Math_min (a b : Qc) : Qc := if Qclt_le_dec b a then b else a.

(** [Math.pow (x, 3)] *)
Definition pow3 (x : Qc) : Qc := x * x * x.

Definition dur : Qc := ofZ 400.

(** The callback [step] of one animation frame, for an animation from
    [start] to [finish] begun at [startTime], at the time [now] of the frame:
    the value displayed, and whether another frame is requested. *)
Definition step (start finish startTime now : Qc) : Qc * bool :=
  let t := Math_min 1 ((now - startTime) / dur) in
  let eased := 1 - pow3 (1 - t) in
  let v := start + (finish - start) * eased in
  (round2 v, if Qclt_le_dec t 1 then true else false).

End Animated.

(** ** The quiz game: [MCQGame] *)

Module MCQ.

(** The right option of each of the three questions [qs]. *)
Definition qs : list nat := [1; 1; 0]%nat.

(** The component with the account it pays into; [timers] counts the
    pending timeouts of [submit]. *)
Record State := {
  user : UserAccount;
  i : nat;
  sel : option nat;
  locked : bool;
  timers : nat
}.

Definition start (u : UserAccount) : State :=
  {| user := u; i := 0; sel := None; locked := false; timers := 0 |}.

Definition mcq (label : string) : TxOpts :=
  {| opt_source := Some "mcq"%string; opt_label := Some label |}.

(** A click on an option; the buttons are disabled while [locked]. *)
Definition select (idx : nat) (st : State) : State :=
  if locked st then st
  else {| user := user st; i := i st; sel := Some idx; locked := locked st;
          timers := timers st |}.

(** A click on Submit, which is disabled while [locked]: [submit ()].
    Were [i] outside the questions, reading [qs[i].a] would throw after
    [setLocked (true)]. *)
Definition submit (c : Clock) (st : State) : State :=
  if locked st then st
  else
    match sel st with
    | None => st
    | Some s =>
        match qs !! i st with
        | None => {| user := user st; i := i st; sel := sel st;
                     locked := true; timers := timers st |}
        | Some a =>
            {| user := if bool_decide (s = a)
                       then transact c (ofZ 50) (mcq "MCQ Correct") (user st)
                       else transact c (ofZ (-10)) (mcq "MCQ Wrong") (user st);
               i := i st; sel := sel st; locked := true;
               timers := S (timers st) |}
        end
    end.

(** The timeout of a submit, 900 ms later. *)
Definition timeout (st : State) : State :=
  match timers st with
  | O => st
  | S n => {| user := user st; i := (i st + 1) mod length qs; sel := None;
              locked := false; timers := n |}
  end.

Inductive Event :=
| Select (idx : nat)
| Submit (c : Clock)
| Timeout.

Definition step (ev : Event) (st : State) : State :=
  match ev with
  | Select idx => select idx st
  | Submit c => submit c st
  | Timeout => timeout st
  end.

Definition play (evs : list Event) (st : State) : State :=
  foldl (fun st ev => step ev st) st evs.

(** The number of entries that a sequence of events can have written:
    one for each timeout that has run, and one more. *)
Definition rounds (evs : list Event) : nat :=
  S (length (List.filter (fun ev => match ev with Timeout => true | _ => false end)
                         evs)).

End MCQ.

(** ** The local cache: [JSON.stringify], [JSON.parse] and [useLocalState] *)

Module JSON.

(** The values that JSON encodes: [null], booleans, numbers, strings,
    arrays, and objects as the list of their own properties in the order
    in which they are written.  ([undefined], functions and symbols, which
    [JSON.stringify] leaves out, do not occur in an account.)  Characters
    are code units below 256. *)
#[warnings="-register-all"] Inductive Value :=
| JNull
| JBool (b : bool)
| JNumber (n : Qc)
| JString (s : string)
| JArray (elements : list Value)
| JObject (properties : list (string * Value)).

Definition code (c : ascii) : N := N_of_ascii c.

(** The double quote. *)
Definition quote : ascii := ascii_of_N 34.

(** *** [JSON.stringify] *)

Definition digit (n : N) : ascii := ascii_of_N (48 + n).

Definition hex_digit (n : N) : ascii :=
  ascii_of_N (if (n <? 10)%N then 48 + n else 87 + n).

(** [QuoteJSONString]: the double quote and the backslash are escaped, the
    control characters are written as [\b], [\f], [\n], [\r], [\t] or
    [\u00XX], and every other character stands for itself. *)
Definition escape_char (c : ascii) : string :=
  let n := code c in
  if (n =? 34)%N then String "\" (String quote EmptyString)
  else if (n =? 92)%N then "\\"
  else if (n =? 8)%N then "\b"
  else if (n =? 12)%N then "\f"
  else if (n =? 10)%N then "\n"
  else if (n =? 13)%N then "\r"
  else if (n =? 9)%N then "\t"
  else if (n <? 32)%N then
    String "\" (String "u" (String "0" (String "0"
      (String (hex_digit (n / 16)) (String (hex_digit (n mod 16))
         EmptyString)))))
  else String c EmptyString.

Fixpoint escape (s : string) : string :=
  match s with
  | EmptyString => EmptyString
  | String c s' => escape_char c +:+ escape s'
  end.

Definition QuoteJSONString (s : string) : string :=
  String quote (escape s +:+ String quote EmptyString).

(** The decimal digits of a natural number, without leading zeros. *)
Fixpoint N_digits (fuel : nat) (n : N) : string :=
  match fuel with
  | O => EmptyString
  | S fuel =>
      (if (n <? 10)%N then EmptyString else N_digits fuel (n / 10))
      +:+ String (digit (n mod 10)) EmptyString
  end.

Definition N_toString (n : N) : string :=
  N_digits (S (N.to_nat (N.size n))) n.

(** The digits after the decimal point of [r / d], for [r < d], up to the
    last one that is not zero (at most [fuel] digits). *)
Fixpoint fraction_digits (fuel : nat) (r d : N) : string :=
  match fuel with
  | O => EmptyString
  | S fuel =>
      if (r =? 0)%N then EmptyString
      else String (digit (10 * r / d))
                  (fraction_digits fuel ((10 * r) mod d) d)
  end.

(** [Number::toString] in positional notation: a minus sign for a negative
    number, the whole part, and the fractional digits after a point when
    there are any.  This is the text that JavaScript gives for the whole
    numbers and the amounts in cents of an account.  A fraction that does
    not end is cut after twenty digits, and the exponent notation that
    JavaScript uses for magnitudes from [1e21] on and below [1e-6] is not
    modelled. *)
Definition Number_toString (q : Qc) : string :=
  let n := Z.abs_N (Qnum q) in
  let d := Npos (Qden q) in
  (if (Qnum q <? 0)%Z then "-" else EmptyString)
  +:+ N_toString (n / d)
  +:+ (if (n mod d =? 0)%N then EmptyString
      else String "." (fraction_digits 20 (n mod d) d)).

(** Elements separated by commas. *)
Fixpoint join (xs : list string) : string :=
  match xs with
  | [] => EmptyString
  | [x] => x
  | x :: xs' => x +:+ String "," (join xs')
  end.

(** [JSON.stringify (value)], without indentation. *)
Fixpoint stringify (v : Value) : string :=
  match v with
  | JNull => "null"
  | JBool true => "true"
  | JBool false => "false"
  | JNumber n => Number_toString n
  | JString s => QuoteJSONString s
  | JArray vs => String "[" (join (List.map stringify vs) +:+ "]")
  | JObject ps =>
      String "{"
        (join (List.map (fun p => QuoteJSONString (fst p)
                                   +:+ String ":" (stringify (snd p))) ps)
         +:+ "}")
  end.

(** *** [JSON.parse] *)

(** White space between the tokens: tab, line feed, carriage return and
    space. *)
Definition is_space (c : ascii) : bool :=
  let n := code c in
  (n =? 9)%N || (n =? 10)%N || (n =? 13)%N || (n =? 32)%N.

Fixpoint skip_space (s : string) : string :=
  match s with
  | String c s' => if is_space c then skip_space s' else s
  | EmptyString => s
  end.

Definition is_digit (c : ascii) : bool :=
  let n := code c in (48 <=? n)%N && (n <=? 57)%N.

Definition hex_value (c : ascii) : option N :=
  let n := code c in
  if (48 <=? n)%N && (n <=? 57)%N then Some (n - 48)%N
  else if (97 <=? n)%N && (n <=? 102)%N then Some (n - 87)%N
  else if (65 <=? n)%N && (n <=? 70)%N then Some (n - 55)%N
  else None.

(** The character that stands after a backslash, for the escapes of one
    character. *)
Definition unescape (c : ascii) : option ascii :=
  let n := code c in
  if (n =? 34)%N then Some quote
  else if (n =? 92)%N then Some "\"%char
  else if (n =? 47)%N then Some "/"%char
  else if (n =? 98)%N then Some (ascii_of_N 8)
  else if (n =? 102)%N then Some (ascii_of_N 12)
  else if (n =? 110)%N then Some (ascii_of_N 10)
  else if (n =? 114)%N then Some (ascii_of_N 13)
  else if (n =? 116)%N then Some (ascii_of_N 9)
  else None.

Definition cons_char (c : ascii) (r : option (string * string))
  : option (string * string) :=
  match r with
  | Some (s, rest) => Some (String c s, rest)
  | None => None
  end.

(** A string after its opening quote: the characters up to the closing
    quote, and the text after it.  A control character, an unknown escape
    and a missing closing quote are syntax errors ([None]); so is, in this
    model of strings, a [\u] escape of a code unit from 256 on. *)
Fixpoint string_body (s : string) : option (string * string) :=
  match s with
  | EmptyString => None
  | String c s' =>
      let n := code c in
      if (n =? 34)%N then Some (EmptyString, s')
      else if (n =? 92)%N then
        match s' with
        | EmptyString => None
        | String e s'' =>
            if (code e =? 117)%N then
              match s'' with
              | String h1 (String h2 (String h3 (String h4 s4))) =>
                  match hex_value h1, hex_value h2, hex_value h3,
                        hex_value h4 with
                  | Some a, Some b, Some c', Some d =>
                      let u := (((a * 16 + b) * 16 + c') * 16 + d)%N in
                      if (u <? 256)%N
                      then cons_char (ascii_of_N u) (string_body s4)
                      else None
                  | _, _, _, _ => None
                  end
              | _ => None
              end
            else
              match unescape e with
              | Some x => cons_char x (string_body s'')
              | None => None
              end
        end
      else if (n <? 32)%N then None
      else cons_char c (string_body s')
  end.

(** The digits at the head of a text: the number read so far times ten
    plus each digit, how many digits were read, and the text after them. *)
Fixpoint read_digits (s : string) (acc : N) (count : nat)
  : N * nat * string :=
  match s with
  | String c s' =>
      if is_digit c
      then read_digits s' (10 * acc + (code c - 48))%N (S count)
      else (acc, count, s)
  | EmptyString => (acc, count, s)
  end.

(** The exponent part of a number, when there is one: [e] or [E], a sign,
    and at least one digit. *)
Definition read_exponent (s : string) : option (option Z * string) :=
  match s with
  | String c s' =>
      if (code c =? 101)%N || (code c =? 69)%N then
        let '(neg, s'') :=
          match s' with
          | String sg t =>
              if (code sg =? 45)%N then (true, t)
              else if (code sg =? 43)%N then (false, t)
              else (false, s')
          | EmptyString => (false, s')
          end in
        let '(e, k, rest) := read_digits s'' 0%N 0%nat in
        match k with
        | O => None
        | S _ => Some (Some (if neg : bool then - Z.of_N e else Z.of_N e)%Z,
                       rest)
        end
      else Some (None, s)
  | EmptyString => Some (None, s)
  end.

(** A number: an optional minus sign, the whole part (a single zero, or
    digits that do not start with a zero), an optional point with at least
    one digit, and an optional exponent. *)
Definition number (s : string) : option (Qc * string) :=
  let '(neg, s1) :=
    match s with
    | String c t => if (code c =? 45)%N then (true, t) else (false, s)
    | EmptyString => (false, s)
    end in
  match s1 with
  | String c t =>
      if is_digit c then
        let '(whole, _, s2) :=
          if (code c =? 48)%N then (0%N, 1%nat, t)
          else read_digits s1 0%N 0%nat in
        let mantissa : option (N * nat * string) :=
          match s2 with
          | String p t2 =>
              if (code p =? 46)%N then
                let '(m, k, s3) := read_digits t2 whole 0%nat in
                match k with
                | O => None
                | S _ => Some (m, k, s3)
                end
              else Some (whole, 0%nat, s2)
          | EmptyString => Some (whole, 0%nat, s2)
          end in
        match mantissa with
        | None => None
        | Some (m, k, s3) =>
            let q : Q :=
              (inject_Z (Z.of_N m) / inject_Z (10 ^ Z.of_nat k))%Q in
            let q : Q := if neg : bool then Qopp q else q in
            match read_exponent s3 with
            | None => None
            | Some (None, rest) => Some (Q2Qc q, rest)
            | Some (Some e, rest) =>
                Some (Q2Qc (q * Qpower (inject_Z 10) e)%Q, rest)
            end
        end
      else None
  | EmptyString => None
  end.

(** The text [word] at the head of [s]. *)
Fixpoint literal (word s : string) : option string :=
  match word, s with
  | EmptyString, _ => Some s
  | String a word', String b s' =>
      if Ascii.eqb a b then literal word' s' else None
  | String _ _, EmptyString => None
  end.

(** The elements of an array after the first bracket, [pv] being the
    parser of one value: values separated by commas up to the closing
    bracket. *)
Fixpoint elements (pv : string → option (Value * string)) (fuel : nat)
  (s : string) : option (list Value * string) :=
  match fuel with
  | O => None
  | S fuel =>
      match pv s with
      | None => None
      | Some (v, r) =>
          match skip_space r with
          | String c r' =>
              if (code c =? 44)%N then
                match elements pv fuel r' with
                | Some (vs, r'') => Some (v :: vs, r'')
                | None => None
                end
              else if (code c =? 93)%N then Some ([v], r')
              else None
          | EmptyString => None
          end
      end
  end.

(** The members of an object after the first brace: a string, a colon
    and a value each, separated by commas up to the closing brace. *)
Fixpoint members (pv : string → option (Value * string)) (fuel : nat)
  (s : string) : option (list (string * Value) * string) :=
  match fuel with
  | O => None
  | S fuel =>
      match skip_space s with
      | String q s1 =>
          if (code q =? 34)%N then
            match string_body s1 with
            | None => None
            | Some (k, s2) =>
                match skip_space s2 with
                | String c s3 =>
                    if (code c =? 58)%N then
                      match pv s3 with
                      | None => None
                      | Some (v, r) =>
                          match skip_space r with
                          | String c' r' =>
                              if (code c' =? 44)%N then
                                match members pv fuel r' with
                                | Some (ps, r'') => Some ((k, v) :: ps, r'')
                                | None => None
                                end
                              else if (code c' =? 125)%N
                              then Some ([(k, v)], r')
                              else None
                          | EmptyString => None
                          end
                      end
                    else None
                | EmptyString => None
                end
            end
          else None
      | EmptyString => None
      end
  end.

(** A property that is given again takes the new value and keeps its
    place; a new one is added at the end. *)
Fixpoint set_property (k : string) (v : Value) (ps : list (string * Value))
  : list (string * Value) :=
  match ps with
  | [] => [(k, v)]
  | (k', v') :: ps' =>
      if String.eqb k k' then (k, v) :: ps'
      else (k', v') :: set_property k v ps'
  end.

Definition object_of (ps : list (string * Value)) : Value :=
  JObject (List.fold_left (fun o p => set_property (fst p) (snd p) o) ps []).

(** One value, with white space before it. *)
Fixpoint value (fuel : nat) (s : string) : option (Value * string) :=
  match fuel with
  | O => None
  | S fuel =>
      match skip_space s with
      | EmptyString => None
      | String c s' as t =>
          let n := code c in
          if (n =? 110)%N then
            match literal "null" t with
            | Some r => Some (JNull, r) | None => None end
          else if (n =? 116)%N then
            match literal "true" t with
            | Some r => Some (JBool true, r) | None => None end
          else if (n =? 102)%N then
            match literal "false" t with
            | Some r => Some (JBool false, r) | None => None end
          else if (n =? 34)%N then
            match string_body s' with
            | Some (str, r) => Some (JString str, r) | None => None end
          else if (n =? 91)%N then
            match skip_space s' with
            | String b r =>
                if (code b =? 93)%N then Some (JArray [], r)
                else
                  match elements (value fuel) fuel s' with
                  | Some (vs, r') => Some (JArray vs, r')
                  | None => None
                  end
            | EmptyString => None
            end
          else if (n =? 123)%N then
            match skip_space s' with
            | String b r =>
                if (code b =? 125)%N then Some (JObject [], r)
                else
                  match members (value fuel) fuel s' with
                  | Some (ps, r') => Some (object_of ps, r')
                  | None => None
                  end
            | EmptyString => None
            end
          else
            match number t with
            | Some (q, r) => Some (JNumber q, r) | None => None end
      end
  end.

(** [JSON.parse (text)]: one value and nothing but white space after it;
    [None] is a [SyntaxError]. *)
Definition parse (text : string) : option Value :=
  match value (S (String.length text)) text with
  | Some (v, r) =>
      match skip_space r with
      | EmptyString => Some v
      | String _ _ => None
      end
  | None => None
  end.

(** *** Vocabulary of the round trip *)

(** A text that does not go on with a digit. *)
Definition no_digit (s : string) : Prop :=
  match s with
  | EmptyString => True
  | String c _ => is_digit c = false
  end.

(** The numbers with at most twenty digits after the point. *)
Definition decimal (q : Qc) : Prop := (Npos (Qden q) | 10 ^ 20)%N.

(** What stands after a value inside a text: nothing, a comma, or a
    closing bracket or brace. *)
Definition closed (s : string) : Prop :=
  match s with
  | EmptyString => True
  | String c _ => code c = 44%N ∨ code c = 93%N ∨ code c = 125%N
  end.

(** A value does not start with white space, nor with a closing bracket
    or brace. *)
Definition opening (c : ascii) : Prop :=
  is_space c = false ∧ code c ≠ 93%N ∧ code c ≠ 125%N.

(** The text of one property. *)
Definition member (p : string * Value) : string :=
  QuoteJSONString (fst p) +:+ String ":" (stringify (snd p)).

(** How deep and how long a value is: a bound on the fuel that parsing its
    text takes. *)
Fixpoint size (v : Value) : nat :=
  match v with
  | JArray vs => S (fold_right (fun v n => S (size v) + n)%nat 0%nat vs)
  | JObject ps =>
      S (fold_right (fun p n => S (size (snd p)) + n)%nat 0%nat ps)
  | _ => 1%nat
  end.

(** The values whose numbers have at most twenty digits after the point
    and whose objects have no property twice. *)
Fixpoint ok (v : Value) : Prop :=
  match v with
  | JNumber q => decimal q
  | JArray vs => fold_right (fun v P => ok v ∧ P) True vs
  | JObject ps =>
      NoDup (List.map fst ps)
      ∧ fold_right (fun p P => ok (snd p) ∧ P) True ps
  | _ => True
  end.

End JSON.

(** *** The account in the local cache: [useLocalState] *)

Module LocalState.
Import JSON.

(** [localStorage]: strings under string keys. *)
Definition Storage := gmap string string.

(** [null] for a missing value. *)
Definition or_null {A} (f : A → Value) (x : option A) : Value :=
  match x with
  | Some a => f a
  | None => JNull
  end.

(** A ledger entry as the object that [transact] builds. *)
Definition Tx_value (tx : Tx) : Value :=
  JObject
    [ ("id"%string, JNumber (ofZ (tx_id tx)));
      ("ts"%string, JString (tx_ts tx));
      ("amount"%string, JNumber (tx_amount tx));
      ("balanceAfter"%string, JNumber (tx_balanceAfter tx));
      ("source"%string, JString (tx_source tx));
      ("label"%string, or_null JString (tx_label tx)) ].

Definition Investment_value (i : Investment) : Value :=
  JObject
    [ ("id"%string, JNumber (ofZ (inv_id i)));
      ("amount"%string, JNumber (inv_amount i));
      ("symbol"%string, JString (inv_symbol i));
      ("metadata"%string, JString (inv_metadata i)) ].

(** The [user] object, its properties in the order of the object that
    [UserProvider] starts with (the updates keep that order), [dateStr]
    giving the ten characters of a date.  The properties of
    [readArticles] are listed in the order of the map. *)
Definition user_value (dateStr : Date → string) (u : UserAccount) : Value :=
  JObject
    [ ("username"%string, or_null JString (username u));
      ("balance"%string, JNumber (balance u));
      ("lastLogin"%string, or_null (fun d => JString (dateStr d)) (lastLogin u));
      ("streak"%string, JNumber (ofZ (streak u)));
      ("loginDates"%string,
        JArray (List.map (fun d => JString (dateStr d)) (loginDates u)));
      ("readArticles"%string,
        JObject (List.map (fun kb => (fst kb, JBool (snd kb)))
                   (map_to_list (readArticles u))));
      ("investments"%string,
        JArray (List.map Investment_value (investments u)));
      ("transactions"%string,
        JArray (List.map Tx_value (transactions u))) ].

(** The initial state of [useLocalState (key, initial)]: the stored text
    parsed, and [initial] when there is no text, when the text is empty, and
    when parsing it throws. *)
Definition useLocalState_initial (key : string) (initial : Value)
  (storage : Storage) : Value :=
  match storage !! key with
  | Some raw =>
      match raw with
      | EmptyString => initial
      | String _ _ =>
          match parse raw with
          | Some v => v
          | None => initial
          end
      end
  | None => initial
  end.

(** The effect of [useLocalState]:
    [localStorage.setItem (key, JSON.stringify (state))]. *)
Definition useLocalState_effect (key : string) (state : Value)
  (storage : Storage) : Storage :=
  <[key := stringify state]> storage.

(** An amount in cents below ten million million in magnitude: in lowest
    terms its denominator divides 100.  These are amounts that a
    JavaScript number holds to the cent and prints in positional
    notation. *)
Definition js_amount (q : Qc) : bool :=
  (100 mod Zpos (Qden q) =? 0)%Z
  && (Z.abs (Qnum q) <? 10 ^ 13 * Zpos (Qden q))%Z.

(** A whole number below ten million million in magnitude. *)
Definition js_integer (z : Z) : bool := (Z.abs z <? 10 ^ 13)%Z.

(** A well-formed account: the balance and the amounts of the positions
    and of the ledger entries are such amounts, and the streak and the ids
    such whole numbers. *)
Definition wellFormed (u : UserAccount) : Prop :=
  js_amount (balance u) = true
  ∧ js_integer (streak u) = true
  ∧ Forall (fun i => js_integer (inv_id i) = true
                     ∧ js_amount (inv_amount i) = true) (investments u)
  ∧ Forall (fun tx => js_integer (tx_id tx) = true
                      ∧ js_amount (tx_amount tx) = true
                      ∧ js_amount (tx_balanceAfter tx) = true)
           (transactions u).

End LocalState.

(** [n] in decimal digits, with zeros in front up to [width] digits. *)
Definition pad (width : nat) (n : Z) : string :=
  let s := JSON.N_toString (Z.to_N n) in
  String.string_of_list_ascii
    (repeat "0"%char (width - String.length s)) +:+ s.

(** The ten characters of a date, for the years 1970 to 9999: the year,
    the month and the day of the month of the day number, as in
    "2024-10-27". *)
Definition isoDate (d : Date) : string :=
  let z := (d + 719468)%Z in
  let era := (z / 146097)%Z in
  let doe := (z - era * 146097)%Z in
  let yoe := ((doe - doe / 1460 + doe / 36524 - doe / 146096) / 365)%Z in
  let doy := (doe - (365 * yoe + yoe / 4 - yoe / 100))%Z in
  let mp := ((5 * doy + 2) / 153)%Z in
  let day := (doy - (153 * mp + 2) / 5 + 1)%Z in
  let month := (if (mp <? 10)%Z then mp + 3 else mp - 9)%Z in
  let year := (yoe + era * 400 + (if (month <=? 2)%Z then 1 else 0))%Z in
  pad 4 year +:+ "-" +:+ pad 2 month +:+ "-" +:+ pad 2 day.

(** An account at the bounds of its lists: thirty logins on thirty days
    in a row, and two hundred entries in the ledger. *)
Definition boundaryAccount : UserAccount :=
  run (List.map (fun d => OLogin (clockOn d) (Some "asha"%string))
         (seqZ 19990 30)
       ++ repeat (OTransact sampleClock (Q2Qc (-125 # 100)) noOpts) 200)
    initialUser.

(** * Properties *)

(** ** Arithmetic of [round2] and [Math.max] *)

(** Closed equations between rationals are decided on their canonical
    forms. *)
Ltac qc_compute := apply Qc_is_canon; vm_compute; reflexivity.

Lemma ofZ_le (a b : Z) : (a ≤ b)%Z → ofZ a ≤ ofZ b.
Proof.
  intros H. unfold ofZ, Qcle. simpl. rewrite !Qred_correct.
  rewrite <- Zle_Qle. exact H.
Qed.

Lemma ofZ_0 : ofZ 0 = 0.
Proof. apply Qc_is_canon. reflexivity. Qed.

Lemma Math_round_nonneg (x : Qc) : 0 ≤ x → (0 ≤ Math_round x)%Z.
Proof.
  intros H. unfold Math_round.
  rewrite <- (Qfloor_Z 0). apply Qfloor_resp_le.
  change (inject_Z 0) with (0 + 0)%Q.
  apply Qplus_le_compat; [exact H | discriminate].
Qed.

Lemma Qcdiv_100_nonneg (x : Qc) : 0 ≤ x → 0 ≤ x / ofZ 100.
Proof.
  intros H. unfold Qcdiv.
  apply Qcmult_nonneg_nonneg; [exact H | discriminate].
Qed.

Lemma round2_nonneg (x : Qc) : 0 ≤ x → 0 ≤ round2 x.
Proof.
  intros H. unfold round2. apply Qcdiv_100_nonneg.
  rewrite <- ofZ_0. apply ofZ_le, Math_round_nonneg.
  apply Qcmult_nonneg_nonneg; [exact H | discriminate].
Qed.

Lemma Math_max_l (a b : Qc) : a ≤ Math_max a b.
Proof.
  unfold Math_max. destruct (Qclt_le_dec a b) as [H|H].
  - apply Qclt_le_weak, H.
  - apply Qcle_refl.
Qed.

Lemma Math_max_r (a b : Qc) : b ≤ Math_max a b.
Proof.
  unfold Math_max. destruct (Qclt_le_dec a b) as [H|H].
  - apply Qcle_refl.
  - exact H.
Qed.

(** [Math.round] of an integer is that integer. *)
Lemma Math_round_ofZ (z : Z) : Math_round (ofZ z) = z.
Proof.
  unfold Math_round, ofZ.
  assert (E : (this (Q2Qc (inject_Z z)) + (1 # 2)
               == inject_Z z + (1 # 2))%Q).
  { simpl. rewrite !Qred_correct. reflexivity. }
  rewrite (Qfloor_comp _ _ E).
  unfold Qfloor, Qplus, inject_Z. simpl.
  rewrite Z.mul_1_r.
  symmetry. apply (Z.div_unique_pos _ 2 z 1); lia.
Qed.

(** An amount with at most two fractional digits is a fixed point of
    [round2]. *)
Lemma round2_cents (z : Z) : round2 (ofZ z / ofZ 100) = ofZ z / ofZ 100.
Proof.
  unfold round2. f_equal. f_equal.
  replace (ofZ z / ofZ 100 * ofZ 100) with (ofZ z).
  - apply Math_round_ofZ.
  - field. discriminate.
Qed.

Lemma ofZ_plus (a b : Z) : ofZ (a + b) = ofZ a + ofZ b.
Proof.
  apply Qc_is_canon. unfold ofZ. simpl. rewrite !Qred_correct.
  rewrite inject_Z_plus. reflexivity.
Qed.

Lemma ofZ_opp (a : Z) : ofZ (- a) = - ofZ a.
Proof.
  apply Qc_is_canon. unfold ofZ. simpl. rewrite !Qred_correct.
  rewrite inject_Z_opp. reflexivity.
Qed.

(** Every value of [round2] has at most two fractional digits. *)
Lemma round2_is_cents (x : Qc) : is_cents (round2 x).
Proof. eexists. reflexivity. Qed.

Lemma round2_fixed (x : Qc) : is_cents x → round2 x = x.
Proof. intros [z ->]. apply round2_cents. Qed.

Lemma round2_idem (x : Qc) : round2 (round2 x) = round2 x.
Proof. apply round2_fixed, round2_is_cents. Qed.

Lemma ofZ_is_cents (z : Z) : is_cents (ofZ z).
Proof.
  exists (z * 100)%Z. apply Qc_is_canon. unfold ofZ. simpl.
  rewrite !Qred_correct, inject_Z_mult. field.
Qed.

Lemma plus_is_cents (x y : Qc) : is_cents x → is_cents y → is_cents (x + y).
Proof.
  intros [a ->] [b ->]. exists (a + b)%Z. rewrite ofZ_plus.
  field. discriminate.
Qed.

Lemma minus_is_cents (x y : Qc) : is_cents x → is_cents y → is_cents (x - y).
Proof.
  intros [a ->] [b ->]. exists (a + - b)%Z. rewrite ofZ_plus, ofZ_opp.
  field. discriminate.
Qed.

Lemma Math_max_is_cents (x y : Qc) :
  is_cents x → is_cents y → is_cents (Math_max x y).
Proof. intros Hx Hy. unfold Math_max. destruct (Qclt_le_dec x y); assumption. Qed.

Lemma zero_is_cents : is_cents 0.
Proof. rewrite <- ofZ_0. apply ofZ_is_cents. Qed.

Create HintDb ledger.
#[local] Hint Resolve round2_is_cents ofZ_is_cents plus_is_cents
  minus_is_cents Math_max_is_cents zero_is_cents round2_nonneg Math_max_l
  : ledger.

Example round2_ex1 : round2 (Q2Qc (1234567 # 1000)) = Q2Qc (123457 # 100).
Proof. qc_compute. Qed.

Example round2_ex2 : round2 (Q2Qc (-5 # 1000)) = 0.
Proof. qc_compute. Qed.

(** ** Arrays and sets *)

Section Arrays.
Context {A : Type}.
Implicit Types (xs ys : list A) (x : A) (k : nat).

Lemma slice_last_short k xs : (length xs ≤ k)%nat → slice_last k xs = xs.
Proof.
  intros H. unfold slice_last.
  replace (length xs - k)%nat with 0%nat by lia. reflexivity.
Qed.

Lemma slice_last_length k xs :
  length (slice_last k xs) = Nat.min (length xs) k.
Proof. unfold slice_last. rewrite length_drop. lia. Qed.

(** Appending to an array keeps the new element last in the slice. *)
Lemma slice_last_snoc k xs x :
  (0 < k)%nat →
  slice_last k (xs ++ [x]) = drop (length xs + 1 - k) xs ++ [x].
Proof.
  intros Hk. unfold slice_last. rewrite length_app. simpl.
  rewrite drop_app_le by lia. reflexivity.
Qed.

(** Truncating after every append is truncating once at the end. *)
Lemma slice_last_slice_app k xs ys :
  slice_last k (slice_last k xs ++ ys) = slice_last k (xs ++ ys).
Proof.
  destruct (decide (length xs ≤ k)%nat) as [H|H].
  - rewrite (slice_last_short k xs) by exact H. reflexivity.
  - unfold slice_last at 1 3. rewrite !length_app, slice_last_length.
    unfold slice_last. rewrite !drop_app, length_drop, drop_drop.
    f_equal; f_equal; lia.
Qed.

End Arrays.

Section Sets.
Context `{EqDecision A}.
Implicit Types (s xs : list A) (x : A).

Lemma Set_add_elem x s : x ∈ s → Set_add x s = s.
Proof. intros H. unfold Set_add. rewrite decide_True; done. Qed.

Lemma Set_add_fresh x s : x ∉ s → Set_add x s = s ++ [x].
Proof. intros H. unfold Set_add. rewrite decide_False; done. Qed.

Lemma Set_add_NoDup x s : NoDup s → NoDup (Set_add x s).
Proof.
  intros H. unfold Set_add. case_decide; [exact H |].
  apply NoDup_app. split; [exact H |]. split.
  - intros y Hy Hy'. apply list_elem_of_singleton in Hy'. subst. done.
  - apply NoDup_singleton.
Qed.

Lemma Set_add_in x s : x ∈ Set_add x s.
Proof.
  unfold Set_add. case_decide; [done |].
  apply elem_of_app. right. apply list_elem_of_singleton. reflexivity.
Qed.

Lemma foldl_Set_add_NoDup xs s :
  NoDup s → NoDup (foldl (fun s x => Set_add x s) s xs).
Proof.
  revert s. induction xs as [|x xs IH]; intros s H; simpl; [exact H |].
  apply IH, Set_add_NoDup, H.
Qed.

Lemma Set_of_NoDup xs : NoDup (Set_of xs).
Proof. apply foldl_Set_add_NoDup, NoDup_nil_2. Qed.

Lemma foldl_Set_add_id xs s :
  NoDup (s ++ xs) → foldl (fun s x => Set_add x s) s xs = s ++ xs.
Proof.
  revert s. induction xs as [|x xs IH]; intros s H; simpl.
  - rewrite app_nil_r. reflexivity.
  - assert (Hx : x ∉ s).
    { apply NoDup_app in H as (_ & H & _). intros Hin.
      apply (H x Hin). left. }
    rewrite Set_add_fresh by exact Hx.
    rewrite IH; rewrite <- app_assoc; [reflexivity | exact H].
Qed.

(** An array without duplicates goes through [new Set] unchanged. *)
Lemma Set_of_NoDup_id xs : NoDup xs → Set_of xs = xs.
Proof. intros H. unfold Set_of. rewrite foldl_Set_add_id; done. Qed.

End Sets.

(** ** The transaction log *)

Lemma transact_balance c amount o u :
  balance (transact c amount o u) = round2 (Math_max 0 (balance u + amount)).
Proof. reflexivity. Qed.

Lemma transact_transactions c amount o u :
  transactions (transact c amount o u)
  = slice_last 200
      (transactions u ++ [entry c amount o (balance (transact c amount o u))]).
Proof. reflexivity. Qed.

Lemma login_transactions c name u :
  transactions (login c name u) = transactions u.
Proof. unfold login. repeat case_decide; reflexivity. Qed.

Lemma markArticleRead_transactions id reward u :
  transactions (markArticleRead id reward u) = transactions u.
Proof. unfold markArticleRead. destruct (isRead u id); reflexivity. Qed.

Lemma realizeInvestment_transactions id multiplier u :
  transactions (realizeInvestment id multiplier u) = transactions u.
Proof. unfold realizeInvestment. destruct (List.find _ _); reflexivity. Qed.

(** C1, as stated, fails: [markArticleRead] changes the balance of the
    initial account from 1000 to 1050 and appends nothing to the log; so do
    [login] with its bonus (1000 to 1010) and [realizeInvestment] (1000 to
    1400); and [transact] on a log of 200 entries drops the oldest entry, so
    its result is not the input log with one entry appended. *)
Lemma C1_counterexample :
  (balance (markArticleRead "a1" (ofZ 50) initialUser) ≠ balance initialUser
   ∧ ¬ logged initialUser (markArticleRead "a1" (ofZ 50) initialUser))
  ∧ (balance (login (clockOn 100) None fiveDays) ≠ balance fiveDays
     ∧ ¬ logged fiveDays (login (clockOn 100) None fiveDays))
  ∧ (balance (realizeInvestment 1 (ofZ 2) twoPositions) ≠ balance twoPositions
     ∧ ¬ logged twoPositions (realizeInvestment 1 (ofZ 2) twoPositions))
  ∧ (balance (transact sampleClock (ofZ 50) noOpts fullLog) ≠ balance fullLog
     ∧ ¬ logged fullLog (transact sampleClock (ofZ 50) noOpts fullLog)).
Proof.
  assert (Hne : ∀ x y : Qc, Qeq_bool x y = false → x ≠ y).
  { intros x y H ->. rewrite Qeq_bool_refl in H. discriminate. }
  assert (Hlog : ∀ u u', length (transactions u') ≠ S (length (transactions u))
                         → ¬ logged u u').
  { intros u u' H (tx & E & _). apply H. rewrite E, length_app. simpl. lia. }
  repeat split; try (apply Hne; vm_compute; reflexivity);
    apply Hlog; vm_compute; lia.
Qed.

(** C1 (amended): every [transact] call appends exactly one entry, whose
    [balanceAfter] is the resulting balance, and keeps the last 200 entries
    of the log: the new entry is the last one, the result is the input log
    with that entry appended while the input holds fewer than 200 entries,
    and from 200 entries on the oldest entry is dropped. *)
Theorem C1_transact_logs_balance :
  ∀ (c : Clock) (amount : Qc) (o : TxOpts) (u : UserAccount),
    ∃ tx : Tx,
      tx_balanceAfter tx = balance (transact c amount o u)
      ∧ transactions (transact c amount o u)
        = slice_last 200 (transactions u ++ [tx])
      ∧ last (transactions (transact c amount o u)) = Some tx
      ∧ ((length (transactions u) < 200)%nat
         → transactions (transact c amount o u) = transactions u ++ [tx])
      ∧ ((200 ≤ length (transactions u))%nat
         → transactions (transact c amount o u)
           = drop (length (transactions u) - 199) (transactions u) ++ [tx]).
Proof.
  intros c amount o u.
  exists (entry c amount o (balance (transact c amount o u))).
  split; [reflexivity |]. rewrite transact_transactions.
  split; [reflexivity |]. split; [| split].
  - rewrite slice_last_snoc by lia. apply last_snoc.
  - intros H. apply slice_last_short. rewrite length_app. simpl. lia.
  - intros H. rewrite slice_last_snoc by lia. f_equal. f_equal. lia.
Qed.

(** On the initial account the entry is appended to the empty log; on
    a log of 200 entries the log keeps 200 entries. *)
Lemma C1_transact_logs_balance_witness :
  (∃ tx, transactions (transact sampleClock (ofZ 50) noOpts initialUser) = [tx]
         ∧ tx_balanceAfter tx = ofZ 1050)
  ∧ length (transactions (transact sampleClock (ofZ 50) noOpts fullLog))
    = 200%nat.
Proof.
  split.
  - destruct (C1_transact_logs_balance sampleClock (ofZ 50) noOpts initialUser)
      as (tx & Hb & _ & _ & Happ & _).
    exists tx. split; [apply Happ; simpl; lia |].
    rewrite Hb. qc_compute.
  - destruct (C1_transact_logs_balance sampleClock (ofZ 50) noOpts fullLog)
      as (tx & _ & _ & _ & _ & Hfull).
    rewrite Hfull by (vm_compute; lia).
    rewrite length_app, length_drop. vm_compute. reflexivity.
Defined.

(** ** Sequences of [transact] calls *)

Lemma entries_length b calls : length (entries b calls) = length calls.
Proof.
  revert b. induction calls as [|[[c a] o] calls IH]; intros b; simpl;
    [reflexivity | rewrite IH; reflexivity].
Qed.

(** The entry of call number [i] carries the partial sum of the first
    [i + 1] amounts. *)
Lemma entries_lookup b calls (i : nat) c amount o :
  calls !! i = Some (c, amount, o) →
  entries b calls !! i
  = Some (entry c amount o
            (foldl clamped_sum b (call_amount <$> take (S i) calls))).
Proof.
  revert b i. induction calls as [|[[c0 a0] o0] calls IH]; intros b i H.
  - discriminate.
  - destruct i as [|i]; simpl in *.
    + injection H as -> -> ->. destruct calls; reflexivity.
    + apply (IH (clamped_sum b a0)) in H. exact H.
Qed.

Lemma transacts_balance calls u :
  balance (transacts calls u)
  = foldl clamped_sum (balance u) (call_amount <$> calls).
Proof.
  revert u. induction calls as [|[[c a] o] calls IH]; intros u; simpl;
    [reflexivity | apply IH].
Qed.

Lemma transact_transactions_length c amount o u :
  (length (transactions (transact c amount o u)) ≤ 200)%nat.
Proof. rewrite transact_transactions, slice_last_length. lia. Qed.

Lemma transacts_transactions calls u :
  (length (transactions u) ≤ 200)%nat →
  transactions (transacts calls u)
  = slice_last 200 (transactions u ++ entries (balance u) calls).
Proof.
  revert u. induction calls as [|[[c a] o] calls IH]; intros u Hu; simpl.
  - rewrite app_nil_r, slice_last_short; [reflexivity | exact Hu].
  - rewrite IH by apply transact_transactions_length.
    rewrite transact_transactions, transact_balance.
    rewrite slice_last_slice_app, <- app_assoc. reflexivity.
Qed.

(** C2: from an account with an empty log, after the calls [calls] the
    balance is the clamped, rounded partial sum [b -> round2 (max (0, b + a))]
    iterated over the amounts, the log holds [min (N, 200)] entries, and
    they are the entries of the [N] calls with the oldest [N - 200]
    dropped. *)
Theorem C2_transact_sequence :
  ∀ (u : UserAccount) (calls : list Call),
    transactions u = [] →
    balance (transacts calls u)
    = foldl (fun b a => round2 (Math_max 0 (b + a))) (balance u)
            (call_amount <$> calls)
    ∧ length (transactions (transacts calls u))
      = Nat.min (length calls) 200
    ∧ transactions (transacts calls u)
      = drop (length calls - 200) (entries (balance u) calls)
    ∧ (∀ (i : nat) c amount o,
         calls !! (length calls - 200 + i)%nat = Some (c, amount, o) →
         transactions (transacts calls u) !! i
         = Some (entry c amount o
                   (foldl (fun b a => round2 (Math_max 0 (b + a))) (balance u)
                      (call_amount <$>
                         take (S (length calls - 200 + i)) calls)))).
Proof.
  intros u calls Hu. split; [apply transacts_balance |].
  rewrite transacts_transactions by (rewrite Hu; simpl; lia).
  rewrite Hu. simpl. unfold slice_last. rewrite entries_length.
  split; [| split].
  - rewrite length_drop, entries_length. lia.
  - reflexivity.
  - intros i c amount o H. rewrite lookup_drop.
    apply (entries_lookup (balance u)) in H. exact H.
Qed.

(** From the initial 1000 the three calls leave 1430 and three entries,
    the last one with [balanceAfter] 1430. *)
Example end_to_end :
  balance (transacts threeCalls initialUser) = ofZ 1430
  ∧ length (transactions (transacts threeCalls initialUser)) = 3%nat
  ∧ tx_balanceAfter <$> last (transactions (transacts threeCalls initialUser))
    = Some (ofZ 1430).
Proof.
  split; [| split].
  - qc_compute.
  - reflexivity.
  - simpl. f_equal. qc_compute.
Qed.

Lemma C2_transact_sequence_witness :
  balance (transacts threeCalls initialUser)
  = foldl (fun b a => round2 (Math_max 0 (b + a))) (balance initialUser)
          (call_amount <$> threeCalls)
  ∧ length (transactions (transacts threeCalls initialUser))
    = Nat.min (length threeCalls) 200
  ∧ transactions (transacts threeCalls initialUser)
    = drop (length threeCalls - 200) (entries (balance initialUser) threeCalls).
Proof.
  destruct (C2_transact_sequence initialUser threeCalls) as (H1 & H2 & H3 & _);
    [reflexivity | auto].
Defined.

(** ** The balance never goes below zero *)

Lemma transact_balance_nonneg c amount o u :
  0 ≤ balance (transact c amount o u).
Proof. rewrite transact_balance. apply round2_nonneg, Math_max_l. Qed.

Lemma login_balance_nonneg c name u :
  0 ≤ balance u → 0 ≤ balance (login c name u).
Proof.
  intros H. unfold login. repeat case_decide; cbn [balance].
  - exact H.
  - apply round2_nonneg, Qcplus_nonneg_nonneg; [exact H | discriminate].
  - destruct (lastLogin u); [apply Math_max_l | exact H].
Qed.

Lemma apply_op_balance_nonneg op u :
  0 ≤ balance u → credit_nonneg u op → 0 ≤ balance (apply_op op u).
Proof.
  intros Hb Hop.
  destruct op as [c a o|c name|id reward|inv|id m];
    cbn [apply_op credit_nonneg] in *.
  - apply transact_balance_nonneg.
  - apply login_balance_nonneg, Hb.
  - unfold markArticleRead. destruct (isRead u id); [exact Hb |].
    cbn [balance]. apply round2_nonneg, Qcplus_nonneg_nonneg; assumption.
  - exact Hb.
  - unfold realizeInvestment.
    destruct (List.find _ _) as [inv|]; [| exact Hb].
    cbn [balance]. apply round2_nonneg, Qcplus_nonneg_nonneg; [exact Hb |].
    apply round2_nonneg, Hop. reflexivity.
Qed.

Lemma reachable_balance_nonneg u : reachable u → 0 ≤ balance u.
Proof.
  induction 1 as [|u op _ IH Hop].
  - discriminate.
  - apply apply_op_balance_nonneg; assumption.
Qed.

(** C3, as stated, fails: [markArticleRead] and [realizeInvestment] add
    their credit without a clamp, so a reward of -2000 takes the initial
    balance of 1000 to -1000. *)
Lemma C3_counterexample :
  reachable initialUser
  ∧ balance (apply_op (OMarkArticleRead "a1" (ofZ (-2000))) initialUser)
    = ofZ (-1000)
  ∧ balance (apply_op (OMarkArticleRead "a1" (ofZ (-2000))) initialUser) < 0.
Proof.
  split; [apply reachable_init |]. split; [qc_compute |].
  vm_compute. reflexivity.
Qed.

(** C3 (amended): for every account reached from the initial one through
    operations whose credit is not negative, and every such operation
    ([transact] with any amount, [login], [invest], [markArticleRead] with a
    reward of at least zero, [realizeInvestment] when the amount times the
    multiplier of the position found is at least zero), the balance of the
    resulting account is not below zero. *)
Theorem C3_balance_nonneg :
  ∀ (u : UserAccount) (op : Op),
    reachable u → credit_nonneg u op → 0 ≤ balance (apply_op op u).
Proof.
  intros u op Hu Hop.
  apply apply_op_balance_nonneg; [apply reachable_balance_nonneg, Hu | exact Hop].
Qed.

Lemma C3_balance_nonneg_witness :
  0 ≤ balance (apply_op (OTransact sampleClock (ofZ (-5000)) noOpts)
                 (apply_op (OMarkArticleRead "a1" (ofZ 50)) initialUser)).
Proof.
  apply (C3_balance_nonneg
           (apply_op (OMarkArticleRead "a1" (ofZ 50)) initialUser)
           (OTransact sampleClock (ofZ (-5000)) noOpts)).
  - apply (reachable_step initialUser (OMarkArticleRead "a1" (ofZ 50))).
    + apply reachable_init.
    + simpl. discriminate.
  - simpl. exact I.
Defined.

(** ** The balance is an amount in cents *)

Lemma apply_op_balance_cents op u :
  is_cents (balance u) → is_cents (balance (apply_op op u)).
Proof.
  intros H. destruct op as [c a o|c name|id reward|inv|id m]; cbn [apply_op].
  - rewrite transact_balance. auto with ledger.
  - unfold login. repeat case_decide; cbn [balance]; auto with ledger.
    destruct (lastLogin u); auto with ledger.
  - unfold markArticleRead. destruct (isRead u id); cbn [balance];
      auto with ledger.
  - exact H.
  - unfold realizeInvestment. destruct (List.find _ _); cbn [balance];
      auto with ledger.
Qed.

(** Whatever the operations and their arguments, the balance of an
    account reached from the initial one has at most two fractional
    digits. *)
Lemma run_balance_cents ops : is_cents (balance (run ops initialUser)).
Proof.
  unfold run.
  assert (H0 : is_cents (balance initialUser)) by apply ofZ_is_cents.
  revert H0. generalize initialUser.
  induction ops as [|op ops IH]; intros u Hu; simpl; [exact Hu |].
  apply IH, apply_op_balance_cents, Hu.
Qed.

(** ** Article rewards are paid once *)

Lemma markArticleRead_read id reward u :
  isRead u id = true → markArticleRead id reward u = u.
Proof. intros H. unfold markArticleRead. rewrite H. reflexivity. Qed.

Lemma markArticleRead_isRead id reward u :
  isRead (markArticleRead id reward u) id = true.
Proof.
  unfold markArticleRead. destruct (isRead u id) eqn:E; [exact E |].
  unfold isRead. cbn [readArticles]. rewrite lookup_insert_eq. reflexivity.
Qed.

(** C4: [markArticleRead (a, r)] applied twice gives the same account as
    applied once; when [a] was not read yet, the balance after both calls is
    [round2 (balance + r)], the reward being paid once, which is exactly
    [balance + r] when the balance and the reward are amounts in cents; when
    [a] was read already, the account is returned unchanged. *)
Theorem C4_markArticleRead_idempotent :
  ∀ (s : UserAccount) (a : string) (r : Qc),
    markArticleRead a r (markArticleRead a r s) = markArticleRead a r s
    ∧ (isRead s a = false →
       balance (markArticleRead a r s) = round2 (balance s + r)
       ∧ balance (markArticleRead a r (markArticleRead a r s))
         = round2 (balance s + r)
       ∧ (is_cents (balance s) → is_cents r →
          balance (markArticleRead a r (markArticleRead a r s))
          = balance s + r))
    ∧ (isRead s a = true → markArticleRead a r s = s).
Proof.
  intros s a r.
  assert (Hidem : markArticleRead a r (markArticleRead a r s)
                  = markArticleRead a r s)
    by apply markArticleRead_read, markArticleRead_isRead.
  split; [exact Hidem |]. split.
  - intros H. rewrite Hidem. unfold markArticleRead. rewrite H.
    cbn [balance]. split; [reflexivity |]. split; [reflexivity |].
    intros Hb Hr. apply round2_fixed; auto with ledger.
  - apply markArticleRead_read.
Qed.

(** On the initial account the reward of 50 for "a1" is paid once: the
    balance is 1050 after one call and after two. *)
Lemma C4_markArticleRead_idempotent_witness :
  balance (markArticleRead "a1" (ofZ 50) initialUser) = ofZ 1050
  ∧ balance (markArticleRead "a1" (ofZ 50)
               (markArticleRead "a1" (ofZ 50) initialUser)) = ofZ 1050
  ∧ markArticleRead "a1" (ofZ 50) (markArticleRead "a1" (ofZ 50) initialUser)
    = markArticleRead "a1" (ofZ 50) initialUser.
Proof.
  destruct (C4_markArticleRead_idempotent initialUser "a1" (ofZ 50))
    as (H1 & H2 & H3).
  destruct (H2 eq_refl) as (H4 & H5 & _).
  assert (E : round2 (balance initialUser + ofZ 50) = ofZ 1050)
    by qc_compute.
  rewrite H4, H5, E. auto.
Defined.

(** ** The clock and the time zone *)

Lemma Day_back (t n : Z) : Day (t - n * msPerDay) = (Day t - n)%Z.
Proof.
  unfold Day.
  replace (t - n * msPerDay)%Z with (t + - n * msPerDay)%Z by lia.
  rewrite Z.div_add by discriminate. lia.
Qed.

(** In a zone that keeps one offset, going [n] local days back is going
    [n] days back in UTC. *)
Lemma fixed_offset_days (c : Clock) (k n : Z) :
  (∀ t b, LocalTZA c t b = k) →
  Day (setDate_back c n) = (day c - n)%Z.
Proof.
  intros H. unfold setDate_back, UTC, LocalTime, day. rewrite !H.
  rewrite <- Day_back. f_equal. lia.
Qed.

Lemma fixed_offset_steady (c : Clock) (k : Z) :
  (∀ t b, LocalTZA c t b = k) → steady c.
Proof.
  intros H. unfold steady, yesterdayStr, todayStr.
  apply (fixed_offset_days c k 1 H).
Qed.

Lemma clockOn_day (d : Date) : day (clockOn d) = d.
Proof.
  unfold day, Day, clockOn. cbn [Date_now]. apply Z.div_mul. discriminate.
Qed.

Lemma clockOn_days (d n : Z) : Day (setDate_back (clockOn d) n) = (d - n)%Z.
Proof.
  rewrite (fixed_offset_days _ 19800000) by reflexivity.
  rewrite clockOn_day. reflexivity.
Qed.

Lemma clockOn_steady (d : Date) : steady (clockOn d).
Proof. apply (fixed_offset_steady _ 19800000). reflexivity. Qed.

Lemma sampleClock_steady : steady sampleClock.
Proof. apply (fixed_offset_steady _ 19800000). reflexivity. Qed.

(** At 00:30 UTC on 28 October 2024 (day 20024) a clock in the United
    Kingdom is on winter time.  One local day earlier, 00:30 on 27 October,
    summer time was in force, which is 23:30 UTC on 26 October: the date of
    [yesterdayStr ()] is day 20022, two days before the date of
    [todayStr ()]. *)
Lemma london_after_clock_change :
  todayStr (londonClock 1730075400000) = 20024%Z
  ∧ yesterdayStr (londonClock 1730075400000) = 20022%Z.
Proof. split; reflexivity. Qed.

(** At 23:30 UTC on 31 March 2024 (day 19813) the clock is on summer
    time and shows 00:30 on 1 April.  One local day earlier, 00:30 on
    31 March, winter time was in force, which is 00:30 UTC on 31 March: the
    date of [yesterdayStr ()] is the date of [todayStr ()]. *)
Lemma london_before_clock_change :
  todayStr (londonClock 1711927800000) = 19813%Z
  ∧ yesterdayStr (londonClock 1711927800000) = 19813%Z.
Proof. split; reflexivity. Qed.

(** ** Logging in *)

Lemma login_same_day c name u :
  lastLogin u = Some (todayStr c) →
  login c name u
  = {| username := name;
       balance := balance u;
       lastLogin := Some (todayStr c);
       streak := streak u;
       loginDates :=
         slice_last 30 (Set_add (todayStr c) (Set_of (loginDates u)));
       readArticles := readArticles u;
       investments := investments u;
       transactions := transactions u |}.
Proof. intros H. unfold login. rewrite decide_True by exact H. reflexivity. Qed.

(** C6: when [lastLogin] is already today's date, [login] leaves the
    streak and the balance as they were. *)
Theorem C6_login_same_day :
  ∀ (c : Clock) (name : option string) (u : UserAccount),
    lastLogin u = Some (todayStr c) →
    streak (login c name u) = streak u
    ∧ balance (login c name u) = balance u.
Proof.
  intros c name u H. rewrite (login_same_day c name u H). split; reflexivity.
Qed.

Lemma C6_login_same_day_witness :
  streak (login sampleClock (Some "asha"%string)
            (login sampleClock (Some "asha"%string) initialUser))
  = streak (login sampleClock (Some "asha"%string) initialUser)
  ∧ balance (login sampleClock (Some "asha"%string)
               (login sampleClock (Some "asha"%string) initialUser))
    = balance (login sampleClock (Some "asha"%string) initialUser).
Proof.
  apply (C6_login_same_day sampleClock (Some "asha"%string)
           (login sampleClock (Some "asha"%string) initialUser)).
  reflexivity.
Defined.

Lemma login_lastLogin c name u : lastLogin (login c name u) = Some (todayStr c).
Proof. unfold login. repeat case_decide; reflexivity. Qed.

Lemma login_loginDates c name u :
  loginDates (login c name u)
  = slice_last 30 (Set_add (todayStr c) (Set_of (loginDates u))).
Proof. unfold login. repeat case_decide; reflexivity. Qed.

Lemma login_datesOk c name u : datesOk u → datesOk (login c name u).
Proof.
  intros (Hnd & Hlen & _). unfold datesOk.
  rewrite login_lastLogin, login_loginDates.
  rewrite (Set_of_NoDup_id _ Hnd). split; [| split].
  - unfold slice_last.
    eapply sublist_NoDup; [apply Set_add_NoDup, Hnd | apply sublist_drop].
  - rewrite slice_last_length. lia.
  - intros d [= <-]. unfold Set_add. case_decide as Hin.
    + rewrite slice_last_short by exact Hlen. exact Hin.
    + rewrite slice_last_snoc by lia. apply elem_of_app. right.
      apply list_elem_of_singleton. reflexivity.
Qed.

Lemma apply_op_datesOk op u : datesOk u → datesOk (apply_op op u).
Proof.
  intros H. destruct op as [c a o|c name|id reward|inv|id m]; cbn [apply_op].
  - exact H.
  - apply login_datesOk, H.
  - unfold markArticleRead. destruct (isRead u id); exact H.
  - exact H.
  - unfold realizeInvestment. destruct (List.find _ _); exact H.
Qed.

(** The invariant holds in every account that the initial one reaches,
    whatever the operations. *)
Lemma run_datesOk ops : datesOk (run ops initialUser).
Proof.
  unfold run.
  assert (H0 : datesOk initialUser).
  { repeat split; [apply NoDup_nil_2 | simpl; lia | discriminate]. }
  revert H0. generalize initialUser.
  induction ops as [|op ops IH]; intros u Hu; simpl; [exact Hu |].
  apply IH, apply_op_datesOk, Hu.
Qed.

(** C10, as stated, fails: [login] rebuilds [loginDates] from a set with
    today's date added, so on an account whose [lastLogin] is today and whose
    [loginDates] does not hold today's date the array changes. *)
Lemma C10_counterexample :
  lastLogin noDates = Some (todayStr sampleClock)
  ∧ loginDates (login sampleClock (Some "asha"%string) noDates)
    ≠ loginDates noDates.
Proof. split; [reflexivity | discriminate]. Qed.

(** C10 (amended): when [lastLogin] is already today's date and
    [loginDates] holds today's date, no date twice and at most 30 dates (as
    in every account reached from the initial one), [login (name)] sets
    [username] to [name] and leaves [balance], [streak], [lastLogin],
    [loginDates], [readArticles], [investments] and [transactions] unchanged;
    so the call returns the account unchanged exactly when [name] is the
    stored [username]. *)
Theorem C10_login_same_day_frame :
  ∀ (c : Clock) (name : option string) (u : UserAccount),
    lastLogin u = Some (todayStr c) →
    NoDup (loginDates u) →
    (length (loginDates u) ≤ 30)%nat →
    todayStr c ∈ loginDates u →
    username (login c name u) = name
    ∧ balance (login c name u) = balance u
    ∧ streak (login c name u) = streak u
    ∧ lastLogin (login c name u) = lastLogin u
    ∧ loginDates (login c name u) = loginDates u
    ∧ readArticles (login c name u) = readArticles u
    ∧ investments (login c name u) = investments u
    ∧ transactions (login c name u) = transactions u
    ∧ (login c name u = u ↔ name = username u).
Proof.
  intros c name u Hlast Hnd Hlen Hin.
  assert (Hd : slice_last 30 (Set_add (todayStr c) (Set_of (loginDates u)))
               = loginDates u).
  { rewrite (Set_of_NoDup_id _ Hnd), (Set_add_elem _ _ Hin).
    apply slice_last_short, Hlen. }
  rewrite (login_same_day c name u Hlast), Hd. cbn.
  repeat (split; [first [reflexivity | symmetry; exact Hlast] |]).
  split.
  - intros H. apply (f_equal username) in H. exact H.
  - intros ->. rewrite <- Hlast. destruct u; reflexivity.
Qed.

Lemma C10_login_same_day_frame_witness :
  username (login sampleClock (Some "ravi"%string)
              (login sampleClock (Some "asha"%string) initialUser))
  = Some "ravi"%string
  ∧ loginDates (login sampleClock (Some "ravi"%string)
                  (login sampleClock (Some "asha"%string) initialUser))
    = loginDates (login sampleClock (Some "asha"%string) initialUser).
Proof.
  destruct (C10_login_same_day_frame sampleClock (Some "ravi"%string)
              (login sampleClock (Some "asha"%string) initialUser))
    as (H1 & _ & _ & _ & H5 & _).
  - reflexivity.
  - vm_compute. apply NoDup_cons. split; [apply not_elem_of_nil | apply NoDup_nil_2].
  - vm_compute. lia.
  - vm_compute. apply list_elem_of_here.
  - split; assumption.
Defined.

Lemma login_next_day c name u :
  lastLogin u = Some (yesterdayStr c) → yesterdayStr c ≠ todayStr c →
  streak (login c name u) = (or0 (streak u) + 1)%Z
  ∧ balance (login c name u) = round2 (balance u + ofZ 10).
Proof.
  intros H Hne. unfold login.
  rewrite decide_False by (rewrite H; intros [= E]; contradiction).
  rewrite decide_True by exact H. split; reflexivity.
Qed.

Lemma login_after_gap c name u w :
  lastLogin u = Some w → w ≠ todayStr c → w ≠ yesterdayStr c →
  streak (login c name u) = 1%Z
  ∧ balance (login c name u) = Math_max 0 (round2 (balance u - ofZ 20)).
Proof.
  intros H Ht Hy. unfold login. rewrite H.
  rewrite decide_False by congruence.
  rewrite decide_False by congruence. split; reflexivity.
Qed.

(** C5, as stated, fails.  When the recorded previous login is the day
    before [D], the login on [D] continues the streak, and the three calls
    give the streaks 6, 7, 1 instead of 1, 2, 1.  And when the clock changes
    between summer and winter time in the night before [D + 1], the login on
    [D + 1] is taken for a login after a gap: in the United Kingdom, with a
    last login three weeks before, logins at noon UTC on 27 October 2024
    (day 20023), at 00:30 UTC on 28 October and at noon on 30 October give
    the streaks 1, 1, 1, and the second one takes the penalty of 20 where
    10 should be credited. *)
Lemma C5_counterexample :
  (lastLogin fiveDays = Some 99%Z
   ∧ (let u1 := login (clockOn 100) (Some "asha"%string) fiveDays in
      let u2 := login (clockOn 101) (Some "asha"%string) u1 in
      let u3 := login (clockOn 103) (Some "asha"%string) u2 in
      [streak u1; streak u2; streak u3] = [6; 7; 1]%Z
      ∧ [streak u1; streak u2; streak u3] ≠ [1; 2; 1]%Z))
  ∧ (let c1 := londonClock 1730030400000 in
     let c2 := londonClock 1730075400000 in
     let c3 := londonClock 1730289600000 in
     let u1 := login c1 (Some "asha"%string) threeWeeksAgo in
     let u2 := login c2 (Some "asha"%string) u1 in
     let u3 := login c3 (Some "asha"%string) u2 in
     lastLogin threeWeeksAgo = Some 20000%Z
     ∧ [todayStr c1; todayStr c2; todayStr c3] = [20023; 20024; 20026]%Z
     ∧ [streak u1; streak u2; streak u3] = [1; 1; 1]%Z
     ∧ [streak u1; streak u2; streak u3] ≠ [1; 2; 1]%Z
     ∧ balance u1 = ofZ 980
     ∧ balance u2 = ofZ 960
     ∧ balance u2 ≠ balance u1 + ofZ 10).
Proof.
  split.
  - split; [reflexivity |]. split; [reflexivity | discriminate].
  - cbv zeta. split; [reflexivity |]. split; [reflexivity |].
    split; [reflexivity |]. split; [discriminate |].
    assert (B1 : balance (login (londonClock 1730030400000)
                            (Some "asha"%string) threeWeeksAgo) = ofZ 980)
      by qc_compute.
    assert (B2 : balance (login (londonClock 1730075400000)
                            (Some "asha"%string)
                            (login (londonClock 1730030400000)
                               (Some "asha"%string) threeWeeksAgo))
                 = ofZ 960) by qc_compute.
    split; [exact B1 |]. split; [exact B2 |].
    rewrite B1, B2. intros E.
    apply (f_equal (fun q : Qc => Qeq_bool q (ofZ 990))) in E.
    vm_compute in E. discriminate.
Qed.

(** C5 (amended): on an account whose recorded previous login is neither
    day [D] nor the day before [D], and with clocks on which the date of
    [yesterdayStr ()] is the day before the date of [todayStr ()], [login]
    called on [D], then on [D + 1], then on [D + 3] gives the streaks
    1, 2, 1; the call on [D + 1] credits 10 (the balance becomes exactly the
    previous one plus 10), and the call on [D + 3] (like the one on [D])
    takes the penalty of 20 with the result clamped at zero. *)
Theorem C5_login_streak_sequence :
  ∀ (u : UserAccount) (w D : Date) (c1 c2 c3 : Clock)
    (n1 n2 n3 : option string),
    lastLogin u = Some w → w ≠ D → w ≠ (D - 1)%Z →
    todayStr c1 = D → todayStr c2 = (D + 1)%Z → todayStr c3 = (D + 3)%Z →
    steady c1 → steady c2 → steady c3 →
    let u1 := login c1 n1 u in
    let u2 := login c2 n2 u1 in
    let u3 := login c3 n3 u2 in
    streak u1 = 1%Z ∧ streak u2 = 2%Z ∧ streak u3 = 1%Z
    ∧ balance u1 = Math_max 0 (round2 (balance u - ofZ 20))
    ∧ balance u2 = round2 (balance u1 + ofZ 10)
    ∧ balance u3 = Math_max 0 (round2 (balance u2 - ofZ 20))
    ∧ balance u2 = balance u1 + ofZ 10
    ∧ balance u3 = Math_max 0 (balance u2 - ofZ 20)
    ∧ 0 ≤ balance u3.
Proof.
  intros u w D c1 c2 c3 n1 n2 n3 Hw HwD HwD' H1 H2 H3 Y1 Y2 Y3 u1 u2 u3.
  unfold steady in Y1, Y2, Y3.
  destruct (login_after_gap c1 n1 u w Hw) as [S1 B1]; [lia | lia |].
  destruct (login_next_day c2 n2 u1) as [S2 B2].
  { unfold u1. rewrite login_lastLogin. f_equal. lia. }
  { lia. }
  destruct (login_after_gap c3 n3 u2 (todayStr c2)) as [S3 B3];
    [unfold u2; apply login_lastLogin | lia | lia |].
  fold u1 in S1, B1. fold u2 in S2, B2. fold u3 in S3, B3.
  rewrite S1 in S2.
  assert (C1 : is_cents (balance u1)) by (rewrite B1; auto with ledger).
  assert (E2 : balance u2 = balance u1 + ofZ 10)
    by (rewrite B2; apply round2_fixed; auto with ledger).
  assert (C2 : is_cents (balance u2)) by (rewrite E2; auto with ledger).
  assert (E3 : balance u3 = Math_max 0 (balance u2 - ofZ 20))
    by (rewrite B3; f_equal; apply round2_fixed; auto with ledger).
  repeat split; try assumption.
  rewrite B3. apply Math_max_l.
Qed.

Lemma C5_login_streak_sequence_witness :
  let u1 := login (clockOn 100) (Some "asha"%string) fiveDays in
  let u2 := login (clockOn 101) (Some "asha"%string) u1 in
  let u3 := login (clockOn 103) (Some "asha"%string) u2 in
  let v1 := login (clockOn 200) (Some "asha"%string) u3 in
  let v2 := login (clockOn 201) (Some "asha"%string) v1 in
  let v3 := login (clockOn 203) (Some "asha"%string) v2 in
  streak v1 = 1%Z ∧ streak v2 = 2%Z ∧ streak v3 = 1%Z.
Proof.
  intros u1 u2 u3 v1 v2 v3.
  destruct (C5_login_streak_sequence u3 103%Z 200%Z
              (clockOn 200) (clockOn 201) (clockOn 203)
              (Some "asha"%string) (Some "asha"%string) (Some "asha"%string))
    as (H1 & H2 & H3 & _);
    [reflexivity | lia | lia | reflexivity | reflexivity | reflexivity
    | reflexivity | reflexivity | reflexivity |].
  auto.
Defined.

(** ** Realizing an investment *)

Lemma find_none_iff id (invs : list Investment) :
  List.find (fun i => bool_decide (inv_id i = id)) invs = None
  ↔ ∀ inv, inv ∈ invs → inv_id inv ≠ id.
Proof.
  split.
  - intros H inv Hin E. apply list_elem_of_In in Hin.
    apply (find_none _ _ H) in Hin. rewrite bool_decide_eq_false in Hin.
    contradiction.
  - intros H. destruct (List.find _ invs) as [inv|] eqn:E; [| reflexivity].
    apply find_some in E as [Hin E]. rewrite bool_decide_eq_true in E.
    apply list_elem_of_In in Hin. destruct (H inv Hin E).
Qed.

Lemma elem_of_filter_ne id (invs : list Investment) inv :
  inv ∈ List.filter (fun i => negb (bool_decide (inv_id i = id))) invs
  ↔ inv ∈ invs ∧ inv_id inv ≠ id.
Proof.
  rewrite !list_elem_of_In, filter_In, negb_true_iff, bool_decide_eq_false.
  reflexivity.
Qed.

(** C7: when no open position has the id, [realizeInvestment] returns the
    account itself, equal in every field; when one has, the first such
    position [inv] is the one paid out: the balance becomes
    [round2 (balance + round2 (amount * m))], which is the balance plus
    [round2 (amount * m)] when the balance is an amount in cents, the
    positions with that id are removed, the others stay in their order, and
    no other field changes. *)
Theorem C7_realizeInvestment :
  ∀ (s : UserAccount) (i : Z) (m : Qc),
    ((∀ inv, inv ∈ investments s → inv_id inv ≠ i) →
     realizeInvestment i m s = s)
    ∧ ((∃ inv, inv ∈ investments s ∧ inv_id inv = i) →
       ∃ inv,
         List.find (fun p => bool_decide (inv_id p = i)) (investments s)
         = Some inv
         ∧ inv ∈ investments s ∧ inv_id inv = i
         ∧ balance (realizeInvestment i m s)
           = round2 (balance s + round2 (inv_amount inv * m))
         ∧ (is_cents (balance s) →
            balance (realizeInvestment i m s)
            = balance s + round2 (inv_amount inv * m))
         ∧ investments (realizeInvestment i m s)
           = List.filter (fun p => negb (bool_decide (inv_id p = i)))
                         (investments s)
         ∧ (∀ p, p ∈ investments (realizeInvestment i m s)
                 ↔ p ∈ investments s ∧ inv_id p ≠ i)
         ∧ username (realizeInvestment i m s) = username s
         ∧ lastLogin (realizeInvestment i m s) = lastLogin s
         ∧ streak (realizeInvestment i m s) = streak s
         ∧ loginDates (realizeInvestment i m s) = loginDates s
         ∧ readArticles (realizeInvestment i m s) = readArticles s
         ∧ transactions (realizeInvestment i m s) = transactions s).
Proof.
  intros s i m. split.
  - intros H. apply find_none_iff in H. unfold realizeInvestment.
    rewrite H. reflexivity.
  - intros (inv0 & Hin0 & Hid0).
    destruct (List.find (fun p => bool_decide (inv_id p = i)) (investments s))
      as [inv|] eqn:E.
    + exists inv. pose proof (find_some _ _ E) as [Hin Hid].
      apply list_elem_of_In in Hin. rewrite bool_decide_eq_true in Hid.
      unfold realizeInvestment. rewrite E. cbn.
      repeat (split; [first [reflexivity | assumption] |]).
      split; [intros Hc; apply round2_fixed; auto with ledger |].
      split; [reflexivity |].
      split; [| repeat split].
      intros p. apply elem_of_filter_ne.
    + exfalso. rewrite find_none_iff in E. exact (E inv0 Hin0 Hid0).
Qed.

Lemma C7_realizeInvestment_witness :
  realizeInvestment 7 (ofZ 2) twoPositions = twoPositions
  ∧ balance (realizeInvestment 1 (ofZ 2) twoPositions) = ofZ 1400
  ∧ inv_id <$> investments (realizeInvestment 1 (ofZ 2) twoPositions) = [2%Z].
Proof.
  destruct (C7_realizeInvestment twoPositions 7 (ofZ 2)) as [H1 _].
  destruct (C7_realizeInvestment twoPositions 1 (ofZ 2)) as [_ H2].
  split; [| split].
  - apply H1. intros inv Hin.
    apply list_elem_of_In in Hin. simpl in Hin.
    destruct Hin as [<-|[<-|[]]]; simpl; lia.
  - destruct H2 as (inv & Hf & _ & _ & Hb & _).
    + eexists. split; [apply list_elem_of_here | reflexivity].
    + injection Hf as <-. rewrite Hb. qc_compute.
  - reflexivity.
Defined.

(** ** The habit streak *)

Module HabitFacts.
Import Habit.

Lemma fires_true c ts s :
  fires c ts s = true ↔ allDone ts = true ∧ lastDate s ≠ Some (today c).
Proof.
  unfold fires. rewrite andb_true_iff, negb_true_iff, bool_decide_eq_false.
  reflexivity.
Qed.

Lemma advance_lastDate c s : lastDate (advance c s) = Some (today c).
Proof. reflexivity. Qed.

(** Once the streak carries today's date the effect leaves it alone. *)
Lemma effect_done c ts s :
  lastDate s = Some (today c) → effect c ts s = s.
Proof.
  intros H. unfold effect, fires.
  rewrite (bool_decide_eq_true_2 _ H), andb_false_r. reflexivity.
Qed.

(** On a day whose date the streak already carries, no sequence of
    clicks fires the transition or changes the streak. *)
Lemma toggles_done d evs h :
  (∀ c i, (c, i) ∈ evs → today c = d) →
  lastDate (streak h) = Some d →
  snd (toggles evs h) = 0%nat ∧ streak (fst (toggles evs h)) = streak h.
Proof.
  revert h. induction evs as [|[c i] evs IH]; intros h Hd Hl; simpl.
  - split; reflexivity.
  - assert (Hc : today c = d) by (apply (Hd c i); left).
    assert (Hf : fires c (toggle i (tasks h)) (streak h) = false).
    { unfold fires. rewrite Hc, (bool_decide_eq_true_2 _ Hl).
      apply andb_false_r. }
    assert (Hs : streak (toggleTask c i h) = streak h).
    { unfold toggleTask. cbn [streak]. apply effect_done.
      rewrite Hc. exact Hl. }
    destruct (IH (toggleTask c i h)) as [IH1 IH2].
    + intros c' i' Hin. apply (Hd c' i'). right. exact Hin.
    + rewrite Hs. exact Hl.
    + rewrite Hf. destruct (toggles evs (toggleTask c i h)) as [h' k].
      simpl in *. split; [exact IH1 | rewrite IH2; exact Hs].
Qed.

(** The clicks of one calendar day fire the transition at most once. *)
Lemma toggles_once d evs h :
  (∀ c i, (c, i) ∈ evs → today c = d) → (snd (toggles evs h) ≤ 1)%nat.
Proof.
  revert h. induction evs as [|[c i] evs IH]; intros h Hd; simpl; [lia |].
  assert (Hc : today c = d) by (apply (Hd c i); left).
  assert (Hd' : ∀ c' i', (c', i') ∈ evs → today c' = d)
    by (intros c' i' Hin; apply (Hd c' i'); right; exact Hin).
  destruct (fires c (toggle i (tasks h)) (streak h)) eqn:Hf.
  - destruct (toggles_done d evs (toggleTask c i h) Hd') as [H0 _].
    + unfold toggleTask, effect. cbn [streak]. rewrite Hf.
      rewrite advance_lastDate, Hc. reflexivity.
    + destruct (toggles evs (toggleTask c i h)) as [h' k].
      simpl in *. lia.
  - specialize (IH (toggleTask c i h) Hd').
    destruct (toggles evs (toggleTask c i h)) as [h' k]. simpl in *. lia.
Qed.

End HabitFacts.

(** When a [toggleTask] call leaves every task done while the streak's
    [lastDate] is not today, the streak stored is: [current + 1] if
    [lastDate] is the date of [getYesterday ()] and 1 otherwise, [best] the
    larger of the old [best] and the new [current], [lastDate] today, and
    [history] with today appended.  On a clock on which the date of
    [getYesterday ()] is the day before today, that is [current + 1] exactly
    when [lastDate] is the day before today.  Over any sequence of clicks of
    one calendar day the transition fires at most once, and once it has
    fired the streak stays as stored. *)
Lemma habit_streak_transition :
  ∀ (h : Habit.HabitState),
    (∀ (c : Clock) (i : Z),
       Habit.allDone (Habit.toggle i (Habit.tasks h)) = true →
       Habit.lastDate (Habit.streak h) ≠ Some (Habit.today c) →
       let s := Habit.streak h in
       let s' := Habit.streak (Habit.toggleTask c i h) in
       Habit.current s'
       = (if decide (Habit.lastDate s = Some (Habit.getYesterday c))
          then Habit.current s + 1 else 1)%Z
       ∧ (steady c →
          Habit.current s'
          = (if decide (Habit.lastDate s = Some (Habit.today c - 1)%Z)
             then Habit.current s + 1 else 1)%Z)
       ∧ Habit.best s' = Z.max (Habit.best s) (Habit.current s')
       ∧ Habit.lastDate s' = Some (Habit.today c)
       ∧ Habit.history s' = Habit.history s ++ [Habit.today c])
    ∧ (∀ (d : Date) (evs : list (Clock * Z)),
         (∀ c i, (c, i) ∈ evs → Habit.today c = d) →
         (snd (Habit.toggles evs h) ≤ 1)%nat
         ∧ (Habit.lastDate (Habit.streak h) = Some d →
            snd (Habit.toggles evs h) = 0%nat
            ∧ Habit.streak (fst (Habit.toggles evs h)) = Habit.streak h)).
Proof.
  intros h. split.
  - intros c i Hall Hlast s s'.
    assert (Hf : Habit.fires c (Habit.toggle i (Habit.tasks h)) s = true)
      by (apply HabitFacts.fires_true; split; assumption).
    assert (E : Habit.current s'
                = (if decide (Habit.lastDate s = Some (Habit.getYesterday c))
                   then Habit.current s + 1 else 1)%Z).
    { unfold s', Habit.toggleTask, Habit.effect. cbn [Habit.streak].
      fold s. rewrite Hf. reflexivity. }
    split; [exact E |]. split.
    { intros Hc. rewrite E. unfold steady, yesterdayStr, todayStr in Hc.
      unfold Habit.getYesterday, Habit.today. rewrite Hc. reflexivity. }
    unfold s', Habit.toggleTask, Habit.effect. cbn [Habit.streak].
    fold s. rewrite Hf. unfold Habit.advance.
    cbn. repeat split. apply Z.max_comm.
  - intros d evs Hd. split.
    + apply (HabitFacts.toggles_once d), Hd.
    + intros Hl. apply (HabitFacts.toggles_done d); assumption.
Qed.

(** Clicking the third task on day 100 completes the day; the further
    clicks of that day fire nothing more. *)
Lemma habit_streak_transition_example :
  Habit.streak (Habit.toggleTask (clockOn 100) 3 lastTaskOpen)
  = {| Habit.current := 5; Habit.best := 9;
       Habit.lastDate := Some 100%Z;
       Habit.history := [96; 97; 98; 99; 100]%Z |}
  ∧ (snd (Habit.toggles
            [(clockOn 100%Z, 3%Z); (clockOn 100%Z, 3%Z); (clockOn 100%Z, 3%Z)]
            lastTaskOpen) ≤ 1)%nat.
Proof.
  destruct (habit_streak_transition lastTaskOpen) as [H1 H2].
  specialize (H1 (clockOn 100) 3%Z eq_refl).
  destruct H1 as (_ & E1 & E2 & E3 & E4); [discriminate |].
  specialize (E1 (clockOn_steady 100)).
  split.
  - destruct (Habit.streak (Habit.toggleTask (clockOn 100) 3 lastTaskOpen))
      as [cur bst ld hist].
    cbn in E1, E2, E3, E4. subst. reflexivity.
  - apply (H2 100%Z).
    intros c i Hin. apply list_elem_of_In in Hin. simpl in Hin.
    destruct Hin as [[= <- _]|[[= <- _]|[[= <- _]|[]]]]; reflexivity.
Qed.

(** C8: at a change of the clock the code does not advance the streak by
    the rule that it is meant to follow.  In the United Kingdom at 00:30 UTC
    on 28 October 2024 (day 20024), with a streak of four days whose
    [lastDate] is 27 October, the day before today, the click that completes
    the tasks stores [current] 1 and not [current + 1], because
    [getYesterday ()] returns 26 October; [best], [lastDate] and [history]
    are stored as they should be. *)
Theorem C8_habit_streak_at_clock_change :
  let c := londonClock 1730075400000 in
  let s := Habit.streak lastTaskOpenLondon in
  let s' := Habit.streak (Habit.toggleTask c 3 lastTaskOpenLondon) in
  Habit.allDone (Habit.toggle 3 (Habit.tasks lastTaskOpenLondon)) = true
  ∧ Habit.today c = 20024%Z
  ∧ Habit.lastDate s = Some (Habit.today c - 1)%Z
  ∧ Habit.getYesterday c = (Habit.today c - 2)%Z
  ∧ Habit.current s = 4%Z
  ∧ Habit.current s' = 1%Z
  ∧ Habit.current s' ≠ (Habit.current s + 1)%Z
  ∧ Habit.best s' = Z.max (Habit.best s) (Habit.current s')
  ∧ Habit.lastDate s' = Some (Habit.today c)
  ∧ Habit.history s' = Habit.history s ++ [Habit.today c].
Proof.
  cbv zeta. repeat split; try reflexivity. discriminate.
Qed.

(** * Further arithmetic of [round2] *)

Lemma Qcdiv_100_le (x y : Qc) : x ≤ y → x / ofZ 100 ≤ y / ofZ 100.
Proof.
  intros H. unfold Qcdiv. apply Qcmult_le_compat_r; [exact H | discriminate].
Qed.

Lemma Math_round_le (x y : Qc) : x ≤ y → (Math_round x ≤ Math_round y)%Z.
Proof.
  intros H. unfold Math_round. apply Qfloor_resp_le.
  apply Qplus_le_compat; [exact H | apply Qle_refl].
Qed.

(** [round2] keeps the order of amounts. *)
Lemma round2_le (x y : Qc) : x ≤ y → round2 x ≤ round2 y.
Proof.
  intros H. unfold round2. apply Qcdiv_100_le, ofZ_le, Math_round_le.
  apply Qcmult_le_compat_r; [exact H | discriminate].
Qed.

Lemma ofZ_Math_round_le (x : Qc) : ofZ (Math_round x) ≤ x + Q2Qc (1 # 2).
Proof.
  unfold Math_round, ofZ, Qcle. cbn [this Q2Qc Qcplus].
  rewrite !Qred_correct. apply Qfloor_le.
Qed.

Lemma ofZ_Math_round_gt (x : Qc) : x - Q2Qc (1 # 2) < ofZ (Math_round x).
Proof.
  unfold Math_round, ofZ, Qclt. cbn [this Q2Qc Qcminus Qcplus Qcopp].
  rewrite !Qred_correct.
  pose proof (Qlt_floor (this x + (1 # 2))) as H.
  rewrite inject_Z_plus in H.
  apply (Qplus_lt_l _ _ (1 # 1)). 
  eapply Qle_lt_trans; [| exact H].
  ring_simplify. apply Qle_refl.
Qed.

Lemma half_cent : Q2Qc (1 # 2) / ofZ 100 = Q2Qc (1 # 200).
Proof. qc_compute. Qed.

(** [round2] moves an amount by at most half a cent. *)
Lemma round2_close (x : Qc) :
  x - Q2Qc (1 # 200) ≤ round2 x ∧ round2 x ≤ x + Q2Qc (1 # 200).
Proof.
  unfold round2. rewrite <- half_cent. split.
  - replace (x - Q2Qc (1 # 2) / ofZ 100)
      with ((x * ofZ 100 - Q2Qc (1 # 2)) / ofZ 100) by (field; discriminate).
    apply Qcdiv_100_le, Qclt_le_weak, ofZ_Math_round_gt.
  - replace (x + Q2Qc (1 # 2) / ofZ 100)
      with ((x * ofZ 100 + Q2Qc (1 # 2)) / ofZ 100) by (field; discriminate).
    apply Qcdiv_100_le, ofZ_Math_round_le.
Qed.

(** Inequalities between canonical rationals are inequalities between
    the rationals that they stand for, where linear arithmetic decides. *)
Ltac qc_to_q :=
  unfold Qcle, Qclt in *;
  cbn [this Q2Qc Qcplus Qcmult Qcminus Qcopp ofZ] in *;
  rewrite ?Qred_correct in *;
  unfold inject_Z in *.

Lemma Math_max_le (a x y : Qc) : x ≤ y → Math_max a x ≤ Math_max a y.
Proof.
  intros H. unfold Math_max.
  destruct (Qclt_le_dec a x) as [Hx|Hx], (Qclt_le_dec a y) as [Hy|Hy].
  - exact H.
  - apply (Qcle_trans _ y); assumption.
  - apply Qclt_le_weak, Hy.
  - apply Qcle_refl.
Qed.

(** The element appended last is found at the old length. *)
Lemma lookup_snoc_last {A} (l : list A) (x : A) :
  (l ++ [x]) !! length l = Some x.
Proof. rewrite lookup_app_r by lia. rewrite Nat.sub_diag. reflexivity. Qed.

(** * Further properties of the ledger *)

(** A property that every operation keeps holds after every sequence of
    operations. *)
Lemma run_preserves (P : UserAccount → Prop) :
  (∀ op u, P u → P (apply_op op u)) →
  ∀ ops u, P u → P (run ops u).
Proof.
  intros Hstep ops. unfold run.
  induction ops as [|op ops IH]; intros u Hu; simpl; [exact Hu |].
  apply IH, Hstep, Hu.
Qed.

Lemma run_app ops1 ops2 u : run (ops1 ++ ops2) u = run ops2 (run ops1 u).
Proof. unfold run. apply foldl_app. Qed.

Lemma apply_op_transactions op u :
  transactions (apply_op op u) = transactions u
  ∨ ∃ c amount o, op = OTransact c amount o.
Proof.
  destruct op as [c a o|c name|id reward|inv|id m]; cbn [apply_op].
  - right. eauto.
  - left. apply login_transactions.
  - left. apply markArticleRead_transactions.
  - left. reflexivity.
  - left. apply realizeInvestment_transactions.
Qed.

Lemma entry_entry_ok c amount o b :
  0 ≤ b → is_cents b → entry_ok (entry c amount o b).
Proof. intros H1 H2. repeat split; cbn; auto with ledger. Qed.

Lemma apply_op_log_ok op u :
  (length (transactions u) ≤ 200)%nat ∧ Forall entry_ok (transactions u) →
  (length (transactions (apply_op op u)) ≤ 200)%nat
  ∧ Forall entry_ok (transactions (apply_op op u)).
Proof.
  intros [Hlen Hok].
  destruct (apply_op_transactions op u) as [-> | (c & a & o & ->)];
    [split; assumption |].
  cbn [apply_op]. split; [apply transact_transactions_length |].
  rewrite transact_transactions. unfold slice_last.
  apply Forall_drop, Forall_app. split; [exact Hok |].
  apply Forall_singleton, entry_entry_ok.
  - apply transact_balance_nonneg.
  - rewrite transact_balance. auto with ledger.
Qed.

(** X1: whatever operations are applied to the initial account, and with
    whatever arguments, the log never holds more than 200 entries, and every
    entry in it has a [balanceAfter] that is not negative and an [amount] and
    a [balanceAfter] with at most two fractional digits. *)
Theorem X1_log_invariant :
  ∀ ops : list Op,
    (length (transactions (run ops initialUser)) ≤ 200)%nat
    ∧ Forall entry_ok (transactions (run ops initialUser)).
Proof.
  intros ops.
  apply (run_preserves
           (fun u => (length (transactions u) ≤ 200)%nat
                     ∧ Forall entry_ok (transactions u))).
  - apply apply_op_log_ok.
  - split; [simpl; lia | apply Forall_nil_2].
Qed.

(** X2: whatever operations are applied, and with whatever amounts,
    rewards and multipliers, a balance with at most two fractional digits
    stays one; so the balance of every account reached from the initial one
    is a whole number of hundredths. *)
Theorem X2_balance_in_cents :
  ∀ (ops : list Op) (u : UserAccount),
    is_cents (balance u) → is_cents (balance (run ops u)).
Proof.
  intros ops. apply (run_preserves (fun u => is_cents (balance u))).
  intros op u. apply apply_op_balance_cents.
Qed.

Lemma X2_balance_in_cents_witness :
  is_cents (balance (run [OMarkArticleRead "a1" (Q2Qc (1 # 3));
                          OTransact sampleClock (Q2Qc (-22 # 7)) noOpts]
                         initialUser)).
Proof.
  apply (X2_balance_in_cents
           [OMarkArticleRead "a1" (Q2Qc (1 # 3));
            OTransact sampleClock (Q2Qc (-22 # 7)) noOpts] initialUser).
  exists 100000%Z. qc_compute.
Defined.

(** ** Logins *)

Lemma or0_id (x : Z) : or0 x = x.
Proof. unfold or0. destruct (Z.eqb_spec x 0); congruence. Qed.

Lemma login_streak_pos c name u :
  (∀ d, lastLogin u = Some d → (1 ≤ streak u)%Z) →
  (1 ≤ streak (login c name u))%Z.
Proof.
  intros H. unfold login.
  destruct (decide (lastLogin u = Some (todayStr c))) as [E|_];
    [exact (H _ E) |].
  destruct (decide (lastLogin u = Some (yesterdayStr c))) as [E|_].
  - cbn [streak]. rewrite or0_id. specialize (H _ E). lia.
  - cbn [streak]. lia.
Qed.

(** What the operations other than [login] leave alone. *)
Lemma apply_op_login_frame op u :
  (∃ c name, op = OLogin c name)
  ∨ (lastLogin (apply_op op u) = lastLogin u
     ∧ streak (apply_op op u) = streak u
     ∧ loginDates (apply_op op u) = loginDates u
     ∧ username (apply_op op u) = username u).
Proof.
  destruct op as [c a o|c name|id reward|inv|id m]; cbn [apply_op].
  - right. repeat split.
  - left. eauto.
  - right. unfold markArticleRead. destruct (isRead u id); repeat split.
  - right. repeat split.
  - right. unfold realizeInvestment. destruct (List.find _ _); repeat split.
Qed.

Lemma apply_op_loginOk op u : loginOk u → loginOk (apply_op op u).
Proof.
  intros (Hd & Hnone & Hsome). split; [apply apply_op_datesOk, Hd |].
  destruct (apply_op_login_frame op u) as [(c & name & ->) | (E1 & E2 & E3 & _)].
  - cbn [apply_op]. rewrite login_lastLogin. split; [discriminate |].
    intros _ _. apply login_streak_pos, Hsome.
  - rewrite E1, E2, E3. split; assumption.
Qed.

(** X3: in every account reached from the initial one, [loginDates] holds
    no date twice and at most 30 dates; once a login is recorded its date is
    among them and the streak is at least 1; before the first login the
    streak is 0 and there are no dates. *)
Theorem X3_login_fields_invariant :
  ∀ ops : list Op,
    let u := run ops initialUser in
    NoDup (loginDates u)
    ∧ (length (loginDates u) ≤ 30)%nat
    ∧ (∀ d, lastLogin u = Some d → d ∈ loginDates u ∧ (1 ≤ streak u)%Z)
    ∧ (lastLogin u = None → streak u = 0%Z ∧ loginDates u = []).
Proof.
  intros ops u.
  assert (H : loginOk u).
  { apply (run_preserves loginOk); [apply apply_op_loginOk |].
    repeat split; try discriminate; [apply NoDup_nil_2 | simpl; lia]. }
  destruct H as ((H1 & H2 & H3) & H4 & H5).
  split; [exact H1 |]. split; [exact H2 |]. split; [| exact H4].
  intros d Hd. split; [apply H3, Hd | apply (H5 d), Hd].
Qed.

Lemma logins_cons c name evs u :
  logins ((c, name) :: evs) u = logins evs (login c name u).
Proof. reflexivity. Qed.

(** X4: logging in on each of [n] days in a row, the first of them the
    day after the recorded last login, with clocks on which the date of
    [yesterdayStr ()] is the day before the date of [todayStr ()], raises
    the streak by [n] and the balance (an amount in cents) by exactly 10 per
    day, without a penalty. *)
Theorem X4_daily_logins :
  ∀ (evs : list (Clock * option string)) (u : UserAccount) (D : Date),
    lastLogin u = Some (D - 1)%Z →
    is_cents (balance u) →
    (∀ (i : nat) c name, evs !! i = Some (c, name) →
                         todayStr c = (D + Z.of_nat i)%Z ∧ steady c) →
    streak (logins evs u) = (streak u + Z.of_nat (length evs))%Z
    ∧ balance (logins evs u) = balance u + ofZ (10 * Z.of_nat (length evs))
    ∧ lastLogin (logins evs u) = Some (D - 1 + Z.of_nat (length evs))%Z.
Proof.
  induction evs as [|[c name] evs IH]; intros u D Hlast Hc Hday.
  - cbn [logins foldl length Z.of_nat]. rewrite Z.mul_0_r, !Z.add_0_r.
    repeat split; [| exact Hlast]. rewrite ofZ_0. ring.
  - rewrite logins_cons.
    destruct (Hday 0%nat c name eq_refl) as [Hc0 Hy]. unfold steady in Hy.
    assert (Hc0' : todayStr c = D) by lia.
    destruct (login_next_day c name u) as [S1 B1].
    { rewrite Hlast. f_equal. lia. }
    { lia. }
    assert (B1' : balance (login c name u) = balance u + ofZ 10)
      by (rewrite B1; apply round2_fixed; auto with ledger).
    destruct (IH (login c name u) (D + 1)%Z) as (S2 & B2 & L2).
    + rewrite login_lastLogin, Hc0'. f_equal. lia.
    + rewrite B1'. auto with ledger.
    + intros i c' name' H. destruct (Hday (S i) c' name' H) as [E Y].
      split; [rewrite E; lia | exact Y].
    + rewrite S2, B2, L2, S1, B1', or0_id. cbn [length].
      repeat split; [lia | | f_equal; lia].
      rewrite <- Qcplus_assoc, <- ofZ_plus. do 2 f_equal. lia.
Qed.

(** A week of logins after the five days of [fiveDays]. *)
Lemma X4_daily_logins_witness :
  streak (logins ((fun d => (clockOn d, Some "asha"%string))
                    <$> [100; 101; 102; 103; 104; 105; 106]%Z) fiveDays)
  = 12%Z
  ∧ balance (logins ((fun d => (clockOn d, Some "asha"%string))
                       <$> [100; 101; 102; 103; 104; 105; 106]%Z) fiveDays)
    = ofZ 1070.
Proof.
  destruct (X4_daily_logins
              ((fun d => (clockOn d, Some "asha"%string))
                 <$> [100; 101; 102; 103; 104; 105; 106]%Z)
              fiveDays 100%Z) as (H1 & H2 & _).
  - reflexivity.
  - exists 100000%Z. qc_compute.
  - intros i c name H.
    do 7 (destruct i as [|i];
          [injection H as <- _; split; reflexivity |]).
    discriminate.
  - rewrite H1, H2. split; [reflexivity | qc_compute].
Defined.

(** ** Articles stay read *)

Lemma apply_op_isRead op u a :
  isRead u a = true → isRead (apply_op op u) a = true.
Proof.
  intros H. destruct op as [c x o|c name|id reward|inv|id m]; cbn [apply_op].
  - exact H.
  - unfold login. repeat case_decide; exact H.
  - unfold markArticleRead. destruct (isRead u id) eqn:E; [exact H |].
    unfold isRead in *. cbn [readArticles].
    destruct (decide (id = a)) as [->|Hne].
    + rewrite lookup_insert_eq. reflexivity.
    + rewrite lookup_insert_ne by exact Hne. exact H.
  - exact H.
  - unfold realizeInvestment. destruct (List.find _ _); exact H.
Qed.

(** X5: an article that is read stays read through every sequence of
    operations, so [markArticleRead] for it is without effect for ever
    after: the reward of an article is paid at most once. *)
Theorem X5_read_is_irreversible :
  ∀ (ops : list Op) (u : UserAccount) (a : string) (r r' : Qc),
    (isRead u a = true →
     isRead (run ops u) a = true
     ∧ markArticleRead a r (run ops u) = run ops u)
    ∧ markArticleRead a r' (run ops (markArticleRead a r u))
      = run ops (markArticleRead a r u).
Proof.
  intros ops u a r r'.
  assert (H : ∀ v, isRead v a = true → isRead (run ops v) a = true).
  { intros v. apply (run_preserves (fun v => isRead v a = true)).
    intros op w. apply apply_op_isRead. }
  split.
  - intros Hr. split; [apply H, Hr | apply markArticleRead_read, H, Hr].
  - apply markArticleRead_read, H, markArticleRead_isRead.
Qed.

Lemma X5_read_is_irreversible_witness :
  balance (markArticleRead "a1" (ofZ 50)
             (run [OTransact sampleClock (ofZ (-30)) noOpts;
                   OMarkArticleRead "a2" (ofZ 40)]
                (markArticleRead "a1" (ofZ 50) initialUser)))
  = ofZ 1060.
Proof.
  destruct (X5_read_is_irreversible
              [OTransact sampleClock (ofZ (-30)) noOpts;
               OMarkArticleRead "a2" (ofZ 40)]
              initialUser "a1" (ofZ 50) (ofZ 50)) as [_ H].
  rewrite H. qc_compute.
Defined.

(** ** Spending and earning *)

Lemma Math_max_0_nonneg (x : Qc) : 0 ≤ x → Math_max 0 x = x.
Proof.
  intros H. unfold Math_max. destruct (Qclt_le_dec 0 x) as [_|H'];
    [reflexivity | apply Qcle_antisym; assumption].
Qed.

Lemma Math_max_0_nonpos (x : Qc) : x ≤ 0 → Math_max 0 x = 0.
Proof.
  intros H. unfold Math_max. destruct (Qclt_le_dec 0 x) as [H'|_];
    [| reflexivity].
  destruct (Qcle_not_lt _ _ H H').
Qed.

Lemma round2_0 : round2 0 = 0.
Proof. apply round2_fixed, zero_is_cents. Qed.

(** A covered amount in cents goes through [transact] unclamped and
    unrounded. *)
Lemma transact_exact c amount o u :
  is_cents (balance u) → is_cents amount → 0 ≤ balance u + amount →
  balance (transact c amount o u) = balance u + amount.
Proof.
  intros Hb Ha Hpos. rewrite transact_balance, Math_max_0_nonneg by exact Hpos.
  apply round2_fixed. auto with ledger.
Qed.

Lemma transacts_cons c amount o calls u :
  transacts ((c, amount, o) :: calls) u = transacts calls (transact c amount o u).
Proof. reflexivity. Qed.

(** X6: when the balance and the amounts are in cents and no partial sum
    goes below zero (every spend is covered), the clamp and the rounding of
    [transact] are invisible: the final balance is the starting balance plus
    the sum of the amounts. *)
Theorem X6_covered_transactions_add_up :
  ∀ (calls : list Call) (u : UserAccount),
    is_cents (balance u) →
    Forall is_cents (call_amount <$> calls) →
    (∀ k : nat, 0 ≤ balance u + total (take k (call_amount <$> calls))) →
    balance (transacts calls u) = balance u + total (call_amount <$> calls).
Proof.
  induction calls as [|[[c a] o] calls IH]; intros u Hb Ha Hk.
  - simpl. ring.
  - rewrite transacts_cons. cbn [fmap list_fmap call_amount fst snd total foldr] in *.
    apply Forall_cons in Ha as [Ha Has].
    assert (H1 : 0 ≤ balance u + a).
    { specialize (Hk 1%nat). cbn in Hk. rewrite take_0 in Hk. cbn in Hk.
      replace (balance u + a) with (balance u + (a + 0)) by ring. exact Hk. }
    assert (E : balance (transact c a o u) = balance u + a)
      by (apply transact_exact; assumption).
    rewrite IH.
    + rewrite E. fold (total (call_amount <$> calls)). ring.
    + rewrite E. auto with ledger.
    + exact Has.
    + intros k. rewrite E. specialize (Hk (S k)). cbn in Hk.
      fold (total (take k (call_amount <$> calls))) in Hk.
      replace (balance u + a + total (take k (call_amount <$> calls)))
        with (balance u + (a + total (take k (call_amount <$> calls))))
        by ring.
      exact Hk.
Qed.

Lemma X6_covered_transactions_add_up_witness :
  balance (transacts threeCalls initialUser)
  = balance initialUser + total [ofZ (-50); ofZ 500; ofZ (-20)].
Proof.
  apply (X6_covered_transactions_add_up threeCalls initialUser).
  - apply ofZ_is_cents.
  - repeat constructor; apply ofZ_is_cents.
  - intros k. do 4 (destruct k as [|k]; [vm_compute; discriminate |]).
    vm_compute. discriminate.
Defined.

(** X7: [transact] never refuses a spend: an amount that exceeds the
    balance leaves the balance at zero, the entry still records the full
    amount asked for, and the uncovered part is forgotten, a later deposit
    counting in full. *)
Theorem X7_overdraft_is_forgiven :
  ∀ (c c' : Clock) (amount deposit : Qc) (o o' : TxOpts) (u : UserAccount),
    balance u + amount ≤ 0 →
    balance (transact c amount o u) = 0
    ∧ last (transactions (transact c amount o u))
      = Some (entry c amount o 0)
    ∧ (is_cents deposit → 0 ≤ deposit →
       balance (transact c' deposit o' (transact c amount o u)) = deposit).
Proof.
  intros c c' amount deposit o o' u H.
  assert (E : balance (transact c amount o u) = 0)
    by (rewrite transact_balance, Math_max_0_nonpos by exact H; apply round2_0).
  split; [exact E |]. split.
  - rewrite transact_transactions, E, slice_last_snoc by lia. apply last_snoc.
  - intros Hd Hpos. rewrite transact_exact; rewrite ?E.
    + ring.
    + apply zero_is_cents.
    + exact Hd.
    + replace (0 + deposit) with deposit by ring. exact Hpos.
Qed.

Lemma X7_overdraft_is_forgiven_witness :
  balance (transact sampleClock (ofZ (-5000)) noOpts initialUser) = 0
  ∧ balance (transact sampleClock (ofZ 30) noOpts
               (transact sampleClock (ofZ (-5000)) noOpts initialUser))
    = ofZ 30.
Proof.
  destruct (X7_overdraft_is_forgiven sampleClock sampleClock (ofZ (-5000))
              (ofZ 30) noOpts noOpts initialUser) as (H1 & _ & H3).
  - vm_compute. discriminate.
  - split; [exact H1 | apply H3; [apply ofZ_is_cents | vm_compute; discriminate]].
Defined.

(** ** Opening and closing positions *)

Lemma find_id_fresh_snoc id (invs : list Investment) p rest :
  (∀ q, q ∈ invs → inv_id q ≠ id) → inv_id p = id →
  List.find (fun i => bool_decide (inv_id i = id)) (invs ++ p :: rest) = Some p.
Proof.
  intros Hfresh Hp. induction invs as [|q invs IH]; simpl.
  - rewrite bool_decide_eq_true_2 by exact Hp. reflexivity.
  - rewrite bool_decide_eq_false_2 by (apply Hfresh; left).
    apply IH. intros q' Hq'. apply Hfresh. right. exact Hq'.
Qed.

Lemma filter_id_fresh id (invs : list Investment) :
  (∀ q, q ∈ invs → inv_id q ≠ id) →
  List.filter (fun i => negb (bool_decide (inv_id i = id))) invs = invs.
Proof.
  intros Hfresh. induction invs as [|q invs IH]; simpl; [reflexivity |].
  rewrite bool_decide_eq_false_2 by (apply Hfresh; left). simpl.
  f_equal. apply IH. intros q' Hq'. apply Hfresh. right. exact Hq'.
Qed.

Lemma filter_id_all id (ps : list Investment) :
  Forall (fun p => inv_id p = id) ps →
  List.filter (fun i => negb (bool_decide (inv_id i = id))) ps = [].
Proof.
  induction 1 as [|p ps Hp _ IH]; simpl; [reflexivity |].
  rewrite bool_decide_eq_true_2 by exact Hp. exact IH.
Qed.

(** X8: opening a position under an id that no open position has and
    then realizing that id closes the round trip: the positions are those
    of before, the balance is credited with [round2 (amount * multiplier)],
    and nothing else has changed. *)
Theorem X8_invest_then_realize :
  ∀ (u : UserAccount) (p : Investment) (m : Qc),
    (∀ q, q ∈ investments u → inv_id q ≠ inv_id p) →
    realizeInvestment (inv_id p) m (invest p u)
    = {| username := username u;
         balance := round2 (balance u + round2 (inv_amount p * m));
         lastLogin := lastLogin u;
         streak := streak u;
         loginDates := loginDates u;
         readArticles := readArticles u;
         investments := investments u;
         transactions := transactions u |}.
Proof.
  intros u p m Hfresh. unfold realizeInvestment, invest. cbn.
  rewrite (find_id_fresh_snoc (inv_id p) (investments u) p []) by auto.
  rewrite List.filter_app, (filter_id_fresh _ _ Hfresh). cbn.
  rewrite bool_decide_eq_true_2 by reflexivity. cbn.
  rewrite app_nil_r. reflexivity.
Qed.

Lemma X8_invest_then_realize_witness :
  investments
    (realizeInvestment 3 (Q2Qc (3 # 2))
       (invest {| inv_id := 3; inv_amount := ofZ 100;
                  inv_symbol := "ITC"; inv_metadata := "fmcg" |} twoPositions))
  = investments twoPositions
  ∧ balance
      (realizeInvestment 3 (Q2Qc (3 # 2))
         (invest {| inv_id := 3; inv_amount := ofZ 100;
                    inv_symbol := "ITC"; inv_metadata := "fmcg" |} twoPositions))
    = ofZ 1150.
Proof.
  pose proof (X8_invest_then_realize twoPositions
                {| inv_id := 3; inv_amount := ofZ 100;
                   inv_symbol := "ITC"; inv_metadata := "fmcg" |}
                (Q2Qc (3 # 2))) as H.
  cbn [inv_id] in H. rewrite H.
  - split; [reflexivity | qc_compute].
  - intros q Hq. apply list_elem_of_In in Hq. simpl in Hq.
    destruct Hq as [<-|[<-|[]]]; simpl; lia.
Defined.

(** X9: ids are not checked when a position is opened.  When two open
    positions share an id, [realizeInvestment] pays out the older one only
    and removes both: the amount of the younger one is lost. *)
Theorem X9_shared_id_loses_a_position :
  ∀ (u : UserAccount) (p1 p2 : Investment) (m : Qc),
    (∀ q, q ∈ investments u → inv_id q ≠ inv_id p1) →
    inv_id p2 = inv_id p1 →
    investments (realizeInvestment (inv_id p1) m (invest p2 (invest p1 u)))
    = investments u
    ∧ balance (realizeInvestment (inv_id p1) m (invest p2 (invest p1 u)))
      = round2 (balance u + round2 (inv_amount p1 * m)).
Proof.
  intros u p1 p2 m Hfresh Hid. unfold realizeInvestment, invest. cbn.
  rewrite <- app_assoc. cbn.
  rewrite (find_id_fresh_snoc (inv_id p1) (investments u) p1 [p2]) by auto.
  cbn. rewrite List.filter_app, (filter_id_fresh _ _ Hfresh).
  rewrite (filter_id_all (inv_id p1) [p1; p2]) by (repeat constructor; auto).
  rewrite app_nil_r. split; reflexivity.
Qed.

Lemma X9_shared_id_loses_a_position_witness :
  let p1 := {| inv_id := 3; inv_amount := ofZ 100;
               inv_symbol := "ITC"; inv_metadata := "fmcg" |} in
  let p2 := {| inv_id := 3; inv_amount := ofZ 900;
               inv_symbol := "HUL"; inv_metadata := "fmcg" |} in
  investments (realizeInvestment 3 (ofZ 1) (invest p2 (invest p1 twoPositions)))
  = investments twoPositions
  ∧ balance (realizeInvestment 3 (ofZ 1) (invest p2 (invest p1 twoPositions)))
    = ofZ 1100.
Proof.
  intros p1 p2.
  destruct (X9_shared_id_loses_a_position twoPositions p1 p2 (ofZ 1))
    as [H1 H2].
  - intros q Hq. apply list_elem_of_In in Hq. simpl in Hq.
    destruct Hq as [<-|[<-|[]]]; simpl; lia.
  - reflexivity.
  - split; [exact H1 |].
    etransitivity; [exact H2 | qc_compute].
Defined.

(** * Further properties of the habit tracker *)

Module HabitPageFacts.
Import Habit HabitPage.

Lemma initialStreak_ok : streakOk initialStreak.
Proof.
  unfold streakOk. cbn. repeat split; try lia; try discriminate.
Qed.

Lemma advance_ok c s :
  (lastDate s = Some (getYesterday c) → getYesterday c = (today c - 1)%Z) →
  streakOk s → streakOk (advance c s).
Proof.
  intros Hsteady (Hcb & Hcl & Hlast & Hnone & Hrun).
  assert (Hnew : (1 ≤ current (advance c s) ≤ current s + 1)%Z).
  { unfold advance. cbn [current]. case_decide; lia. }
  unfold streakOk.
  assert (Hh : history (advance c s) = history s ++ [today c]) by reflexivity.
  assert (Hl : lastDate (advance c s) = Some (today c)) by reflexivity.
  assert (Hb : best (advance c s)
               = Z.max (current (advance c s)) (best s)) by reflexivity.
  rewrite Hh, Hl, Hb, length_app, last_snoc. cbn [length].
  split; [lia |]. split; [lia |]. split; [reflexivity |].
  split; [discriminate |].
  intros d k [= <-] Hk. destruct k as [|k].
  - replace (length (history s) + 1 - 1 - 0)%nat
      with (length (history s)) by lia.
    rewrite lookup_snoc_last. f_equal. lia.
  - assert (Hy : lastDate s = Some (getYesterday c)).
    { unfold advance in Hk. cbn [current] in Hk.
      case_decide; [assumption | lia]. }
    assert (Hc : current (advance c s) = (current s + 1)%Z).
    { unfold advance. cbn [current]. rewrite decide_True by exact Hy.
      reflexivity. }
    replace (length (history s) + 1 - 1 - S k)%nat
      with (length (history s) - 1 - k)%nat by lia.
    assert (Hlt : (length (history s) - 1 - k < length (history s))%nat)
      by lia.
    rewrite (lookup_app_l _ _ _ Hlt).
    etransitivity; [apply (Hrun (getYesterday c) k Hy); lia |].
    specialize (Hsteady Hy). f_equal. lia.
Qed.

Lemma effect_ok c ts s :
  (lastDate s = Some (getYesterday c) → getYesterday c = (today c - 1)%Z) →
  streakOk s → streakOk (effect c ts s).
Proof.
  intros Hc H. unfold effect.
  destruct (fires c ts s); [apply advance_ok; assumption | exact H].
Qed.

Lemma step_ok ev h :
  steadyEvent ev → streakOk (streak h) → streakOk (streak (step ev h)).
Proof.
  intros Hev H. destruct ev as [c i|c confirmed]; cbn [step].
  - unfold toggleTask. cbn [streak]. apply effect_ok; [| exact H].
    intros _. exact Hev.
  - unfold handleReset. destruct confirmed; [| exact H].
    cbn [streak]. apply effect_ok; [discriminate | apply initialStreak_ok].
Qed.

Lemma play_ok evs h :
  Forall steadyEvent evs →
  streakOk (streak h) → streakOk (streak (play evs h)).
Proof.
  unfold play. revert h.
  induction evs as [|ev evs IH]; intros h Hevs H; simpl; [exact H |].
  apply Forall_cons in Hevs as [Hev Hevs].
  apply IH; [exact Hevs | apply step_ok; assumption].
Qed.

End HabitPageFacts.

(** X10: whatever is clicked, on whatever days, with clocks on which the
    date of [getYesterday ()] is the day before today, a streak whose
    counters are sound stays sound: [current] lies between 0 and [best] and
    is at most the number of completed days, [lastDate] is the last day of
    [history], and the last [current] days of [history] are consecutive days
    ending with [lastDate]. *)
Theorem X10_streak_counts_consecutive_days :
  ∀ (evs : list HabitPage.Event) (h : Habit.HabitState),
    Forall HabitPage.steadyEvent evs →
    HabitPage.streakOk (Habit.streak h) →
    let s := Habit.streak (HabitPage.play evs h) in
    (0 ≤ Habit.current s ≤ Habit.best s)%Z
    ∧ (Habit.current s ≤ Z.of_nat (length (Habit.history s)))%Z
    ∧ Habit.lastDate s = last (Habit.history s)
    ∧ ∀ (d : Date) (k : nat),
        Habit.lastDate s = Some d → (Z.of_nat k < Habit.current s)%Z →
        Habit.history s !! (length (Habit.history s) - 1 - k)%nat
        = Some (d - Z.of_nat k)%Z.
Proof.
  intros evs h Hevs H s.
  destruct (HabitPageFacts.play_ok evs h Hevs H) as (H1 & H2 & H3 & _ & H5).
  repeat split; try apply H1; assumption.
Qed.

(** Days 100 and 101 are completed, day 102 is missed, day 103 is
    completed: the streak is 1, the best streak 2. *)
Lemma X10_streak_counts_consecutive_days_witness :
  let evs := [HabitPage.Toggle (clockOn 100) 1; HabitPage.Toggle (clockOn 100) 2;
              HabitPage.Toggle (clockOn 100) 3;
              HabitPage.Toggle (clockOn 101) 3; HabitPage.Toggle (clockOn 101) 3;
              HabitPage.Toggle (clockOn 103) 3; HabitPage.Toggle (clockOn 103) 3] in
  Habit.streak (HabitPage.play evs HabitPage.mounted)
  = {| Habit.current := 1; Habit.best := 2; Habit.lastDate := Some 103%Z;
       Habit.history := [100; 101; 103]%Z |}
  ∧ (Habit.current (Habit.streak (HabitPage.play evs HabitPage.mounted))
     ≤ Habit.best (Habit.streak (HabitPage.play evs HabitPage.mounted)))%Z.
Proof.
  intros evs. split; [reflexivity |].
  destruct (X10_streak_counts_consecutive_days evs HabitPage.mounted)
    as ([_ H] & _);
    [repeat constructor | apply HabitPageFacts.initialStreak_ok | exact H].
Defined.

(** X11: [toggleTask] is a pure toggle: clicking the same task twice
    gives back the task list, a click on an id that no task has changes
    nothing, and a click never changes the number of tasks, their ids, their
    texts, or the [done] flag of a task with another id. *)
Theorem X11_toggle_is_an_involution :
  ∀ (i : Z) (ts : list Habit.Task),
    Habit.toggle i (Habit.toggle i ts) = ts
    ∧ ((∀ t, t ∈ ts → Habit.id t ≠ i) → Habit.toggle i ts = ts)
    ∧ Habit.id <$> Habit.toggle i ts = Habit.id <$> ts
    ∧ Habit.text <$> Habit.toggle i ts = Habit.text <$> ts
    ∧ ∀ (k : nat) (t : Habit.Task),
        ts !! k = Some t →
        Habit.toggle i ts !! k
        = Some (if decide (Habit.id t = i)
                then {| Habit.id := Habit.id t; Habit.text := Habit.text t;
                        Habit.done := negb (Habit.done t) |}
                else t).
Proof.
  intros i ts. unfold Habit.toggle. repeat split.
  - induction ts as [|[j x d] ts IH]; simpl; [reflexivity |].
    f_equal; [| exact IH].
    destruct (decide (j = i)) as [->|Hne]; simpl.
    + rewrite decide_True by reflexivity. rewrite negb_involutive. reflexivity.
    + rewrite decide_False by exact Hne. reflexivity.
  - intros H. induction ts as [|t ts IH]; simpl; [reflexivity |].
    rewrite decide_False by (apply H; left). f_equal.
    apply IH. intros t' Ht'. apply H. right. exact Ht'.
  - induction ts as [|t ts IH]; simpl; [reflexivity |].
    f_equal; [case_decide; reflexivity | exact IH].
  - induction ts as [|t ts IH]; simpl; [reflexivity |].
    f_equal; [case_decide; reflexivity | exact IH].
  - intros k t H. change (List.map ?f ts) with (f <$> ts).
    rewrite list_lookup_fmap, H. reflexivity.
Qed.

Lemma X11_toggle_is_an_involution_witness :
  Habit.toggle 9 Habit.initialTasks = Habit.initialTasks
  ∧ Habit.toggle 2 (Habit.toggle 2 Habit.initialTasks) = Habit.initialTasks.
Proof.
  destruct (X11_toggle_is_an_involution 9 Habit.initialTasks) as (_ & H & _).
  destruct (X11_toggle_is_an_involution 2 Habit.initialTasks) as (H2 & _).
  split; [| exact H2].
  apply H. intros t Ht. apply list_elem_of_In in Ht. simpl in Ht.
  destruct Ht as [<-|[<-|[<-|[]]]]; simpl; lia.
Defined.

(** X12: the calendar has 30 cells, oldest first; the cell [k] places
    before the last one carries the date that a [Date] taken back by [k]
    local days prints, and is active exactly when that date is in
    [history].  Where those dates are the 30 days that end today (as they
    are in a time zone that keeps one offset), on a day that is completed,
    with sound counters, the current streak shows as a run of active cells
    that ends in the last cell. *)
Theorem X12_calendar_shows_the_streak :
  ∀ (c : Clock) (s : Habit.Streak),
    length (HabitPage.last30 c s) = 30%nat
    ∧ (∀ k : nat, (k < 30)%nat →
         ∃ active : bool,
           HabitPage.last30 c s !! (29 - k)%nat
           = Some (Day (setDate_back c (Z.of_nat k)), active)
           ∧ (active = true
              ↔ Day (setDate_back c (Z.of_nat k)) ∈ Habit.history s))
    ∧ ((∀ k : nat, (k < 30)%nat →
          Day (setDate_back c (Z.of_nat k)) = (Habit.today c - Z.of_nat k)%Z) →
       HabitPage.streakOk s → Habit.lastDate s = Some (Habit.today c) →
       ∀ k : nat, (k < 30)%nat → (Z.of_nat k < Habit.current s)%Z →
         HabitPage.last30 c s !! (29 - k)%nat
         = Some ((Habit.today c - Z.of_nat k)%Z, true)).
Proof.
  intros c s.
  assert (Hcell : ∀ k : nat, (k < 30)%nat →
            HabitPage.last30 c s !! (29 - k)%nat
            = Some (Day (setDate_back c (Z.of_nat k)),
                    bool_decide (Day (setDate_back c (Z.of_nat k))
                                 ∈ Habit.history s))).
  { intros k Hk. unfold HabitPage.last30.
    rewrite list_lookup_fmap, lookup_seq_lt by lia. cbn.
    replace (29 - Z.of_nat (29 - k))%Z with (Z.of_nat k) by lia.
    reflexivity. }
  split; [| split].
  - unfold HabitPage.last30. rewrite length_fmap, length_seq. reflexivity.
  - intros k Hk. eexists. split; [apply Hcell, Hk |].
    apply bool_decide_eq_true.
  - intros Hdays (_ & _ & _ & _ & Hrun) Hlast k Hk Hcur.
    etransitivity; [apply (Hcell k Hk) |].
    rewrite (Hdays k Hk). do 2 f_equal.
    apply bool_decide_eq_true_2.
    apply list_elem_of_lookup. eexists. apply (Hrun _ k Hlast Hcur).
Qed.

Lemma lastTaskOpen_ok : HabitPage.streakOk (Habit.streak lastTaskOpen).
Proof.
  unfold HabitPage.streakOk. cbn.
  split; [lia |]. split; [lia |]. split; [reflexivity |].
  split; [discriminate |].
  intros d k [= <-] Hk.
  do 4 (destruct k as [|k]; [reflexivity |]). lia.
Qed.

Lemma X12_calendar_shows_the_streak_witness :
  HabitPage.last30 (clockOn 100)
    (Habit.streak (Habit.toggleTask (clockOn 100) 3 lastTaskOpen)) !! 25%nat
  = Some (96%Z, true).
Proof.
  destruct (X12_calendar_shows_the_streak (clockOn 100)
              (Habit.streak (Habit.toggleTask (clockOn 100) 3 lastTaskOpen)))
    as (_ & _ & H).
  apply (H (fun k _ => clockOn_days 100 (Z.of_nat k))
           (HabitPageFacts.effect_ok _ _ _
              (fun _ => clockOn_steady 100) lastTaskOpen_ok)
           eq_refl 4%nat);
    [lia | vm_compute; reflexivity].
Defined.

(** In the United Kingdom at 00:30 UTC on 10 November 2024 (day 20037)
    the calendar does not show the 30 days that end today: from the change
    of the clock back, each cell carries the date of the day before, and
    27 October (day 20023) is in no cell. *)
Lemma last30_across_clock_change :
  let cells :=
    HabitPage.last30 (londonClock 1731198600000) Habit.initialStreak in
  cells !! 29%nat = Some (20037%Z, false)
  ∧ cells !! 16%nat = Some (20024%Z, false)
  ∧ cells !! 15%nat = Some (20022%Z, false)
  ∧ cells !! 0%nat = Some (20007%Z, false)
  ∧ 20023%Z ∉ (fst <$> cells).
Proof.
  cbv zeta. repeat split; try reflexivity.
  apply (bool_decide_unpack _). vm_compute. exact I.
Qed.

Module HabitResetFacts.
Import Habit HabitPage.

(** The streak right after the first completed day [d]. *)
Lemma advance_initial c :
  advance c initialStreak
  = {| current := 1; best := 1; lastDate := Some (today c);
       history := [today c] |}.
Proof. reflexivity. Qed.

Lemma allDone_undone (ts : list Task) :
  ts ≠ [] →
  allDone (List.map (fun task =>
             {| id := id task; text := text task; done := false |}) ts)
  = false.
Proof. destruct ts as [|t ts]; [congruence | reflexivity]. Qed.

Lemma handleReset_streak c h :
  tasks h ≠ [] → streak (handleReset c true h) = initialStreak.
Proof.
  intros H. unfold handleReset, effect, fires. cbn [streak].
  rewrite (allDone_undone _ H). reflexivity.
Qed.

Lemma handleReset_tasks c h :
  allDone (tasks (handleReset c true h)) = true → tasks h = [].
Proof.
  intros H. destruct (tasks h) as [|t ts] eqn:E; [reflexivity |].
  unfold handleReset in H. cbn [tasks] in H. rewrite E in H. discriminate.
Qed.

(** A click of day [d] takes a streak that is still initial, or already
    the one of the first completed day, to one of the two; and to the second
    when it leaves all tasks done. *)
Lemma toggleTask_first_day c i h :
  streak h = initialStreak
  ∨ streak h = advance c initialStreak →
  (streak (toggleTask c i h) = initialStreak
   ∨ streak (toggleTask c i h) = advance c initialStreak)
  ∧ (allDone (tasks (toggleTask c i h)) = true →
     streak (toggleTask c i h) = advance c initialStreak).
Proof.
  intros H. unfold toggleTask, effect, fires. cbn [streak tasks].
  destruct H as [-> | ->].
  - cbn [lastDate initialStreak].
    rewrite bool_decide_eq_false_2 by discriminate.
    destruct (allDone (toggle i (tasks h))); cbn; split; auto; discriminate.
  - rewrite advance_initial. cbn [lastDate].
    rewrite bool_decide_eq_true_2 by reflexivity. rewrite andb_false_r.
    split; auto.
Qed.

End HabitResetFacts.

(** X13: a confirmed reset forgets that the day was completed.  After it
    (the page showing at least one task) the streak is the initial one, and
    when the clicks that follow on a day [d] leave every task done, the
    streak is 1 with [best] 1 and [history] holding [d] alone, whatever the
    streak was before the reset; an answer of no to the dialog changes
    nothing. *)
Theorem X13_reset_starts_over :
  ∀ (h : Habit.HabitState) (c : Clock) (d : Date) (clicks : list (Clock * Z)),
    Habit.tasks h ≠ [] →
    (∀ c' i, (c', i) ∈ clicks → Habit.today c' = d) →
    HabitPage.handleReset c false h = h
    ∧ Habit.streak (HabitPage.handleReset c true h) = Habit.initialStreak
    ∧ (let h' := HabitPage.play
                   ((fun ci => HabitPage.Toggle ci.1 ci.2) <$> clicks)
                   (HabitPage.handleReset c true h) in
       Habit.allDone (Habit.tasks h') = true →
       Habit.streak h'
       = {| Habit.current := 1; Habit.best := 1;
            Habit.lastDate := Some d; Habit.history := [d] |}).
Proof.
  intros h c d clicks Hne Hday.
  split; [reflexivity |].
  split; [apply HabitResetFacts.handleReset_streak, Hne |].
  intros h' Hall.
  assert (Hinv : ∀ (cs : list (Clock * Z)) (g : Habit.HabitState) (c0 : Clock),
            Habit.today c0 = d →
            (∀ c' i, (c', i) ∈ cs → Habit.today c' = d) →
            Habit.streak g = Habit.initialStreak
            ∨ Habit.streak g = Habit.advance c0 Habit.initialStreak →
            let g' := HabitPage.play
                        ((fun ci => HabitPage.Toggle ci.1 ci.2) <$> cs) g in
            (Habit.streak g' = Habit.initialStreak
             ∨ Habit.streak g' = Habit.advance c0 Habit.initialStreak)
            ∧ (cs ≠ [] → Habit.allDone (Habit.tasks g') = true →
               Habit.streak g' = Habit.advance c0 Habit.initialStreak)).
  { induction cs as [|[c1 i1] cs IH] using rev_ind; intros g c0 Hc0 Hcs Hg g'.
    - split; [exact Hg | congruence].
    - unfold g'. rewrite fmap_app. unfold HabitPage.play. rewrite foldl_app.
      cbn [fmap list_fmap foldl HabitPage.step fst snd].
      fold (HabitPage.play ((fun ci => HabitPage.Toggle ci.1 ci.2) <$> cs) g).
      destruct (IH g c0 Hc0) as [IH1 _].
      { intros c' i Hin. apply (Hcs c' i), elem_of_app. left. exact Hin. }
      { exact Hg. }
      assert (Hc1 : Habit.today c1 = d).
      { apply (Hcs c1 i1), elem_of_app. right. apply list_elem_of_singleton.
        reflexivity. }
      assert (E : Habit.advance c1 Habit.initialStreak
                  = Habit.advance c0 Habit.initialStreak).
      { rewrite !HabitResetFacts.advance_initial, Hc0, Hc1. reflexivity. }
      rewrite <- E in IH1 |- *.
      destruct (HabitResetFacts.toggleTask_first_day c1 i1 _ IH1) as [H1 H2].
      split; [exact H1 | intros _; exact H2]. }
  destruct clicks as [|[c0 i0] clicks'].
  - cbn in h'. unfold h' in Hall.
    apply HabitResetFacts.handleReset_tasks in Hall. contradiction.
  - assert (Hc0 : Habit.today c0 = d) by (apply (Hday c0 i0); left).
    destruct (Hinv ((c0, i0) :: clicks') (HabitPage.handleReset c true h) c0
                Hc0 Hday) as [_ H].
    + left. apply HabitResetFacts.handleReset_streak, Hne.
    + fold h' in H. rewrite H by (congruence || exact Hall).
      rewrite HabitResetFacts.advance_initial, Hc0. reflexivity.
Qed.

(** The day 100 is completed, the streak is reset, and the three tasks
    are done again on day 100. *)
Lemma X13_reset_starts_over_witness :
  Habit.streak
    (HabitPage.play
       [HabitPage.Toggle (clockOn 100) 1; HabitPage.Toggle (clockOn 100) 2;
        HabitPage.Toggle (clockOn 100) 3]
       (HabitPage.handleReset (clockOn 100) true
          (Habit.toggleTask (clockOn 100) 3 lastTaskOpen)))
  = {| Habit.current := 1; Habit.best := 1;
       Habit.lastDate := Some 100%Z; Habit.history := [100%Z] |}.
Proof.
  destruct (X13_reset_starts_over
              (Habit.toggleTask (clockOn 100) 3 lastTaskOpen) (clockOn 100)
              100%Z [(clockOn 100, 1%Z); (clockOn 100, 2%Z); (clockOn 100, 3%Z)])
    as (_ & _ & H).
  - discriminate.
  - intros c' i Hin. apply list_elem_of_In in Hin. simpl in Hin.
    destruct Hin as [[= <- _]|[[= <- _]|[[= <- _]|[]]]]; reflexivity.
  - apply H. reflexivity.
Defined.

(** * Properties of the toast notifications *)

Module ToastFacts.
Import Toasts.

Lemma increasing_snoc (l : list Z) (y : Z) :
  increasing l → Forall (fun x => (x < y)%Z) l → increasing (l ++ [y]).
Proof.
  induction l as [|x l IH]; intros Hl Hy; simpl.
  - split; [constructor | exact I].
  - destruct Hl as [Hx Hl]. apply Forall_cons in Hy as [Hxy Hy]. split.
    + apply Forall_app. split; [exact Hx | repeat constructor; exact Hxy].
    + apply IH; assumption.
Qed.

Lemma increasing_NoDup (l : list Z) : increasing l → NoDup l.
Proof.
  induction l as [|x l IH]; intros H; [apply NoDup_nil_2 |].
  destruct H as [Hx Hl]. apply NoDup_cons. split; [| apply IH, Hl].
  intros Hin. rewrite Forall_forall in Hx. specialize (Hx x Hin). lia.
Qed.

Lemma elem_of_dismiss i ts x : x ∈ dismiss i ts ↔ x ∈ ts ∧ id x ≠ i.
Proof.
  unfold dismiss. rewrite !list_elem_of_In, filter_In, negb_true_iff.
  rewrite Z.eqb_neq. reflexivity.
Qed.

Lemma elem_of_dismissed (fired : list (Z * Z)) ts x :
  x ∈ foldl (fun ts tm => dismiss tm.2 ts) ts fired
  ↔ x ∈ ts ∧ ∀ tm, tm ∈ fired → id x ≠ tm.2.
Proof.
  revert ts. induction fired as [|tm fired IH]; intros ts; simpl.
  - split; [intros H; split; [exact H | intros tm Htm; inversion Htm] | tauto].
  - rewrite IH, elem_of_dismiss. split.
    + intros [[H1 H2] H3]. split; [exact H1 |].
      intros tm' Htm'. apply elem_of_cons in Htm' as [-> | Htm']; auto.
    + intros [H1 H2]. repeat split; [exact H1 | apply H2; left |].
      intros tm' Htm'. apply H2. right. exact Htm'.
Qed.

Lemma increasing_dismiss i ts :
  increasing (id <$> ts) → increasing (id <$> dismiss i ts).
Proof.
  induction ts as [|x ts IH]; intros H; [exact I |].
  destruct H as [Hx Hts]. unfold dismiss. cbn [List.filter].
  fold (dismiss i ts). destruct (negb (id x =? i)%Z).
  - split; [| apply IH, Hts]. rewrite Forall_forall in Hx |- *.
    intros y Hy. apply Hx. apply list_elem_of_fmap in Hy as (z & -> & Hz).
    apply elem_of_dismiss in Hz as [Hz _].
    apply list_elem_of_fmap. exists z. split; [reflexivity | exact Hz].
  - apply IH, Hts.
Qed.

Lemma increasing_dismissed (fired : list (Z * Z)) ts :
  increasing (id <$> ts) →
  increasing (id <$> foldl (fun ts tm => dismiss tm.2 ts) ts fired).
Proof.
  revert ts. induction fired as [|tm fired IH]; intros ts H; simpl;
    [exact H | apply IH, increasing_dismiss, H].
Qed.

Lemma push_ok now text o s : ok s → ok (push now text o s).
Proof.
  intros (Hinc & Hids & Htm & Hhas). unfold ok, push.
  cbn [toasts idRef timers]. split; [| split; [| split]].
  - rewrite fmap_app. apply increasing_snoc; [exact Hinc |].
    apply Forall_fmap. exact Hids.
  - apply Forall_app. split.
    + eapply Forall_impl; [exact Hids | intros x Hx; cbn in Hx; lia].
    + repeat constructor. cbn. lia.
  - apply Forall_app. split.
    + eapply Forall_impl; [exact Htm | intros x Hx; cbn in Hx; lia].
    + repeat constructor. cbn. lia.
  - intros x Hx. apply elem_of_app in Hx as [Hx | Hx].
    + destruct (Hhas x Hx) as [due Hdue]. exists due.
      apply elem_of_app. left. exact Hdue.
    + apply list_elem_of_singleton in Hx as ->. eexists.
      apply elem_of_app. right. apply list_elem_of_singleton. reflexivity.
Qed.

Lemma elapse_ok t s : ok s → ok (elapse t s).
Proof.
  intros (Hinc & Hids & Htm & Hhas). unfold ok, elapse.
  cbn [toasts idRef timers]. split; [| split; [| split]].
  - apply increasing_dismissed, Hinc.
  - rewrite Forall_forall in Hids |- *. intros x Hx.
    apply elem_of_dismissed in Hx as [Hx _]. apply Hids, Hx.
  - rewrite Forall_forall in Htm |- *. intros tm Hin.
    apply list_elem_of_In, filter_In in Hin as [Hin _].
    apply Htm, list_elem_of_In, Hin.
  - intros x Hx. apply elem_of_dismissed in Hx as [Hx Hnot].
    destruct (Hhas x Hx) as [due Hdue]. exists due.
    apply list_elem_of_In, filter_In. split; [apply list_elem_of_In, Hdue |].
    destruct (Z.leb (due, id x).1 t) eqn:E; [| reflexivity].
    exfalso. apply (Hnot (due, id x)); [| reflexivity].
    apply list_elem_of_In, filter_In. split; [apply list_elem_of_In, Hdue | exact E].
Qed.

Lemma run_ok evs s : ok s → ok (run evs s).
Proof.
  unfold run. revert s. induction evs as [|ev evs IH]; intros s H; simpl;
    [exact H |].
  apply IH. destruct ev; [apply push_ok | apply elapse_ok]; exact H.
Qed.

Lemma initial_ok : ok initial.
Proof.
  unfold ok, initial. cbn. repeat split; try constructor.
  intros x Hx. inversion Hx.
Qed.

End ToastFacts.

(** X14: whatever is pushed and however the time passes, the toasts on
    display carry ids that grow along the list, so no two toasts share an id;
    every toast on display has a pending timer that removes it; and once the
    time has passed the due time of every timer, no toast is left. *)
Theorem X14_toasts_have_distinct_ids_and_expire :
  ∀ (evs : list Toasts.Event),
    let s := Toasts.run evs Toasts.initial in
    Toasts.increasing (Toasts.id <$> Toasts.toasts s)
    ∧ NoDup (Toasts.id <$> Toasts.toasts s)
    ∧ (∀ x, x ∈ Toasts.toasts s → ∃ due, (due, Toasts.id x) ∈ Toasts.timers s)
    ∧ ∀ t, (∀ tm, tm ∈ Toasts.timers s → (tm.1 ≤ t)%Z) →
           Toasts.toasts (Toasts.elapse t s) = []
           ∧ Toasts.timers (Toasts.elapse t s) = [].
Proof.
  intros evs s.
  destruct (ToastFacts.run_ok evs Toasts.initial ToastFacts.initial_ok)
    as (Hinc & _ & _ & Hhas).
  fold s in Hinc, Hhas.
  split; [exact Hinc |]. split; [apply ToastFacts.increasing_NoDup, Hinc |].
  split; [exact Hhas |].
  intros t Hdue. split.
  - destruct (Toasts.toasts (Toasts.elapse t s)) as [|x l] eqn:E;
      [reflexivity | exfalso].
    assert (Hx : x ∈ Toasts.toasts (Toasts.elapse t s))
      by (rewrite E; left).
    unfold Toasts.elapse in Hx. cbn [Toasts.toasts] in Hx.
    apply ToastFacts.elem_of_dismissed in Hx as [Hx Hnot].
    destruct (Hhas x Hx) as [due Hd].
    apply (Hnot (due, Toasts.id x)); [| reflexivity].
    apply list_elem_of_In, filter_In. split; [apply list_elem_of_In, Hd |].
    apply Z.leb_le. apply (Hdue _ Hd).
  - unfold Toasts.elapse. cbn [Toasts.timers].
    destruct (List.filter _ (Toasts.timers s)) as [|tm l] eqn:E;
      [reflexivity | exfalso].
    assert (Hin : In tm (List.filter
                           (fun tm => negb (Z.leb tm.1 t)) (Toasts.timers s)))
      by (rewrite E; left; reflexivity).
    apply filter_In in Hin as [Hin Hneg].
    apply negb_true_iff, Z.leb_gt in Hneg.
    specialize (Hdue tm (proj2 (list_elem_of_In _ _) Hin)). lia.
Qed.

Lemma X14_toasts_have_distinct_ids_and_expire_witness :
  let s := Toasts.run
             [Toasts.Push 0 "one" {| Toasts.opts_ttl := None;
                                     Toasts.opts_style := None |};
              Toasts.Push 500 "two" {| Toasts.opts_ttl := Some 1500%Z;
                                       Toasts.opts_style := Some "danger"%string |};
              Toasts.Elapse 2500] Toasts.initial in
  Toasts.id <$> Toasts.toasts s = [1%Z]
  ∧ Toasts.toasts (Toasts.elapse 3000 s) = [].
Proof.
  intros s. split; [reflexivity |].
  destruct (X14_toasts_have_distinct_ids_and_expire
              [Toasts.Push 0 "one" {| Toasts.opts_ttl := None;
                                      Toasts.opts_style := None |};
               Toasts.Push 500 "two" {| Toasts.opts_ttl := Some 1500%Z;
                                        Toasts.opts_style := Some "danger"%string |};
               Toasts.Elapse 2500]) as (_ & _ & _ & H).
  apply (H 3000%Z). intros tm Htm. apply list_elem_of_In in Htm.
  vm_compute in Htm. destruct Htm as [<-|[]]. simpl. lia.
Defined.

Module ToastWindowFacts.
Import Toasts.

(** While no timer due at [D] or later has run, a toast on display whose
    id is carried only by timers due at [D] stays on display. *)
Lemma step_shown x D ev s :
  (∀ t, ev = Elapse t → (t < D)%Z) →
  x ∈ toasts s
  ∧ (∀ tm, tm ∈ timers s → tm.2 = id x → tm.1 = D)
  ∧ (id x < idRef s)%Z →
  x ∈ toasts (step ev s)
  ∧ (∀ tm, tm ∈ timers (step ev s) → tm.2 = id x → tm.1 = D)
  ∧ (id x < idRef (step ev s))%Z.
Proof.
  intros Hev (Hx & Htm & Hid). destruct ev as [now text o|t]; cbn [step].
  - unfold push. cbn [toasts timers idRef]. split; [| split].
    + apply elem_of_app. left. exact Hx.
    + intros tm Hin E. apply elem_of_app in Hin as [Hin | Hin]; [auto |].
      apply list_elem_of_singleton in Hin as ->. cbn in E. lia.
    + lia.
  - specialize (Hev t eq_refl).
    unfold elapse. cbn [toasts timers idRef]. split; [| split].
    + apply ToastFacts.elem_of_dismissed. split; [exact Hx |].
      intros tm Hin E. apply list_elem_of_In, filter_In in Hin as [Hin Hle].
      apply Z.leb_le in Hle.
      specialize (Htm tm (proj2 (list_elem_of_In _ _) Hin) (eq_sym E)). lia.
    + intros tm Hin. apply list_elem_of_In, filter_In in Hin as [Hin _].
      apply Htm, list_elem_of_In, Hin.
    + exact Hid.
Qed.

(** A toast that is on display still has its timer. *)
Lemma step_timer x D ev s :
  (id x < idRef s)%Z ∧ (x ∈ toasts s → (D, id x) ∈ timers s) →
  (id x < idRef (step ev s))%Z
  ∧ (x ∈ toasts (step ev s) → (D, id x) ∈ timers (step ev s)).
Proof.
  intros [Hid H]. destruct ev as [now text o|t]; cbn [step].
  - unfold push. cbn [toasts timers idRef]. split; [lia |]. intros Hx.
    apply elem_of_app in Hx as [Hx | Hx].
    + apply elem_of_app. left. apply H, Hx.
    + apply list_elem_of_singleton in Hx. subst x. cbn in Hid. lia.
  - unfold elapse. cbn [toasts timers idRef]. split; [exact Hid |]. intros Hx.
    apply ToastFacts.elem_of_dismissed in Hx as [Hx Hnot].
    apply list_elem_of_In, filter_In.
    split; [apply list_elem_of_In, H, Hx |].
    destruct (Z.leb (D, id x).1 t) eqn:E; [| reflexivity].
    exfalso. apply (Hnot (D, id x)); [| reflexivity].
    apply list_elem_of_In, filter_In.
    split; [apply list_elem_of_In, H, Hx | exact E].
Qed.

Lemma run_shown x D evs s :
  (∀ t, Elapse t ∈ evs → (t < D)%Z) →
  x ∈ toasts s
  ∧ (∀ tm, tm ∈ timers s → tm.2 = id x → tm.1 = D)
  ∧ (id x < idRef s)%Z →
  x ∈ toasts (run evs s).
Proof.
  intros Hev H.
  enough (H' : x ∈ toasts (run evs s)
               ∧ (∀ tm, tm ∈ timers (run evs s) → tm.2 = id x → tm.1 = D)
               ∧ (id x < idRef (run evs s))%Z) by apply H'.
  unfold run. revert s H Hev.
  induction evs as [|ev evs IH]; intros s H Hev; simpl; [exact H |].
  apply IH.
  - apply step_shown; [| exact H]. intros t ->. apply Hev. left.
  - intros t Hin. apply Hev. right. exact Hin.
Qed.

Lemma run_timer x D evs s :
  (id x < idRef s)%Z ∧ (x ∈ toasts s → (D, id x) ∈ timers s) →
  x ∈ toasts (run evs s) → (D, id x) ∈ timers (run evs s).
Proof.
  intros H.
  enough (H' : (id x < idRef (run evs s))%Z
               ∧ (x ∈ toasts (run evs s) → (D, id x) ∈ timers (run evs s)))
    by apply H'.
  unfold run. revert s H.
  induction evs as [|ev evs IH]; intros s H; simpl; [exact H |].
  apply IH, step_timer, H.
Qed.

End ToastWindowFacts.

(** X15: a toast pushed at the time [now] stays on display, whatever is
    pushed meanwhile, as long as the time has not reached [now + ttl], and
    is gone as soon as it has; the [ttl] is the one given, or 3000 when none
    or zero is given. *)
Theorem X15_toast_is_shown_for_its_ttl :
  ∀ (s : Toasts.State) (now : Z) (text : string) (o : Toasts.Opts)
    (evs : list Toasts.Event),
    Toasts.ok s →
    let x := {| Toasts.id := Toasts.idRef s; Toasts.text := text;
                Toasts.ttl := Toasts.ttl_or_default o;
                Toasts.style := Toasts.style_or_default o |} in
    let D := (now + Z.max 0 (Toasts.ttl_or_default o))%Z in
    let s' := Toasts.run evs (Toasts.push now text o s) in
    Toasts.ttl x ≠ 0%Z
    ∧ (Toasts.opts_ttl o = None ∨ Toasts.opts_ttl o = Some 0%Z →
       Toasts.ttl x = 3000%Z)
    ∧ ((∀ t, Toasts.Elapse t ∈ evs → (t < D)%Z) → x ∈ Toasts.toasts s')
    ∧ (∀ t, (D ≤ t)%Z → x ∉ Toasts.toasts (Toasts.elapse t s')).
Proof.
  intros s now text o evs (_ & _ & Htm & _) x D s'.
  split; [| split; [| split]].
  - unfold x, Toasts.ttl_or_default. cbn.
    destruct (Toasts.opts_ttl o) as [t|]; [| lia].
    destruct (Z.eqb_spec t 0); lia.
  - unfold x, Toasts.ttl_or_default. cbn. intros [-> | ->]; reflexivity.
  - intros Hev. apply (ToastWindowFacts.run_shown x D); [exact Hev |].
    unfold Toasts.push. cbn [Toasts.toasts Toasts.timers Toasts.idRef].
    split; [| split].
    + apply elem_of_app. right. apply list_elem_of_singleton. reflexivity.
    + intros tm Hin E. apply elem_of_app in Hin as [Hin | Hin].
      * rewrite Forall_forall in Htm. specialize (Htm tm Hin).
        cbn in E. lia.
      * apply list_elem_of_singleton in Hin as ->. reflexivity.
    + cbn. lia.
  - intros t Ht Hx.
    unfold Toasts.elapse in Hx. cbn [Toasts.toasts] in Hx.
    apply ToastFacts.elem_of_dismissed in Hx as [Hx Hnot].
    apply (Hnot (D, Toasts.id x)); [| reflexivity].
    apply list_elem_of_In, filter_In. split; [| apply Z.leb_le; exact Ht].
    apply list_elem_of_In. apply (ToastWindowFacts.run_timer x D); [| exact Hx].
    unfold Toasts.push. cbn [Toasts.toasts Toasts.timers Toasts.idRef].
    split; [cbn; lia |]. intros _. apply elem_of_app. right.
    apply list_elem_of_singleton. reflexivity.
Qed.

(** A toast with a [ttl] of zero is shown for three seconds: still there
    after 2999 ms, gone at 3000 ms. *)
Lemma X15_toast_is_shown_for_its_ttl_witness :
  let o := {| Toasts.opts_ttl := Some 0%Z; Toasts.opts_style := None |} in
  let x := {| Toasts.id := 1; Toasts.text := "saved"; Toasts.ttl := 3000;
              Toasts.style := "default" |} in
  x ∈ Toasts.toasts
        (Toasts.run [Toasts.Elapse 2999] (Toasts.push 0 "saved" o Toasts.initial))
  ∧ x ∉ Toasts.toasts
          (Toasts.elapse 3000
             (Toasts.run [Toasts.Elapse 2999]
                (Toasts.push 0 "saved" o Toasts.initial))).
Proof.
  intros o x.
  destruct (X15_toast_is_shown_for_its_ttl Toasts.initial 0 "saved" o
              [Toasts.Elapse 2999] ToastFacts.initial_ok) as (_ & _ & H1 & H2).
  split.
  - apply H1. intros t Hin. apply list_elem_of_singleton in Hin.
    injection Hin as ->. reflexivity.
  - apply (H2 3000%Z). discriminate.
Defined.

(** * Properties of the stock market game *)

Module MarketFacts.
Import Market.

Lemma opp_is_cents (x : Qc) : is_cents x → is_cents (- x).
Proof.
  intros [z ->]. exists (- z)%Z. rewrite ofZ_opp. field. discriminate.
Qed.

Lemma toFixed2_is_cents (x : Qc) : is_cents (toFixed2 x).
Proof.
  unfold toFixed2. destruct (Qclt_le_dec x 0);
    [apply opp_is_cents |]; apply round2_is_cents.
Qed.

Lemma toFixed2_nonneg (x : Qc) : 0 ≤ x → toFixed2 x = round2 x.
Proof.
  intros H. unfold toFixed2. destruct (Qclt_le_dec x 0) as [H'|_];
    [| reflexivity].
  destruct (Qcle_not_lt _ _ H H').
Qed.

Lemma reprice_floor random s :
  ofZ 50 ≤ price (reprice random s) ∧ is_cents (price (reprice random s)).
Proof.
  unfold reprice. cbn [price]. split; [apply Math_max_l |].
  apply Math_max_is_cents; [apply ofZ_is_cents | apply toFixed2_is_cents].
Qed.

(** With a random value in [[0, 1)] the new price is within 2 % of a
    price that is not negative, half a cent of rounding apart, unless the
    floor of 50 lifts it. *)
Lemma reprice_band random s :
  0 ≤ price s → 0 ≤ random → random < 1 →
  price s - Q2Qc (2 # 100) * price s - Q2Qc (1 # 200)
  ≤ price (reprice random s)
  ∧ price (reprice random s)
    ≤ Math_max (ofZ 50)
        (price s + Q2Qc (2 # 100) * price s + Q2Qc (1 # 200)).
Proof.
  intros Hp Hr0 Hr1. unfold reprice. cbn [price].
  set (x := price s + (random * Q2Qc (4 # 100) - Q2Qc (2 # 100)) * price s).
  assert (Hlo : price s - Q2Qc (2 # 100) * price s ≤ x)
    by (unfold x; qc_to_q; nra).
  assert (Hhi : x ≤ price s + Q2Qc (2 # 100) * price s)
    by (unfold x; qc_to_q; nra).
  assert (Hx : 0 ≤ x) by (unfold x; qc_to_q; nra).
  rewrite (toFixed2_nonneg x Hx).
  destruct (round2_close x) as [Hc1 Hc2]. split.
  - apply (Qcle_trans _ (round2 x)); [| apply Math_max_r].
    apply (Qcle_trans _ (x - Q2Qc (1 # 200))); [| exact Hc1].
    qc_to_q. lra.
  - apply Math_max_le.
    apply (Qcle_trans _ (x + Q2Qc (1 # 200))); [exact Hc2 |].
    qc_to_q. lra.
Qed.

End MarketFacts.

(** X16: whatever [Math.random] returns, a price update leaves the
    account and the holdings alone, keeps the symbols and their order, and
    gives every stock a price in cents of at least 50; with random values in
    [[0, 1)] a price that is not negative moves by at most 2 % and half a
    cent of rounding, unless the floor of 50 lifts it. *)
Theorem X16_price_update :
  ∀ (random : nat → Qc) (st : Market.State),
    Market.user (Market.tick random st) = Market.user st
    ∧ Market.portfolio (Market.tick random st) = Market.portfolio st
    ∧ Market.symbol <$> Market.stocks (Market.tick random st)
      = Market.symbol <$> Market.stocks st
    ∧ Forall (fun s => ofZ 50 ≤ Market.price s ∧ is_cents (Market.price s))
             (Market.stocks (Market.tick random st))
    ∧ ∀ (i : nat) (s : Market.Stock),
        Market.stocks st !! i = Some s →
        0 ≤ Market.price s → 0 ≤ random i → random i < 1 →
        ∃ s', Market.stocks (Market.tick random st) !! i = Some s'
              ∧ Market.price s - Q2Qc (2 # 100) * Market.price s
                - Q2Qc (1 # 200) ≤ Market.price s'
              ∧ Market.price s'
                ≤ Math_max (ofZ 50)
                    (Market.price s + Q2Qc (2 # 100) * Market.price s
                     + Q2Qc (1 # 200)).
Proof.
  intros random st. unfold Market.tick. cbn [Market.user Market.portfolio Market.stocks].
  split; [reflexivity |]. split; [reflexivity |]. split; [| split].
  - apply list_eq. intros i. rewrite !list_lookup_fmap, list_lookup_imap.
    destruct (Market.stocks st !! i); reflexivity.
  - apply Forall_forall. intros s Hs.
    apply list_elem_of_lookup in Hs as [i Hi].
    rewrite list_lookup_imap in Hi.
    destruct (Market.stocks st !! i) as [s0|]; [| discriminate].
    injection Hi as <-. apply MarketFacts.reprice_floor.
  - intros i s Hi Hp Hr0 Hr1. exists (Market.reprice (random i) s).
    rewrite list_lookup_imap, Hi. split; [reflexivity |].
    apply MarketFacts.reprice_band; assumption.
Qed.

Lemma X16_price_update_witness :
  let st := {| Market.user := initialUser;
               Market.stocks := [{| Market.symbol := "ZOMATO";
                                    Market.price := ofZ 115 |};
                                 {| Market.symbol := "TATASTEEL";
                                    Market.price := ofZ 130 |}];
               Market.portfolio := [] |} in
  Market.price <$> Market.stocks (Market.tick (fun _ => Q2Qc (3 # 4)) st)
  = [Q2Qc (11615 # 100); Q2Qc (1313 # 10)]
  ∧ ∃ s', Market.stocks (Market.tick (fun _ => Q2Qc (3 # 4)) st) !! 0%nat
          = Some s'
          ∧ Market.price s' ≤ Math_max (ofZ 50)
                                (ofZ 115 + Q2Qc (2 # 100) * ofZ 115
                                 + Q2Qc (1 # 200)).
Proof.
  intros st. split.
  - cbn. apply (f_equal2 cons); [qc_compute |].
    apply (f_equal2 cons); [qc_compute | reflexivity].
  - destruct (X16_price_update (fun _ => Q2Qc (3 # 4)) st)
      as (_ & _ & _ & _ & H).
    destruct (H 0%nat {| Market.symbol := "ZOMATO"; Market.price := ofZ 115 |})
      as (s' & H1 & _ & H3); [reflexivity | discriminate | discriminate
                              | reflexivity |].
    exists s'. split; assumption.
Defined.

Module MarketTradeFacts.
Import Market.

Lemma without_offset {A} (k index : nat) (p : list A) :
  snd <$> List.filter (fun ix => negb (Nat.eqb ix.1 index))
                      (imap (fun i x => ((k + i)%nat, x)) p)
  = if decide (index < k)%nat then p else delete (index - k)%nat p.
Proof.
  revert k. induction p as [|x p IH]; intros k.
  - cbn. case_decide; reflexivity.
  - rewrite imap_cons. cbn [List.filter fst].
    rewrite (imap_ext _ (fun i y => ((S k + i)%nat, y)))
      by (intros; cbn; f_equal; lia).
    rewrite Nat.add_0_r.
    destruct (Nat.eqb_spec k index) as [->|Hne]; cbn [negb].
    + rewrite IH. rewrite decide_True by lia. rewrite decide_False by lia.
      rewrite Nat.sub_diag. reflexivity.
    + rewrite fmap_cons, IH. cbn [snd].
      destruct (decide (index < k)%nat) as [Hlt|Hge].
      * rewrite decide_True by lia. reflexivity.
      * rewrite decide_False by lia.
        replace (index - k)%nat with (S (index - S k)) by lia. reflexivity.
Qed.

(** Filtering by index removes the element at that index. *)
Lemma without_delete {A} (index : nat) (p : list A) :
  without index p = delete index p.
Proof.
  unfold without.
  rewrite (imap_ext _ (fun i y => ((0 + i)%nat, y))) by reflexivity.
  rewrite without_offset. rewrite decide_False by lia.
  rewrite Nat.sub_0_r. reflexivity.
Qed.

Lemma delete_snoc_last {A} (p : list A) (x : A) : delete (length p) (p ++ [x]) = p.
Proof.
  induction p as [|y p IH]; [reflexivity |]. cbn. f_equal. exact IH.
Qed.

Lemma ticks_frame randoms st :
  user (ticks randoms st) = user st
  ∧ portfolio (ticks randoms st) = portfolio st.
Proof.
  unfold ticks. revert st.
  induction randoms as [|r rs IH]; intros st; simpl; [split; reflexivity |].
  destruct (IH (tick r st)) as [-> ->]. split; reflexivity.
Qed.

End MarketTradeFacts.

(** X17: [buyStock] refuses a stock whose price exceeds the balance and
    then changes nothing.  A purchase that is covered takes exactly the
    price from the balance (amounts in cents), and selling the holding gives
    back exactly that price, whatever the price updates did in between: the
    balance and the portfolio are those of before the purchase. *)
Theorem X17_buy_then_sell_restores_the_balance :
  ∀ (c c' : Clock) (s : Market.Stock) (st : Market.State)
    (randoms : list (nat → Qc)),
    (balance (Market.user st) < Market.price s →
     Market.buyStock c s st = st)
    ∧ (is_cents (balance (Market.user st)) → is_cents (Market.price s) →
       0 ≤ Market.price s → Market.price s ≤ balance (Market.user st) →
       balance (Market.user (Market.buyStock c s st))
       = balance (Market.user st) - Market.price s
       ∧ ∃ st',
           Market.sellStock c' (length (Market.portfolio st))
             (Market.ticks randoms (Market.buyStock c s st)) = Some st'
           ∧ balance (Market.user st') = balance (Market.user st)
           ∧ Market.portfolio st' = Market.portfolio st).
Proof.
  intros c c' s st randoms. split.
  - intros H. unfold Market.buyStock.
    destruct (Qclt_le_dec _ _) as [_|H']; [reflexivity |].
    destruct (Qcle_not_lt _ _ H' H).
  - intros Hb Hp Hp0 Hle.
    assert (Hbuy : Market.buyStock c s st
                   = {| Market.user :=
                          transact c (- Market.price s)
                            (Market.stockOpts ("Bought " ++ Market.symbol s))
                            (Market.user st);
                        Market.stocks := Market.stocks st;
                        Market.portfolio :=
                          Market.portfolio st
                          ++ [{| Market.h_symbol := Market.symbol s;
                                 Market.h_price := Market.price s;
                                 Market.buyPrice := Market.price s |}] |}).
    { unfold Market.buyStock. destruct (Qclt_le_dec _ _) as [H'|_];
        [| reflexivity].
      destruct (Qcle_not_lt _ _ Hle H'). }
    assert (Hbal : balance (Market.user (Market.buyStock c s st))
                   = balance (Market.user st) - Market.price s).
    { rewrite Hbuy. cbn [Market.user]. rewrite transact_exact.
      - reflexivity.
      - exact Hb.
      - apply MarketFacts.opp_is_cents, Hp.
      - qc_to_q. lra. }
    split; [exact Hbal |].
    assert (Hport : Market.portfolio (Market.buyStock c s st)
                    = Market.portfolio st
                      ++ [{| Market.h_symbol := Market.symbol s;
                             Market.h_price := Market.price s;
                             Market.buyPrice := Market.price s |}])
      by (rewrite Hbuy; reflexivity).
    clear Hbuy.
    destruct (MarketTradeFacts.ticks_frame randoms (Market.buyStock c s st))
      as [Hu Hpf].
    unfold Market.sellStock.
    rewrite Hpf, Hport, lookup_snoc_last.
    eexists. split; [reflexivity |].
    cbn [Market.user Market.portfolio Market.h_price]. split.
    + rewrite Hu, transact_exact; rewrite ?Hbal.
      * ring.
      * auto using MarketFacts.opp_is_cents with ledger.
      * exact Hp.
      * replace (balance (Market.user st) - Market.price s + Market.price s)
          with (balance (Market.user st)) by ring.
        apply (Qcle_trans _ (Market.price s)); assumption.
    + rewrite MarketTradeFacts.without_delete.
      apply MarketTradeFacts.delete_snoc_last.
Qed.

Lemma X17_buy_then_sell_restores_the_balance_witness :
  let zomato := {| Market.symbol := "ZOMATO"; Market.price := ofZ 115 |} in
  let st := {| Market.user := initialUser; Market.stocks := [zomato];
               Market.portfolio := [] |} in
  balance (Market.user (Market.buyStock sampleClock zomato st)) = ofZ 885
  ∧ ∃ st', Market.sellStock sampleClock 0
             (Market.ticks [fun _ => Q2Qc (3 # 4)]
                (Market.buyStock sampleClock zomato st)) = Some st'
           ∧ balance (Market.user st') = ofZ 1000.
Proof.
  intros zomato st.
  destruct (X17_buy_then_sell_restores_the_balance sampleClock sampleClock
              zomato st [fun _ => Q2Qc (3 # 4)]) as [_ H].
  destruct H as (H1 & st' & H2 & H3 & _).
  - apply ofZ_is_cents.
  - apply ofZ_is_cents.
  - discriminate.
  - discriminate.
  - split; [etransitivity; [exact H1 | qc_compute] |].
    exists st'. split; [exact H2 | exact H3].
Defined.

Module MarketGameFacts.
Import Market MarketGame.

Lemma step_bought ev st :
  Forall (fun h => h_price h = buyPrice h) (portfolio st) →
  Forall (fun h => h_price h = buyPrice h) (portfolio (step ev st)).
Proof.
  intros H. destruct ev as [random|c k|c index]; cbn [step].
  - exact H.
  - unfold clickBuy. destruct (stocks st !! k) as [s|]; [| exact H].
    unfold buyStock. destruct (Qclt_le_dec _ _); [exact H |].
    cbn [portfolio]. apply Forall_app. split; [exact H |].
    repeat constructor.
  - unfold sellStock. destruct (portfolio st !! index) as [h|]; [| exact H].
    cbn [default portfolio]. rewrite MarketTradeFacts.without_delete.
    apply Forall_delete, H.
Qed.

Lemma play_bought evs st :
  Forall (fun h => h_price h = buyPrice h) (portfolio st) →
  Forall (fun h => h_price h = buyPrice h) (portfolio (play evs st)).
Proof.
  unfold play. revert st.
  induction evs as [|ev evs IH]; intros st H; simpl; [exact H |].
  apply IH, step_bought, H.
Qed.

End MarketGameFacts.

(** X18: a sale pays the price of the purchase.  Whatever is bought and
    sold and however the prices move, every holding keeps the price at which
    it was bought as its price; [sellStock] credits that price through
    [transact] and removes exactly the holding at the index, and for an index
    without a holding it fails and nothing changes. *)
Theorem X18_a_sale_pays_the_purchase_price :
  ∀ (evs : list MarketGame.Event) (st0 : Market.State) (c : Clock)
    (index : nat),
    Market.portfolio st0 = [] →
    let st := MarketGame.play evs st0 in
    Forall (fun h => Market.h_price h = Market.buyPrice h)
           (Market.portfolio st)
    ∧ match Market.portfolio st !! index with
      | None =>
          Market.sellStock c index st = None
          ∧ MarketGame.step (MarketGame.Sell c index) st = st
      | Some h =>
          ∃ st', Market.sellStock c index st = Some st'
                 ∧ Market.portfolio st' = delete index (Market.portfolio st)
                 ∧ S (length (Market.portfolio st'))
                   = length (Market.portfolio st)
                 ∧ Market.stocks st' = Market.stocks st
                 ∧ Market.user st'
                   = transact c (Market.buyPrice h)
                       (Market.stockOpts ("Sold " ++ Market.h_symbol h))
                       (Market.user st)
      end.
Proof.
  intros evs st0 c index H0 st.
  assert (Hb : Forall (fun h => Market.h_price h = Market.buyPrice h)
                      (Market.portfolio st)).
  { apply MarketGameFacts.play_bought. rewrite H0. constructor. }
  split; [exact Hb |].
  destruct (Market.portfolio st !! index) as [h|] eqn:E.
  - unfold Market.sellStock. rewrite E. eexists. split; [reflexivity |].
    cbn [Market.portfolio Market.stocks Market.user].
    rewrite MarketTradeFacts.without_delete.
    split; [reflexivity |]. split; [| split; [reflexivity |]].
    + rewrite length_delete by (rewrite E; eauto).
      apply lookup_lt_Some in E. lia.
    + rewrite Forall_forall in Hb.
      rewrite (Hb h) by (apply list_elem_of_lookup; eauto). reflexivity.
  - unfold MarketGame.step, Market.sellStock. rewrite E. split; reflexivity.
Qed.

Lemma X18_a_sale_pays_the_purchase_price_witness :
  let zomato := {| Market.symbol := "ZOMATO"; Market.price := ofZ 115 |} in
  let st0 := {| Market.user := initialUser; Market.stocks := [zomato];
                Market.portfolio := [] |} in
  let evs := [MarketGame.Buy sampleClock 0;
              MarketGame.Tick (fun _ => Q2Qc (3 # 4))] in
  Market.price <$> Market.stocks (MarketGame.play evs st0)
  = [Q2Qc (11615 # 100)]
  ∧ ∃ st', Market.sellStock sampleClock 0 (MarketGame.play evs st0) = Some st'
           ∧ Market.portfolio st' = []
           ∧ balance (Market.user st') = ofZ 1000.
Proof.
  intros zomato st0 evs.
  split; [cbn; apply (f_equal2 cons); [qc_compute | reflexivity] |].
  pose proof (X18_a_sale_pays_the_purchase_price evs st0 sampleClock 0
                eq_refl) as [_ H].
  cbn in H. destruct H as (st' & H1 & H2 & _ & _ & H4).
  exists st'. split; [exact H1 |]. split; [exact H2 |].
  rewrite H4. qc_compute.
Defined.

(** * Properties of the article quiz *)

Module ArticleFacts.
Import Articles.

Lemma rightAnswers_le quiz answers : (rightAnswers quiz answers ≤ length quiz)%nat.
Proof.
  revert answers. induction quiz as [|question quiz IH]; intros [|answer answers];
    simpl; try lia.
  specialize (IH answers). case_bool_decide; lia.
Qed.

(** From question [k] on, with as many answers as questions are left. *)
Lemma takeQuiz_from quiz answers (k sc : nat) (sel : option nat) :
  (k < length quiz)%nat →
  length answers = (length quiz - k)%nat →
  ∃ final,
    takeQuiz quiz answers
      {| index := k; score := sc; selected := sel; finished := false |}
    = Some (final, [(sc + rightAnswers (drop k quiz) answers)%nat])
    ∧ finished final = true
    ∧ score final = (sc + rightAnswers (drop k quiz) answers)%nat.
Proof.
  revert k sc sel. induction answers as [|answer answers IH];
    intros k sc sel Hk Hlen; [simpl in Hlen; lia |].
  destruct (lookup_lt_is_Some_2 quiz k Hk) as [question Hq].
  rewrite (drop_S _ _ _ Hq). cbn [takeQuiz finished rightAnswers].
  unfold handleSubmit, select. cbn [selected index score finished].
  rewrite Hq. cbn [length] in Hlen.
  destruct (Nat.ltb_spec (k + 1) (length quiz)) as [Hlt|Hge].
  - destruct (IH (k + 1)%nat
                (if bool_decide (answer = a question) then S sc else sc) None)
      as (final & E & Hf & Hs); [lia | lia |].
    replace (S k) with (k + 1)%nat by lia.
    rewrite E. exists final. cbn [option_list app].
    case_bool_decide; (split; [simpl; do 3 f_equal; lia |]);
      (split; [exact Hf | rewrite Hs; lia]).
  - destruct answers as [|? ?]; [| simpl in Hlen; lia].
    assert (E0 : rightAnswers (drop (S k) quiz) [] = 0%nat)
      by (destruct (drop (S k) quiz); reflexivity).
    rewrite E0, Nat.add_0_r. cbn [takeQuiz].
    exists {| index := k;
              score := if bool_decide (answer = a question) then S sc else sc;
              selected := Some answer; finished := true |}.
    split; [reflexivity |]. split; [reflexivity |].
    cbn [score]. case_bool_decide; lia.
Qed.

End ArticleFacts.

(** X19: a reader who answers every question of a quiz that has
    questions finishes it, and [onComplete] is called exactly once, with the
    number of right answers, which is also the final [score] and is at most
    the number of questions; Submit without a selected option does
    nothing. *)
Theorem X19_quiz_reports_the_right_answers :
  ∀ (quiz : list Articles.Question) (answers : list nat),
    quiz ≠ [] → length answers = length quiz →
    (∀ s, Articles.selected s = None →
          Articles.handleSubmit quiz s = Some (s, None))
    ∧ (Articles.rightAnswers quiz answers ≤ length quiz)%nat
    ∧ ∃ final,
        Articles.takeQuiz quiz answers Articles.fresh
        = Some (final, [Articles.rightAnswers quiz answers])
        ∧ Articles.finished final = true
        ∧ Articles.score final = Articles.rightAnswers quiz answers.
Proof.
  intros quiz answers Hne Hlen. split; [| split].
  - intros s Hs. unfold Articles.handleSubmit. rewrite Hs. reflexivity.
  - apply ArticleFacts.rightAnswers_le.
  - destruct (ArticleFacts.takeQuiz_from quiz answers 0 0 None)
      as (final & E & Hf & Hs).
    + destruct quiz; [congruence | simpl; lia].
    + lia.
    + exists final. rewrite drop_0 in *. cbn in E, Hs. auto.
Qed.

Lemma X19_quiz_reports_the_right_answers_witness :
  ∃ final,
    Articles.takeQuiz (Articles.quiz Articles.a1) [0; 0; 0]%nat Articles.fresh
    = Some (final, [2%nat])
    ∧ Articles.finished final = true.
Proof.
  destruct (X19_quiz_reports_the_right_answers (Articles.quiz Articles.a1)
              [0; 0; 0]%nat) as (_ & _ & final & H1 & H2 & _);
    [discriminate | reflexivity |].
  exists final. split; [exact H1 | exact H2].
Defined.

(** X20: [handleQuizComplete] pays and records only a score of 2 or
    more; a lower score changes neither the account nor the read history.
    The record is written on every pass although the reward is paid on the
    first one only: after passing the quiz of one article twice the history
    lists its reward twice and the account is as after the first pass. *)
Theorem X20_history_records_every_pass :
  ∀ (p : Articles.Page) (article : Articles.Article) (d1 d2 : string)
    (n1 n2 : nat),
    ((n1 < 2)%nat →
     Articles.user (Articles.handleQuizComplete d1 n1 article p)
     = Articles.user p
     ∧ Articles.readHistory (Articles.handleQuizComplete d1 n1 article p)
       = Articles.readHistory p)
    ∧ ((2 ≤ n1)%nat → (2 ≤ n2)%nat →
       let p1 := Articles.handleQuizComplete d1 n1 article p in
       let p2 := Articles.handleQuizComplete d2 n2 article p1 in
       Articles.user p1
       = markArticleRead (Articles.id article) (Articles.reward article)
           (Articles.user p)
       ∧ Articles.user p2 = Articles.user p1
       ∧ Articles.readHistory p2
         = Articles.readHistory p
           ++ [ {| Articles.r_id := Articles.id article;
                   Articles.r_title := Articles.title article;
                   Articles.r_date := d1;
                   Articles.r_reward := Articles.reward article |};
                {| Articles.r_id := Articles.id article;
                   Articles.r_title := Articles.title article;
                   Articles.r_date := d2;
                   Articles.r_reward := Articles.reward article |} ]).
Proof.
  intros p article d1 d2 n1 n2. unfold Articles.handleQuizComplete. split.
  - intros H. destruct (Nat.leb_spec 2 n1); [lia |]. split; reflexivity.
  - intros H1 H2.
    destruct (Nat.leb_spec 2 n1); [| lia].
    destruct (Nat.leb_spec 2 n2); [| lia].
    cbn [Articles.user Articles.readHistory].
    split; [reflexivity |]. split.
    + apply markArticleRead_read, markArticleRead_isRead.
    + rewrite <- app_assoc. reflexivity.
Qed.

Lemma X20_history_records_every_pass_witness :
  let p := {| Articles.user := initialUser; Articles.readHistory := [];
              Articles.showQuiz := true |} in
  let p2 := Articles.handleQuizComplete "2/1/2025" 3 Articles.a1
              (Articles.handleQuizComplete "1/1/2025" 2 Articles.a1 p) in
  balance (Articles.user p2) = ofZ 1050
  ∧ Articles.r_reward <$> Articles.readHistory p2 = [ofZ 50; ofZ 50].
Proof.
  intros p p2.
  destruct (X20_history_records_every_pass p Articles.a1
              "1/1/2025" "2/1/2025" 2 3) as [_ H].
  destruct (H ltac:(lia) ltac:(lia)) as (H1 & H2 & H3).
  unfold p2. rewrite H2, H1, H3. split; [qc_compute | reflexivity].
Defined.

(** X21: reading an article and answering its whole quiz credits the
    reward exactly when at least two answers are right and the article was
    not read before; with fewer right answers the account stays as it is,
    and after two or more the article is read. *)
Theorem X21_reward_needs_two_right_answers :
  ∀ (date : string) (article : Articles.Article) (answers : list nat)
    (p : Articles.Page),
    Articles.quiz article ≠ [] →
    length answers = length (Articles.quiz article) →
    ∃ p',
      Articles.readAndAnswer date article answers p = Some p'
      ∧ Articles.user p'
        = (if Nat.leb 2 (Articles.rightAnswers (Articles.quiz article) answers)
           then markArticleRead (Articles.id article)
                  (Articles.reward article) (Articles.user p)
           else Articles.user p)
      ∧ balance (Articles.user p')
        = (if Nat.leb 2 (Articles.rightAnswers (Articles.quiz article) answers)
              && negb (isRead (Articles.user p) (Articles.id article))
           then round2 (balance (Articles.user p) + Articles.reward article)
           else balance (Articles.user p)).
Proof.
  intros date article answers p Hne Hlen.
  destruct (ArticleFacts.takeQuiz_from (Articles.quiz article) answers 0 0 None)
    as (final & E & _); [destruct (Articles.quiz article); [congruence | simpl; lia] | lia |].
  rewrite drop_0 in E. cbn in E.
  unfold Articles.readAndAnswer. fold Articles.fresh in E. rewrite E.
  eexists. split; [reflexivity |]. cbn [foldl].
  unfold Articles.handleQuizComplete.
  destruct (Nat.leb 2 _); cbn [Articles.user andb]; [| split; reflexivity].
  split; [reflexivity |]. unfold markArticleRead.
  destruct (isRead (Articles.user p) (Articles.id article)); reflexivity.
Qed.

Lemma X21_reward_needs_two_right_answers_witness :
  let p := {| Articles.user := initialUser; Articles.readHistory := [];
              Articles.showQuiz := true |} in
  (∃ p', Articles.readAndAnswer "1/1/2025" Articles.a1 [0; 0; 0]%nat p
         = Some p' ∧ balance (Articles.user p') = ofZ 1050)
  ∧ (∃ p', Articles.readAndAnswer "1/1/2025" Articles.a1 [1; 1; 1]%nat p
           = Some p' ∧ balance (Articles.user p') = ofZ 1000).
Proof.
  intros p. split.
  - destruct (X21_reward_needs_two_right_answers "1/1/2025" Articles.a1
                [0; 0; 0]%nat p) as (p' & H1 & _ & H3);
      [discriminate | reflexivity |].
    exists p'. split; [exact H1 |]. rewrite H3. qc_compute.
  - destruct (X21_reward_needs_two_right_answers "1/1/2025" Articles.a1
                [1; 1; 1]%nat p) as (p' & H1 & _ & H3);
      [discriminate | reflexivity |].
    exists p'. split; [exact H1 |]. rewrite H3. qc_compute.
Defined.

(** * Properties of the story game *)

Module DreamLifeFacts.
Import DreamLife.

Lemma truthy_default (x : option Qc) :
  truthy x = None → default 0 x = 0.
Proof.
  unfold truthy. destruct x as [v|]; [| reflexivity].
  destruct (Qc_eq_dec v 0) as [->|]; [reflexivity | discriminate].
Qed.

Lemma truthy_Some (x : option Qc) k : truthy x = Some k → x = Some k.
Proof.
  unfold truthy. destruct x as [v|]; [| discriminate].
  destruct (Qc_eq_dec v 0); [discriminate | congruence].
Qed.

(** A choice whose cost is covered is taken. *)
Lemma handleChoice_taken c1 c2 choice st :
  (∀ k, truthy (cost choice) = Some k → k ≤ balance (user st)) →
  handleChoice c1 c2 choice st
  = {| user :=
         (let u1 := match truthy (cost choice) with
                    | Some k => transact c1 (- k) (labelled (label choice))
                                  (user st)
                    | None => user st
                    end in
          match truthy (income choice) with
          | Some k => transact c2 k (labelled (label choice)) u1
          | None => u1
          end);
       scene := scene st;
       stats :=
         {| s_happiness :=
              Z.max 0 (s_happiness (stats st) + or_zero (happiness choice));
            s_consistency :=
              Z.max 0 (s_consistency (stats st) + or_zero (consistency choice));
            s_wisdom :=
              Z.max 0 (s_wisdom (stats st) + or_zero (wisdom choice)) |};
       log := log st ++ [label choice];
       timers := timers st ++ [next choice] |}.
Proof.
  intros H. unfold handleChoice.
  destruct (truthy (cost choice)) as [k|]; [| reflexivity].
  destruct (Qclt_le_dec (balance (user st)) k) as [Hlt|_]; [| reflexivity].
  destruct (Qcle_not_lt _ _ (H k eq_refl) Hlt).
Qed.

(** The balance after a choice that is taken, for amounts in cents. *)
Lemma handleChoice_balance c1 c2 choice st :
  (∀ k, truthy (cost choice) = Some k → k ≤ balance (user st)) →
  is_cents (balance (user st)) →
  is_cents (default 0 (cost choice)) →
  is_cents (default 0 (income choice)) →
  0 ≤ default 0 (income choice) →
  0 ≤ balance (user st) →
  balance (user (handleChoice c1 c2 choice st))
  = balance (user st) - default 0 (cost choice) + default 0 (income choice).
Proof.
  intros Hcov Hb Hc Hi Hi0 Hb0. rewrite (handleChoice_taken _ _ _ _ Hcov).
  cbn [user].
  assert (H1 : let u1 := match truthy (cost choice) with
                         | Some k => transact c1 (- k)
                                       (labelled (label choice)) (user st)
                         | None => user st
                         end in
               balance u1 = balance (user st) - default 0 (cost choice)).
  { destruct (truthy (cost choice)) as [k|] eqn:E; cbn zeta.
    - pose proof (Hcov k eq_refl) as Hk.
      apply truthy_Some in E. rewrite E in Hc |- *.
      change (default 0 (Some k)) with k in *.
      rewrite transact_exact; [reflexivity | exact Hb | | ].
      + destruct Hc as [z ->]. exists (- z)%Z. rewrite ofZ_opp.
        field. discriminate.
      + qc_to_q. lra.
    - rewrite (truthy_default _ E). ring. }
  cbn zeta in H1.
  set (u1 := match truthy (cost choice) with
             | Some k => transact c1 (- k) (labelled (label choice)) (user st)
             | None => user st
             end) in *.
  assert (H1' : 0 ≤ balance u1).
  { rewrite H1. destruct (truthy (cost choice)) as [k|] eqn:E.
    - pose proof (Hcov k eq_refl) as Hk. apply truthy_Some in E.
      rewrite E. change (default 0 (Some k)) with k. qc_to_q. lra.
    - rewrite (truthy_default _ E). qc_to_q. lra. }
  destruct (truthy (income choice)) as [k|] eqn:E.
  - apply truthy_Some in E. rewrite E in Hi, Hi0 |- *.
    change (default 0 (Some k)) with k in *.
    rewrite transact_exact; [rewrite H1; reflexivity | | exact Hi | ].
    + rewrite H1. auto with ledger.
    + qc_to_q. lra.
  - rewrite (truthy_default _ E), H1. ring.
Qed.

End DreamLifeFacts.

(** X22: [handleChoice] refuses a choice whose cost exceeds the balance
    and then changes nothing at all.  A choice whose cost is covered is
    logged under its label and schedules one [nextScene]; no stat goes below
    zero; and with amounts in cents the balance becomes exactly the balance
    minus the cost plus the income, the clamp of [transact] never being
    reached. *)
Theorem X22_a_choice_is_paid_or_refused :
  ∀ (c1 c2 : Clock) (choice : DreamLife.Choice) (st : DreamLife.State),
    (∀ k, DreamLife.truthy (DreamLife.cost choice) = Some k →
          balance (DreamLife.user st) < k →
          DreamLife.handleChoice c1 c2 choice st = st)
    ∧ ((∀ k, DreamLife.truthy (DreamLife.cost choice) = Some k →
             k ≤ balance (DreamLife.user st)) →
       let st' := DreamLife.handleChoice c1 c2 choice st in
       DreamLife.log st' = DreamLife.log st ++ [DreamLife.label choice]
       ∧ DreamLife.timers st'
         = DreamLife.timers st ++ [DreamLife.next choice]
       ∧ DreamLife.scene st' = DreamLife.scene st
       ∧ (0 ≤ DreamLife.s_happiness (DreamLife.stats st'))%Z
       ∧ (0 ≤ DreamLife.s_consistency (DreamLife.stats st'))%Z
       ∧ (0 ≤ DreamLife.s_wisdom (DreamLife.stats st'))%Z
       ∧ (is_cents (balance (DreamLife.user st)) →
          0 ≤ balance (DreamLife.user st) →
          is_cents (default 0 (DreamLife.cost choice)) →
          is_cents (default 0 (DreamLife.income choice)) →
          0 ≤ default 0 (DreamLife.income choice) →
          balance (DreamLife.user st')
          = balance (DreamLife.user st) - default 0 (DreamLife.cost choice)
            + default 0 (DreamLife.income choice))).
Proof.
  intros c1 c2 choice st. split.
  - intros k Hk Hlt. unfold DreamLife.handleChoice. rewrite Hk.
    destruct (Qclt_le_dec _ _) as [_|Hle]; [reflexivity |].
    destruct (Qcle_not_lt _ _ Hle Hlt).
  - intros Hcov st'.
    assert (E : st' = DreamLife.handleChoice c1 c2 choice st) by reflexivity.
    rewrite (DreamLifeFacts.handleChoice_taken _ _ _ _ Hcov) in E.
    split; [rewrite E; reflexivity |]. split; [rewrite E; reflexivity |].
    split; [rewrite E; reflexivity |].
    split; [rewrite E; cbn; lia |]. split; [rewrite E; cbn; lia |].
    split; [rewrite E; cbn; lia |].
    intros Hb Hb0 Hc Hi Hi0.
    apply DreamLifeFacts.handleChoice_balance; assumption.
Qed.

Lemma X22_a_choice_is_paid_or_refused_witness :
  let breakfast := {| DreamLife.label := "Buy a good breakfast (₹50)";
                      DreamLife.cost := Some (ofZ 50);
                      DreamLife.income := None;
                      DreamLife.happiness := Some 2%Z;
                      DreamLife.consistency := None;
                      DreamLife.wisdom := None; DreamLife.next := None |} in
  balance (DreamLife.user
             (DreamLife.handleChoice sampleClock sampleClock breakfast
                (DreamLife.start initialUser))) = ofZ 950.
Proof.
  intros breakfast.
  destruct (X22_a_choice_is_paid_or_refused sampleClock sampleClock breakfast
              (DreamLife.start initialUser)) as [_ H].
  destruct H as (_ & _ & _ & _ & _ & _ & H).
  - intros k [= <-]. vm_compute. discriminate.
  - rewrite H.
    + qc_compute.
    + apply ofZ_is_cents.
    + discriminate.
    + apply ofZ_is_cents.
    + apply zero_is_cents.
    + apply Qcle_refl.
Defined.

Module DreamLifeStoryFacts.
Import DreamLife DreamLifeStory.

Ltac closed_leads :=
  unfold leads; cbn;
  repeat split;
  first [ apply ofZ_is_cents | apply zero_is_cents | discriminate
        | reflexivity | apply Qcle_refl ].

Lemma scene1_leads :
  ∃ sd, scenes 1 = Some sd ∧ summary sd = false ∧ length (choices sd) = 3%nat
        ∧ Forall (leads 1 2 (ofZ 50)) (choices sd).
Proof.
  eexists. split; [reflexivity |]. split; [reflexivity |].
  split; [reflexivity |]. repeat constructor; closed_leads.
Qed.

Lemma scene2_leads :
  ∃ sd, scenes 2 = Some sd ∧ summary sd = false ∧ length (choices sd) = 3%nat
        ∧ Forall (leads 2 3 (ofZ 200)) (choices sd).
Proof.
  eexists. split; [reflexivity |]. split; [reflexivity |].
  split; [reflexivity |]. repeat constructor; closed_leads.
Qed.

Lemma scene3_leads :
  ∃ sd, scenes 3 = Some sd ∧ summary sd = false ∧ length (choices sd) = 3%nat
        ∧ Forall (leads 3 4 (ofZ 0)) (choices sd).
Proof.
  eexists. split; [reflexivity |]. split; [reflexivity |].
  split; [reflexivity |]. repeat constructor; closed_leads.
Qed.

(** One round in a scene whose choices are all covered by the balance. *)
Lemma round_leads c1 c2 (k : nat) st sd n target most :
  scene st = n → scenes n = Some sd → summary sd = false →
  Forall (leads n target most) (choices sd) →
  (k < length (choices sd))%nat →
  timers st = [] →
  is_cents (balance (user st)) → most ≤ balance (user st) → 0 ≤ most →
  let st' := round c1 c2 k st in
  scene st' = target ∧ timers st' = []
  ∧ length (log st') = S (length (log st))
  ∧ is_cents (balance (user st'))
  ∧ balance (user st) - most ≤ balance (user st').
Proof.
  intros Hn Hsd Hsum Hall Hk Htm Hb Hmost Hmost0 st'.
  destruct (lookup_lt_is_Some_2 _ _ Hk) as [choice Hch].
  rewrite Forall_forall in Hall.
  destruct (Hall choice) as (Hc & Hc0 & Hcm & Hi & Hi0 & Hnext);
    [apply list_elem_of_lookup; eauto |].
  assert (Hcov : ∀ kc, truthy (cost choice) = Some kc → kc ≤ balance (user st)).
  { intros kc E. apply DreamLifeFacts.truthy_Some in E. rewrite E in Hcm.
    change (default 0 (Some kc)) with kc in Hcm.
    apply (Qcle_trans _ most); assumption. }
  assert (Hb0 : 0 ≤ balance (user st))
    by (apply (Qcle_trans _ most); assumption).
  assert (Hbal := DreamLifeFacts.handleChoice_balance c1 c2 choice st
                    Hcov Hb Hc Hi Hi0 Hb0).
  assert (E : st' = timeout (handleChoice c1 c2 choice st)).
  { unfold st', round, click. rewrite Hn, Hsd, Hsum, Hch. reflexivity. }
  rewrite (DreamLifeFacts.handleChoice_taken _ _ _ _ Hcov) in E, Hbal.
  rewrite Htm in E. unfold timeout in E. cbn in E.
  rewrite E. cbn [scene timers log user]. cbn [user] in Hbal.
  rewrite Hn, Hnext, length_app, Hbal. cbn [length].
  split; [reflexivity |]. split; [reflexivity |]. split; [lia |].
  split; [auto with ledger |]. qc_to_q. lra.
Qed.

End DreamLifeStoryFacts.

(** X23: the story ends at the summary.  With a balance (in cents) of at
    least 250, whichever of the three choices is clicked in each scene, one
    round at a time, the three rounds lead from scene 1 through scenes 2 and
    3 to scene 4: no choice is refused, no timer is left, the log holds the
    three labels, and at most 250 has been spent; scene 4 is the summary,
    where a click on a choice does nothing. *)
Theorem X23_the_story_reaches_the_summary :
  ∀ (u : UserAccount) (c1 c2 c3 c4 c5 c6 c7 c8 : Clock) (k1 k2 k3 k : nat),
    is_cents (balance u) → ofZ 250 ≤ balance u →
    (k1 < 3)%nat → (k2 < 3)%nat → (k3 < 3)%nat →
    let st := DreamLife.round c5 c6 k3
                (DreamLife.round c3 c4 k2
                   (DreamLife.round c1 c2 k1 (DreamLife.start u))) in
    DreamLife.scene st = 4%Z
    ∧ DreamLife.timers st = []
    ∧ length (DreamLife.log st) = 3%nat
    ∧ balance u - ofZ 250 ≤ balance (DreamLife.user st)
    ∧ DreamLife.click c7 c8 k st = st.
Proof.
  intros u c1 c2 c3 c4 c5 c6 c7 c8 k1 k2 k3 k Hb H250 Hk1 Hk2 Hk3 st.
  destruct DreamLifeStoryFacts.scene1_leads as (sd1 & E1 & S1 & L1 & A1).
  destruct DreamLifeStoryFacts.scene2_leads as (sd2 & E2 & S2 & L2 & A2).
  destruct DreamLifeStoryFacts.scene3_leads as (sd3 & E3 & S3 & L3 & A3).
  destruct (DreamLifeStoryFacts.round_leads c1 c2 k1 (DreamLife.start u)
              sd1 1 2 (ofZ 50) eq_refl E1 S1 A1)
    as (R1 & T1 & G1 & B1 & M1);
    [lia | reflexivity | exact Hb | | discriminate |].
  { cbn [DreamLife.start DreamLife.user]. qc_to_q. lra. }
  set (st1 := DreamLife.round c1 c2 k1 (DreamLife.start u)) in *.
  cbn [DreamLife.start DreamLife.user DreamLife.log length] in G1, M1.
  destruct (DreamLifeStoryFacts.round_leads c3 c4 k2 st1
              sd2 2 3 (ofZ 200) R1 E2 S2 A2)
    as (R2 & T2 & G2 & B2 & M2);
    [lia | exact T1 | exact B1 | | discriminate |].
  { qc_to_q. lra. }
  set (st2 := DreamLife.round c3 c4 k2 st1) in *.
  destruct (DreamLifeStoryFacts.round_leads c5 c6 k3 st2
              sd3 3 4 (ofZ 0) R2 E3 S3 A3)
    as (R3 & T3 & G3 & B3 & M3);
    [lia | exact T2 | exact B2 | | discriminate |].
  { qc_to_q. lra. }
  fold st in R3, T3, G3, B3, M3.
  split; [exact R3 |]. split; [exact T3 |]. split; [lia |].
  split; [qc_to_q; lra |].
  unfold DreamLife.click. rewrite R3. reflexivity.
Qed.

Lemma X23_the_story_reaches_the_summary_witness :
  let st := DreamLife.round sampleClock sampleClock 0
              (DreamLife.round sampleClock sampleClock 0
                 (DreamLife.round sampleClock sampleClock 0
                    (DreamLife.start initialUser))) in
  DreamLife.scene st = 4%Z
  ∧ balance (DreamLife.user st) = ofZ 1250
  ∧ DreamLife.stats st
    = {| DreamLife.s_happiness := 9; DreamLife.s_consistency := 5;
         DreamLife.s_wisdom := 7 |}.
Proof.
  intros st.
  destruct (X23_the_story_reaches_the_summary initialUser
              sampleClock sampleClock sampleClock sampleClock
              sampleClock sampleClock sampleClock sampleClock
              0 0 0 0) as (H & _);
    [apply ofZ_is_cents | discriminate | lia | lia | lia |].
  split; [exact H |]. split; [qc_compute | reflexivity].
Defined.

(** * Properties of the animated balance and of the quiz game *)

Module AnimatedFacts.
Import Animated.

Lemma dur_pos : 0 < / dur.
Proof. reflexivity. Qed.

Lemma elapsed_nonneg (d : Qc) : 0 ≤ d → 0 ≤ d / dur.
Proof.
  intros H. unfold Qcdiv. apply Qcmult_nonneg_nonneg; [exact H | discriminate].
Qed.

Lemma elapsed_done (d : Qc) : dur ≤ d → 1 ≤ d / dur.
Proof.
  intros H. replace 1 with (dur / dur) by qc_compute.
  unfold Qcdiv. apply Qcmult_le_compat_r; [exact H | discriminate].
Qed.

Lemma elapsed_running (d : Qc) : d < dur → d / dur < 1.
Proof.
  intros H. replace 1 with (dur / dur) by qc_compute.
  unfold Qcdiv. apply Qcmult_lt_compat_r; [apply dur_pos | exact H].
Qed.

Lemma pow3_unit (u : Qc) : 0 ≤ u → u ≤ 1 → 0 ≤ pow3 u ∧ pow3 u ≤ 1.
Proof.
  intros H0 H1. unfold pow3.
  assert (H2 : 0 ≤ u * u) by (apply Qcmult_nonneg_nonneg; assumption).
  assert (H3 : u * u ≤ 1).
  { apply (Qcle_trans _ (1 * u)).
    - apply Qcmult_le_compat_r; assumption.
    - rewrite Qcmult_1_l. exact H1. }
  split; [apply Qcmult_nonneg_nonneg; assumption |].
  apply (Qcle_trans _ (1 * u)).
  - apply Qcmult_le_compat_r; assumption.
  - rewrite Qcmult_1_l. exact H1.
Qed.

(** A share [e] between 0 and 1 of the way from [start] to [finish] is
    a point between the two. *)
Lemma share_between (start finish e : Qc) :
  0 ≤ e → e ≤ 1 → start ≤ finish →
  start ≤ start + (finish - start) * e
  ∧ start + (finish - start) * e ≤ finish.
Proof.
  intros H0 H1 Hsf.
  assert (Hd : 0 ≤ finish - start) by (qc_to_q; lra).
  assert (Hp0 : 0 ≤ (finish - start) * e)
    by (apply Qcmult_nonneg_nonneg; assumption).
  assert (Hp1 : (finish - start) * e ≤ (finish - start) * 1).
  { rewrite !(Qcmult_comm (finish - start)).
    apply Qcmult_le_compat_r; assumption. }
  rewrite Qcmult_1_r in Hp1.
  generalize dependent ((finish - start) * e). intros p Hp0 Hp1.
  qc_to_q. split; lra.
Qed.

Lemma eased_unit (t : Qc) :
  0 ≤ t → t ≤ 1 → 0 ≤ 1 - pow3 (1 - t) ∧ 1 - pow3 (1 - t) ≤ 1.
Proof.
  intros H0 H1.
  destruct (pow3_unit (1 - t)) as [Hu0 Hu1]; [qc_to_q; lra | qc_to_q; lra |].
  generalize dependent (pow3 (1 - t)). intros w Hw0 Hw1.
  qc_to_q. split; lra.
Qed.

Lemma eased_between (start finish t : Qc) :
  0 ≤ t → t ≤ 1 → start ≤ finish →
  start ≤ start + (finish - start) * (1 - pow3 (1 - t))
  ∧ start + (finish - start) * (1 - pow3 (1 - t)) ≤ finish.
Proof.
  intros H0 H1 Hsf. destruct (eased_unit t H0 H1) as [He0 He1].
  apply share_between; assumption.
Qed.

Lemma eased_between_down (start finish t : Qc) :
  0 ≤ t → t ≤ 1 → finish ≤ start →
  finish ≤ start + (finish - start) * (1 - pow3 (1 - t))
  ∧ start + (finish - start) * (1 - pow3 (1 - t)) ≤ start.
Proof.
  intros H0 H1 Hsf. destruct (eased_unit t H0 H1) as [He0 He1].
  destruct (share_between finish start (1 - (1 - pow3 (1 - t))))
    as [Ha Hb]; [| | exact Hsf |].
  - generalize dependent (1 - pow3 (1 - t)). intros e _ He1. qc_to_q. lra.
  - generalize dependent (1 - pow3 (1 - t)). intros e He0 _. qc_to_q. lra.
  - replace (start + (finish - start) * (1 - pow3 (1 - t)))
      with (finish + (start - finish) * (1 - (1 - pow3 (1 - t)))) by ring.
    split; assumption.
Qed.

Lemma Math_min_1 (e : Qc) :
  0 ≤ e → 0 ≤ Math_min 1 e ∧ Math_min 1 e ≤ 1.
Proof.
  intros H. unfold Math_min. destruct (Qclt_le_dec e 1) as [Hlt|Hge].
  - split; [exact H | apply Qclt_le_weak, Hlt].
  - split; [discriminate | apply Qcle_refl].
Qed.

Lemma Math_min_1_running (e : Qc) : e < 1 → Math_min 1 e = e.
Proof.
  intros H. unfold Math_min. destruct (Qclt_le_dec e 1) as [_|Hge];
    [reflexivity | destruct (Qcle_not_lt _ _ Hge H)].
Qed.

Lemma Math_min_1_done (e : Qc) : 1 ≤ e → Math_min 1 e = 1.
Proof.
  intros H. unfold Math_min. destruct (Qclt_le_dec e 1) as [Hlt|_];
    [destruct (Qcle_not_lt _ _ H Hlt) | reflexivity].
Qed.

End AnimatedFacts.

(** X24: a frame of the balance animation that comes 400 ms or more
    after the start displays the target, rounded to cents, and requests no
    further frame; an earlier frame requests another one; and no frame at or
    after the start displays a value outside the range between the rounded
    start and the rounded target: the animation never overshoots. *)
Theorem X24_the_animation_ends_on_the_target :
  ∀ (start finish startTime now : Qc),
    (startTime + Animated.dur ≤ now →
     Animated.step start finish startTime now = (round2 finish, false))
    ∧ (now < startTime + Animated.dur →
       snd (Animated.step start finish startTime now) = true)
    ∧ (startTime ≤ now →
       (start ≤ finish →
        round2 start ≤ fst (Animated.step start finish startTime now)
        ∧ fst (Animated.step start finish startTime now) ≤ round2 finish)
       ∧ (finish ≤ start →
          round2 finish ≤ fst (Animated.step start finish startTime now)
          ∧ fst (Animated.step start finish startTime now) ≤ round2 start)).
Proof.
  intros start finish startTime now. unfold Animated.step. split; [| split].
  - intros H.
    assert (He : 1 ≤ (now - startTime) / Animated.dur).
    { apply AnimatedFacts.elapsed_done. qc_to_q. lra. }
    rewrite (AnimatedFacts.Math_min_1_done _ He).
    destruct (Qclt_le_dec 1 1) as [Hlt|_]; [inversion Hlt |].
    f_equal. f_equal. unfold Animated.pow3. ring.
  - intros H.
    assert (He : (now - startTime) / Animated.dur < 1).
    { apply AnimatedFacts.elapsed_running. qc_to_q. lra. }
    rewrite (AnimatedFacts.Math_min_1_running _ He). cbn [snd].
    destruct (Qclt_le_dec _ 1) as [_|Hge];
      [reflexivity | destruct (Qcle_not_lt _ _ Hge He)].
  - intros H. cbn [fst].
    assert (He : 0 ≤ (now - startTime) / Animated.dur).
    { apply AnimatedFacts.elapsed_nonneg. qc_to_q. lra. }
    destruct (AnimatedFacts.Math_min_1 _ He) as [Ht0 Ht1].
    split; intros Hsf.
    + destruct (AnimatedFacts.eased_between start finish _ Ht0 Ht1 Hsf).
      split; apply round2_le; assumption.
    + destruct (AnimatedFacts.eased_between_down start finish _ Ht0 Ht1 Hsf).
      split; apply round2_le; assumption.
Qed.

(** From 1000 to 1050: half-way through, at 200 ms, the display is
    1043.75, and at 400 ms it is 1050. *)
Lemma X24_the_animation_ends_on_the_target_witness :
  Animated.step (ofZ 1000) (ofZ 1050) 0 (ofZ 200)
  = (Q2Qc (104375 # 100), true)
  ∧ Animated.step (ofZ 1000) (ofZ 1050) 0 (ofZ 400) = (ofZ 1050, false).
Proof.
  destruct (X24_the_animation_ends_on_the_target
              (ofZ 1000) (ofZ 1050) 0 (ofZ 400)) as [H _].
  split.
  - unfold Animated.step.
    apply (f_equal2 pair); [qc_compute | vm_compute; reflexivity].
  - rewrite H by discriminate.
    apply (f_equal2 pair); [qc_compute | reflexivity].
Defined.

Module MCQFacts.
Import MCQ.

Lemma transact_log_grows c amount o u :
  (length (transactions (transact c amount o u)) ≤ S (length (transactions u)))%nat.
Proof.
  rewrite transact_transactions, slice_last_length, length_app. cbn [length]. lia.
Qed.

(** After [n] timeouts at most [n] entries are written, and one more
    while the buttons are locked. *)
Lemma step_entries ev st (n0 n : nat) :
  (length (transactions (user st)) ≤ n0 + n + (if locked st then 1 else 0))%nat →
  (length (transactions (user (step ev st)))
   ≤ n0 + (n + match ev with Timeout => 1 | _ => 0 end)
     + (if locked (step ev st) then 1 else 0))%nat.
Proof.
  intros H. destruct ev as [idx|c|]; cbn [step].
  - unfold select. destruct (locked st) eqn:E; cbn [user locked];
      rewrite ?E; lia.
  - unfold submit. destruct (locked st) eqn:E; [rewrite E; lia |].
    destruct (sel st) as [s|]; [| rewrite E; lia].
    destruct (qs !! i st) as [a|]; cbn [user locked]; [| lia].
    case_bool_decide;
      (etransitivity; [apply transact_log_grows | lia]).
  - unfold timeout. destruct (timers st); cbn [user locked];
      destruct (locked st); lia.
Qed.

Lemma step_index ev st :
  (i st < length qs)%nat ∧ timers st = (if locked st then 1 else 0)%nat →
  (i (step ev st) < length qs)%nat
  ∧ timers (step ev st) = (if locked (step ev st) then 1 else 0)%nat.
Proof.
  intros [Hi Ht]. destruct ev as [idx|c|]; cbn [step].
  - unfold select. destruct (locked st) eqn:E; cbn [i timers locked];
      rewrite ?E; auto.
  - unfold submit. destruct (locked st) eqn:E; [rewrite E; auto |].
    destruct (sel st) as [s|]; [| rewrite E; auto].
    destruct (lookup_lt_is_Some_2 _ _ Hi) as [a Ha]. rewrite Ha.
    cbn [i timers locked]. split; [exact Hi | lia].
  - unfold timeout. destruct (timers st) as [|n] eqn:E;
      [split; [exact Hi | rewrite E; exact Ht] |].
    cbn [i timers locked]. split.
    + apply Nat.mod_upper_bound. discriminate.
    + destruct (locked st); lia.
Qed.

Lemma play_index evs st :
  (i st < length qs)%nat ∧ timers st = (if locked st then 1 else 0)%nat →
  (i (play evs st) < length qs)%nat
  ∧ timers (play evs st) = (if locked (play evs st) then 1 else 0)%nat.
Proof.
  unfold play. revert st.
  induction evs as [|ev evs IH]; intros st H; simpl; [exact H |].
  apply IH, step_index, H.
Qed.

Lemma play_entries evs st (n0 n : nat) :
  (length (transactions (user st)) ≤ n0 + n + (if locked st then 1 else 0))%nat →
  (length (transactions (user (play evs st)))
   ≤ n0 + (n + length (List.filter
                         (fun ev => match ev with Timeout => true | _ => false end)
                         evs))
     + (if locked (play evs st) then 1 else 0))%nat.
Proof.
  unfold play. revert st n.
  induction evs as [|ev evs IH]; intros st n H; simpl.
  - rewrite Nat.add_0_r. exact H.
  - apply (step_entries ev) in H. apply IH in H.
    destruct ev; cbn [List.filter length] in *; lia.
Qed.

End MCQFacts.

(** X25: in the quiz game a second click on Submit pays nothing: the
    first one locks the buttons until its timeout.  So however the buttons
    are clicked, the game writes at most one entry for each timeout that has
    run and one more; the index of the question stays inside the three
    questions, and a timeout is pending exactly while the buttons are
    locked. *)
Theorem X25_submit_pays_once_a_round :
  ∀ (evs : list MCQ.Event) (u : UserAccount) (c c' : Clock),
    let st := MCQ.play evs (MCQ.start u) in
    MCQ.submit c' (MCQ.submit c st) = MCQ.submit c st
    ∧ (MCQ.i st < length MCQ.qs)%nat
    ∧ MCQ.timers st = (if MCQ.locked st then 1 else 0)%nat
    ∧ (length (transactions (MCQ.user st))
       ≤ length (transactions u) + MCQ.rounds evs)%nat.
Proof.
  intros evs u c c' st. split; [| split; [| split]].
  - unfold MCQ.submit at 2 3. destruct (MCQ.locked st) eqn:E.
    + unfold MCQ.submit. rewrite E. reflexivity.
    + destruct (MCQ.sel st) as [s|] eqn:Es.
      * destruct (MCQ.qs !! MCQ.i st); reflexivity.
      * unfold MCQ.submit. rewrite E, Es. reflexivity.
  - apply MCQFacts.play_index. cbn. split; [lia | reflexivity].
  - apply MCQFacts.play_index. cbn. split; [lia | reflexivity].
  - unfold MCQ.rounds.
    pose proof (MCQFacts.play_entries evs (MCQ.start u)
                  (length (transactions u)) 0) as H.
    fold st in H. cbn [MCQ.start MCQ.user MCQ.locked] in H.
    specialize (H ltac:(lia)). destruct (MCQ.locked st); lia.
Qed.

(** * Properties of the local cache *)

Module JSONFacts.
Import JSON.

(** *** Texts *)

Lemma append_nil_l (s : string) : EmptyString +:+ s = s.
Proof. reflexivity. Qed.

Lemma append_cons (c : ascii) (s t : string) :
  String c s +:+ t = String c (s +:+ t).
Proof. reflexivity. Qed.

Lemma append_nil_r (s : string) : s +:+ EmptyString = s.
Proof.
  induction s as [|c s IH]; [reflexivity |].
  rewrite append_cons, IH. reflexivity.
Qed.

Lemma append_assoc (s t u : string) : (s +:+ t) +:+ u = s +:+ (t +:+ u).
Proof.
  induction s as [|c s IH]; [reflexivity |].
  rewrite !append_cons, IH. reflexivity.
Qed.

Lemma length_append (s t : string) :
  String.length (s +:+ t) = (String.length s + String.length t)%nat.
Proof.
  induction s as [|c s IH]; [reflexivity |].
  rewrite append_cons. simpl. rewrite IH. reflexivity.
Qed.

(** *** Digits *)

Lemma code_digit (n : N) : (n < 10)%N → code (digit n) = (48 + n)%N.
Proof.
  intros H. unfold code, digit. apply N_ascii_embedding. lia.
Qed.

Lemma is_digit_digit (n : N) : (n < 10)%N → is_digit (digit n) = true.
Proof.
  intros H. unfold is_digit. rewrite code_digit by exact H.
  apply andb_true_intro. split; apply N.leb_le; lia.
Qed.

Lemma read_digits_digit (n : N) (s : string) (acc : N) (cnt : nat) :
  (n < 10)%N →
  read_digits (String (digit n) s) acc cnt
  = read_digits s (10 * acc + n)%N (S cnt).
Proof.
  intros H. cbn [read_digits]. rewrite is_digit_digit, code_digit by exact H.
  do 2 f_equal. lia.
Qed.

Lemma read_digits_stop (s : string) (acc : N) (cnt : nat) :
  no_digit s → read_digits s acc cnt = (acc, cnt, s).
Proof.
  destruct s as [|c s]; [reflexivity |].
  intros H. cbn in H. cbn [read_digits]. rewrite H. reflexivity.
Qed.

(** Reading back the digits of [n]. *)
Lemma read_N_digits (fuel : nat) :
  ∀ (n : N) (rest : string) (acc : N) (cnt : nat),
    (n < 10 ^ N.of_nat fuel)%N →
    read_digits (N_digits fuel n +:+ rest) acc cnt
    = read_digits rest
        (acc * 10 ^ N.of_nat (String.length (N_digits fuel n)) + n)%N
        (cnt + String.length (N_digits fuel n))%nat.
Proof.
  induction fuel as [|fuel IH]; intros n rest acc cnt Hn.
  - cbn in Hn. assert (n = 0%N) as -> by lia.
    cbn [N_digits String.length]. rewrite append_nil_l.
    f_equal; [| lia]. cbn. lia.
  - cbn [N_digits].
    assert (Hd : (n mod 10 < 10)%N) by (apply N.mod_lt; discriminate).
    destruct (N.ltb_spec n 10) as [Hlt|Hge].
    + rewrite append_nil_l, append_cons, append_nil_l.
      rewrite read_digits_digit by exact Hd.
      rewrite N.mod_small by exact Hlt.
      cbn [String.length]. f_equal; [| lia].
      change (N.of_nat 1) with 1%N. rewrite N.pow_1_r. lia.
    + rewrite append_assoc, append_cons, append_nil_l.
      rewrite IH.
      2:{ apply N.Div0.div_lt_upper_bound.
          rewrite <- N.pow_succ_r'. rewrite <- Nat2N.inj_succ. exact Hn. }
      rewrite read_digits_digit by exact Hd.
      rewrite length_append. cbn [String.length].
      f_equal; [| lia].
      rewrite Nat2N.inj_add. change (N.of_nat 1) with 1%N.
      rewrite N.pow_add_r, N.pow_1_r.
      pose proof (N.div_mod n 10 ltac:(discriminate)) as E.
      lia.
Qed.

Lemma N_toString_fuel (n : N) : (n < 10 ^ N.of_nat (S (N.to_nat (N.size n))))%N.
Proof.
  rewrite Nat2N.inj_succ, N2Nat.id.
  pose proof (N.size_gt n) as H.
  assert (2 ^ N.size n <= 10 ^ N.size n)%N
    by (apply N.pow_le_mono_l; lia).
  rewrite N.pow_succ_r'. 
  assert (0 < 10 ^ N.size n)%N by (apply N.neq_0_lt_0, N.pow_nonzero; discriminate).
  lia.
Qed.

(** The first digit of a number that is not zero is not a zero. *)
Lemma N_digits_head (fuel : nat) :
  ∀ n : N, (0 < n)%N → (n < 10 ^ N.of_nat fuel)%N →
    ∃ c t, N_digits fuel n = String c t
           ∧ is_digit c = true ∧ code c ≠ 48%N.
Proof.
  induction fuel as [|fuel IH]; intros n Hpos Hn.
  - cbn in Hn. lia.
  - cbn [N_digits].
    assert (Hd : (n mod 10 < 10)%N) by (apply N.mod_lt; discriminate).
    destruct (N.ltb_spec n 10) as [Hlt|Hge].
    + rewrite append_nil_l. eexists _, _. split; [reflexivity |].
      rewrite is_digit_digit, code_digit by exact Hd.
      rewrite N.mod_small by exact Hlt. split; [reflexivity | lia].
    + destruct (IH (n / 10)%N) as (c & t & E & H1 & H2).
      * apply N.div_str_pos. lia.
      * apply N.Div0.div_lt_upper_bound.
        rewrite <- N.pow_succ_r'. rewrite <- Nat2N.inj_succ. exact Hn.
      * rewrite E, append_cons. eexists _, _. split; [reflexivity |].
        split; assumption.
Qed.

Lemma N_toString_0 : N_toString 0 = "0"%string.
Proof. reflexivity. Qed.

(** The digits after the point read back to the fraction. *)
Lemma read_fraction_digits (d : N) (fuel : nat) :
  ∀ (r : N) (rest : string) (acc : N) (cnt : nat),
    (r < d)%N → (d | r * 10 ^ N.of_nat fuel)%N → no_digit rest →
    ∃ (A : N) (k : nat),
      read_digits (fraction_digits fuel r d +:+ rest) acc cnt
      = (A, (cnt + k)%nat, rest)
      ∧ (A * d = (acc * d + r) * 10 ^ N.of_nat k)%N
      ∧ (r ≠ 0%N → (0 < k)%nat).
Proof.
  induction fuel as [|fuel IH]; intros r rest acc cnt Hr Hdiv Hrest.
  - cbn in Hdiv. rewrite N.mul_1_r in Hdiv.
    assert (r = 0%N) as ->.
    { destruct Hdiv as [x Hx]. destruct x; [lia |]. nia. }
    exists acc, 0%nat. cbn [fraction_digits]. rewrite append_nil_l.
    rewrite read_digits_stop by exact Hrest.
    split; [f_equal; f_equal; lia |]. split; [cbn; lia | congruence].
  - cbn [fraction_digits]. destruct (N.eqb_spec r 0) as [->|Hne].
    + exists acc, 0%nat. rewrite append_nil_l.
      rewrite read_digits_stop by exact Hrest.
      split; [f_equal; f_equal; lia |]. split; [cbn; lia | congruence].
    + assert (Hd0 : d ≠ 0%N) by lia.
      assert (Hx : (10 * r / d < 10)%N)
        by (apply N.Div0.div_lt_upper_bound; lia).
      rewrite append_cons, read_digits_digit by exact Hx.
      pose proof (N.div_mod (10 * r) d Hd0) as Edm.
      destruct (IH ((10 * r) mod d)%N rest (10 * acc + 10 * r / d)%N (S cnt))
        as (A & k & E & HA & _).
      * apply N.mod_lt, Hd0.
      * destruct Hdiv as [x Hx'].
        rewrite Nat2N.inj_succ, N.pow_succ_r' in Hx'.
        exists (x - (10 * r / d) * 10 ^ N.of_nat fuel)%N.
        revert Edm Hx'. generalize (10 * r / d)%N ((10 * r) mod d)%N
                                   (10 ^ N.of_nat fuel)%N.
        intros q m P Edm Hx'.
        assert (H1 : (m * P + q * P * d = x * d)%N) by nia.
        assert (H2 : (q * P <= x)%N).
        { apply (N.mul_le_mono_pos_r _ _ d); lia. }
        rewrite N.mul_sub_distr_r. lia.
      * exact Hrest.
      * exists A, (S k). rewrite E. split; [f_equal; f_equal; lia |].
        split; [| lia].
        rewrite Nat2N.inj_succ, N.pow_succ_r'. rewrite HA. nia.
Qed.

End JSONFacts.

Module JSONNumberFacts.
Import JSON JSONFacts.

Lemma closed_no_digit s : closed s → no_digit s.
Proof.
  destruct s as [|c s]; [trivial |]. cbn. unfold is_digit.
  intros [-> | [-> | ->]]; reflexivity.
Qed.

Lemma closed_skip_space s : closed s → skip_space s = s.
Proof.
  destruct s as [|c s]; [reflexivity |]. cbn. unfold is_space.
  intros [-> | [-> | ->]]; reflexivity.
Qed.

Lemma closed_read_exponent s : closed s → read_exponent s = Some (None, s).
Proof.
  destruct s as [|c s]; [reflexivity |]. cbn.
  intros [-> | [-> | ->]]; reflexivity.
Qed.

(** The whole part of a number reads back. *)
Lemma read_whole (w : N) (tail : string) :
  no_digit tail →
  ∃ c t k, N_toString w +:+ tail = String c t
           ∧ is_digit c = true
           ∧ (if (code c =? 48)%N then (0%N, 1%nat, t)
              else read_digits (String c t) 0%N 0%nat) = (w, k, tail).
Proof.
  intros Htail. destruct (N.eq_dec w 0%N) as [->|Hw].
  - exists "0"%char, tail, 1%nat. repeat split.
  - destruct (N_digits_head _ w ltac:(lia) (N_toString_fuel w))
      as (c & t & E & Hc & H48).
    exists c, (t +:+ tail), (String.length (N_toString w)).
    unfold N_toString at 1. rewrite E, append_cons.
    split; [reflexivity |]. split; [exact Hc |].
    apply N.eqb_neq in H48. rewrite H48.
    rewrite <- append_cons, <- E.
    rewrite (read_N_digits _ _ _ _ _ (N_toString_fuel w)).
    rewrite read_digits_stop by exact Htail. reflexivity.
Qed.

Lemma Qdiv_inject (a b c : Z) (d : positive) :
  (0 < b)%Z → (a * Zpos d = c * b)%Z →
  (inject_Z a / inject_Z b == c # d)%Q.
Proof.
  intros Hb E. destruct b as [|p|p]; try lia.
  unfold Qeq, Qdiv, Qmult, Qinv, inject_Z. cbn. lia.
Qed.

(** The number that the digits [A], with [k] of them after the point,
    stand for. *)
Lemma Q2Qc_digits (q : Qc) (A : N) (k : nat) :
  (A * Npos (Qden q) = Z.abs_N (Qnum q) * 10 ^ N.of_nat k)%N →
  Q2Qc (if (Qnum q <? 0)%Z
        then - (inject_Z (Z.of_N A) / inject_Z (10 ^ Z.of_nat k))
        else inject_Z (Z.of_N A) / inject_Z (10 ^ Z.of_nat k))%Q
  = q.
Proof.
  intros E. apply Qc_is_canon. cbn [this Q2Qc]. rewrite Qred_correct.
  apply (f_equal Z.of_N) in E.
  rewrite !N2Z.inj_mul, N2Z.inj_pow, N2Z.inj_abs_N, nat_N_Z in E.
  cbn [Z.of_N] in E.
  assert (HT : (0 < 10 ^ Z.of_nat k)%Z) by (apply Z.pow_pos_nonneg; lia).
  destruct q as [[qn qd] Hcanon]. cbn [this Qnum Qden] in *.
  destruct (Z.ltb_spec qn 0) as [Hneg|Hpos].
  - rewrite (Qdiv_inject _ _ (- qn) qd HT) by lia.
    unfold Qeq, Qopp. cbn. lia.
  - apply (Qdiv_inject _ _ _ _ HT). lia.
Qed.

(** [JSON.parse] reads the text of a number back to the number. *)
Lemma number_toString (q : Qc) (rest : string) :
  decimal q → closed rest →
  number (Number_toString q +:+ rest) = Some (q, rest).
Proof.
  intros Hdec Hrest. unfold Number_toString. rewrite !append_assoc.
  set (n := Z.abs_N (Qnum q)). set (d := Npos (Qden q)).
  assert (Hd : d ≠ 0%N) by discriminate.
  pose proof (N.div_mod n d Hd) as Edm.
  set (tail := (if (n mod d =? 0)%N then EmptyString
                else String "." (fraction_digits 20 (n mod d) d)) +:+ rest).
  assert (Htail : no_digit tail).
  { unfold tail. destruct (n mod d =? 0)%N.
    - rewrite append_nil_l. apply closed_no_digit, Hrest.
    - rewrite append_cons. reflexivity. }
  destruct (read_whole (n / d) tail Htail) as (c & t & k0 & E & Hc & Hw).
  assert (Hmain :
    ∀ neg : bool, neg = (Qnum q <? 0)%Z →
      (let '(whole, _, s2) :=
         if (code c =? 48)%N then (0%N, 1%nat, t)
         else read_digits (String c t) 0%N 0%nat in
       let mantissa : option (N * nat * string) :=
         match s2 with
         | String p t2 =>
             if (code p =? 46)%N then
               let '(m, k, s3) := read_digits t2 whole 0%nat in
               match k with
               | O => None
               | S _ => Some (m, k, s3)
               end
             else Some (whole, 0%nat, s2)
         | EmptyString => Some (whole, 0%nat, s2)
         end in
       match mantissa with
       | None => None
       | Some (m, k, s3) =>
           let q0 : Q :=
             (inject_Z (Z.of_N m) / inject_Z (10 ^ Z.of_nat k))%Q in
           let q0 : Q := if neg : bool then Qopp q0 else q0 in
           match read_exponent s3 with
           | None => None
           | Some (None, rest) => Some (Q2Qc q0, rest)
           | Some (Some e, rest) =>
               Some (Q2Qc (q0 * Qpower (inject_Z 10) e)%Q, rest)
           end
       end) = Some (q, rest)).
  { intros neg ->. rewrite Hw. unfold tail.
    destruct (N.eqb_spec (n mod d)%N 0%N) as [E0|E0].
    - rewrite append_nil_l.
      assert (Em : match rest with
                   | String p t2 =>
                       if (code p =? 46)%N then
                         let '(m, k, s3) := read_digits t2 (n / d)%N 0%nat in
                         match k with
                         | O => None
                         | S _ => Some (m, k, s3)
                         end
                       else Some ((n / d)%N, 0%nat, rest)
                   | EmptyString => Some ((n / d)%N, 0%nat, rest)
                   end = Some ((n / d)%N, 0%nat, rest)).
      { destruct rest as [|p t2]; [reflexivity |]. cbn in Hrest.
        destruct Hrest as [-> | [-> | ->]]; reflexivity. }
      rewrite Em. cbv zeta. rewrite (closed_read_exponent _ Hrest).
      f_equal. f_equal. apply Q2Qc_digits. fold n d.
      change (N.of_nat 0) with 0%N. rewrite N.pow_0_r. lia.
    - rewrite append_cons. cbv beta iota.
      change (code "." =? 46)%N with true. cbv iota.
      destruct (read_fraction_digits d 20 (n mod d) rest (n / d)%N 0%nat)
        as (A & k & ER & HA & Hk).
      + apply N.mod_lt, Hd.
      + destruct Hdec as [x Hx]. fold d in Hx.
        exists (x * (n mod d))%N. change (N.of_nat 20) with 20%N.
        rewrite Hx. ring.
      + apply closed_no_digit, Hrest.
      + rewrite ER. specialize (Hk E0). destruct k as [|k]; [lia |].
        cbn [Nat.add]. cbv zeta. rewrite (closed_read_exponent _ Hrest).
        f_equal. f_equal. apply Q2Qc_digits. fold n d. lia. }
  destruct (Z.ltb_spec (Qnum q) 0) as [Hneg|Hpos].
  - rewrite append_cons, append_nil_l. rewrite E.
    unfold number. change (code "-" =? 45)%N with true. cbv iota.
    rewrite Hc. apply (Hmain true). reflexivity.
  - rewrite append_nil_l. rewrite E.
    unfold number.
    assert (H45 : (code c =? 45)%N = false).
    { apply N.eqb_neq. intros H45. unfold is_digit in Hc. rewrite H45 in Hc.
      discriminate. }
    rewrite H45, Hc. apply (Hmain false). reflexivity.
Qed.

End JSONNumberFacts.

Module JSONStringFacts.
Import JSON JSONFacts JSONNumberFacts.

Lemma string_body_backslash (e : ascii) (s : string) :
  string_body (String "\" (String e s))
  = if (code e =? 117)%N then
      match s with
      | String h1 (String h2 (String h3 (String h4 s4))) =>
          match hex_value h1, hex_value h2, hex_value h3, hex_value h4 with
          | Some a, Some b, Some c', Some d =>
              let u := (((a * 16 + b) * 16 + c') * 16 + d)%N in
              if (u <? 256)%N
              then cons_char (ascii_of_N u) (string_body s4)
              else None
          | _, _, _, _ => None
          end
      | _ => None
      end
    else
      match unescape e with
      | Some x => cons_char x (string_body s)
      | None => None
      end.
Proof. reflexivity. Qed.

Lemma string_body_plain (c : ascii) (s : string) :
  code c ≠ 34%N → code c ≠ 92%N → (32 <= code c)%N →
  string_body (String c s) = cons_char c (string_body s).
Proof.
  intros H1 H2 H3. cbn [string_body]. cbv zeta.
  apply N.eqb_neq in H1, H2. rewrite H1, H2.
  replace (code c <? 32)%N with false by (symmetry; apply N.ltb_ge, H3).
  reflexivity.
Qed.

Lemma hex_value_hex_digit (n : N) :
  (n < 16)%N → hex_value (hex_digit n) = Some n.
Proof.
  intros H. unfold hex_value, hex_digit, code.
  destruct (N.ltb_spec n 10) as [H10|H10].
  - rewrite N_ascii_embedding by lia.
    replace (48 <=? 48 + n)%N with true by (symmetry; apply N.leb_le; lia).
    replace (48 + n <=? 57)%N with true by (symmetry; apply N.leb_le; lia).
    cbn [andb]. f_equal. lia.
  - rewrite N_ascii_embedding by lia.
    replace (87 + n <=? 57)%N with false by (symmetry; apply N.leb_gt; lia).
    rewrite andb_false_r.
    replace (97 <=? 87 + n)%N with true by (symmetry; apply N.leb_le; lia).
    replace (87 + n <=? 102)%N with true by (symmetry; apply N.leb_le; lia).
    cbn [andb]. f_equal. lia.
Qed.

Lemma string_body_u00 (n : N) (s : string) :
  (n < 256)%N →
  string_body
    (String "\" (String "u" (String "0" (String "0"
       (String (hex_digit (n / 16)) (String (hex_digit (n mod 16)) s))))))
  = cons_char (ascii_of_N n) (string_body s).
Proof.
  intros H. rewrite string_body_backslash.
  change (code "u" =? 117)%N with true. cbv iota.
  change (hex_value "0") with (Some 0%N).
  rewrite !hex_value_hex_digit
    by (first [apply N.mod_lt; discriminate
              | apply N.Div0.div_lt_upper_bound; exact H]).
  cbv iota zeta.
  replace ((((0 * 16 + 0) * 16 + n / 16) * 16 + n mod 16))%N with n
    by (pose proof (N.div_mod n 16 ltac:(discriminate)); lia).
  replace (n <? 256)%N with true by (symmetry; apply N.ltb_lt, H).
  reflexivity.
Qed.

Lemma code_inj (c : ascii) (n : N) : code c = n → c = ascii_of_N n.
Proof. intros <-. symmetry. apply ascii_N_embedding. Qed.

Lemma string_body_escape_char (c : ascii) (X : string) :
  string_body (escape_char c +:+ X) = cons_char c (string_body X).
Proof.
  unfold escape_char. cbv zeta.
  assert (Hb : (code c < 256)%N) by apply N_ascii_bounded.
  destruct (N.eqb_spec (code c) 34) as [E|N34];
    [rewrite (code_inj c _ E); reflexivity |].
  destruct (N.eqb_spec (code c) 92) as [E|N92];
    [rewrite (code_inj c _ E); reflexivity |].
  destruct (N.eqb_spec (code c) 8) as [E|N8];
    [rewrite (code_inj c _ E); reflexivity |].
  destruct (N.eqb_spec (code c) 12) as [E|N12];
    [rewrite (code_inj c _ E); reflexivity |].
  destruct (N.eqb_spec (code c) 10) as [E|N10];
    [rewrite (code_inj c _ E); reflexivity |].
  destruct (N.eqb_spec (code c) 13) as [E|N13];
    [rewrite (code_inj c _ E); reflexivity |].
  destruct (N.eqb_spec (code c) 9) as [E|N9];
    [rewrite (code_inj c _ E); reflexivity |].
  destruct (N.ltb_spec (code c) 32) as [Hlt|Hge].
  - rewrite !append_cons, append_nil_l.
    rewrite (string_body_u00 (code c) X Hb).
    unfold code. rewrite ascii_N_embedding. reflexivity.
  - rewrite append_cons, append_nil_l.
    apply string_body_plain; assumption.
Qed.

(** [JSON.parse] reads a quoted string back to the string. *)
Lemma string_body_escape (s rest : string) :
  string_body (escape s +:+ String quote rest) = Some (s, rest).
Proof.
  induction s as [|c s IH].
  - reflexivity.
  - cbn [escape]. rewrite append_assoc, string_body_escape_char, IH.
    reflexivity.
Qed.

Lemma QuoteJSONString_append (s rest : string) :
  QuoteJSONString s +:+ rest = String quote (escape s +:+ String quote rest).
Proof.
  unfold QuoteJSONString. rewrite append_cons, append_assoc, append_cons.
  reflexivity.
Qed.

(** *** The first character of a text *)

Lemma Number_toString_head (q : Qc) (rest : string) :
  ∃ c t, Number_toString q +:+ rest = String c t
         ∧ (is_digit c = true ∨ code c = 45%N).
Proof.
  unfold Number_toString. rewrite !append_assoc.
  destruct (Qnum q <? 0)%Z.
  - rewrite append_cons. eexists _, _. split; [reflexivity |]. right. reflexivity.
  - rewrite append_nil_l.
    destruct (read_whole (Z.abs_N (Qnum q) / N.pos (Qden q))
                "."%string eq_refl) as (c & t & _ & E & Hc & _).
    destruct (N_toString (Z.abs_N (Qnum q) / N.pos (Qden q))) as [|c' t'] eqn:E'.
    + rewrite append_nil_l in E. injection E as <- _. discriminate Hc.
    + rewrite append_cons in E. injection E as <- _.
      rewrite append_cons. eexists _, _. split; [reflexivity |]. left. exact Hc.
Qed.

Lemma digit_or_minus_opening c :
  is_digit c = true ∨ code c = 45%N → opening c.
Proof.
  unfold opening, is_digit, is_space.
  intros [H | H].
  - apply andb_true_iff in H as [H1 H2].
    apply N.leb_le in H1, H2.
    repeat split; try lia.
    repeat (apply orb_false_intro); apply N.eqb_neq; lia.
  - rewrite H. repeat split; try lia.
Qed.

Lemma stringify_head (v : Value) (rest : string) :
  ∃ c t, stringify v +:+ rest = String c t ∧ opening c.
Proof.
  destruct v as [|[]|q|s|vs|ps]; cbn [stringify].
  - eexists _, _. split; [reflexivity |]. repeat split; discriminate.
  - eexists _, _. split; [reflexivity |]. repeat split; discriminate.
  - eexists _, _. split; [reflexivity |]. repeat split; discriminate.
  - destruct (Number_toString_head q rest) as (c & t & E & H).
    exists c, t. split; [exact E | apply digit_or_minus_opening, H].
  - rewrite QuoteJSONString_append. eexists _, _. split; [reflexivity |].
    repeat split; discriminate.
  - rewrite append_cons. eexists _, _. split; [reflexivity |].
    repeat split; discriminate.
  - rewrite append_cons. eexists _, _. split; [reflexivity |].
    repeat split; discriminate.
Qed.

Lemma skip_space_opening c t : opening c → skip_space (String c t) = String c t.
Proof. intros [H _]. cbn [skip_space]. rewrite H. reflexivity. Qed.

(** A text that starts with a digit or a minus sign is read as a number. *)
Lemma value_number (fuel : nat) (c : ascii) (t : string) :
  is_digit c = true ∨ code c = 45%N →
  value (S fuel) (String c t)
  = match number (String c t) with
    | Some (q, r) => Some (JNumber q, r)
    | None => None
    end.
Proof.
  intros H. cbn [value].
  rewrite (skip_space_opening c t (digit_or_minus_opening c H)).
  assert (Hn : (45 <= code c <= 57)%N).
  { destruct H as [H | H]; [| lia].
    unfold is_digit in H. apply andb_true_iff in H as [H1 H2].
    apply N.leb_le in H1, H2. lia. }
  cbv zeta.
  repeat match goal with
  | |- context [(code c =? ?k)%N] =>
      replace (code c =? k)%N with false by (symmetry; apply N.eqb_neq; lia)
  end.
  reflexivity.
Qed.

End JSONStringFacts.

Module JSONRoundTrip.
Import JSON JSONFacts JSONNumberFacts JSONStringFacts.

(** *** Arrays and objects *)

Lemma join_cons (x y : string) (xs : list string) :
  join (x :: y :: xs) = x +:+ String "," (join (y :: xs)).
Proof. reflexivity. Qed.

Lemma elements_join (pv : string → option (Value * string)) :
  ∀ (vs : list Value) (fuel : nat) (rest : string),
    vs ≠ [] → (length vs ≤ fuel)%nat →
    (∀ v r, v ∈ vs → closed r → pv (stringify v +:+ r) = Some (v, r)) →
    elements pv fuel (join (List.map stringify vs) +:+ String "]" rest)
    = Some (vs, rest).
Proof.
  induction vs as [|v vs IH]; intros fuel rest Hne Hlen Hpv; [congruence |].
  destruct fuel as [|fuel]; [simpl in Hlen; lia |].
  destruct vs as [|v' vs].
  - cbn [List.map join elements].
    rewrite (Hpv v (String "]" rest)); [| left | right; left; reflexivity].
    reflexivity.
  - cbn [List.map]. rewrite join_cons, append_assoc, append_cons.
    cbn [elements].
    rewrite (Hpv v); [| left | left; reflexivity].
    cbn [skip_space]. change (is_space ",") with false. cbv iota.
    change (code "," =? 44)%N with true. cbv iota.
    change (stringify v' :: List.map stringify vs)
      with (List.map stringify (v' :: vs)).
    rewrite IH; [reflexivity | discriminate | simpl in *; lia |].
    intros w r Hw. apply Hpv. right. exact Hw.
Qed.

Lemma members_join (pv : string → option (Value * string)) :
  ∀ (ps : list (string * Value)) (fuel : nat) (rest : string),
    ps ≠ [] → (length ps ≤ fuel)%nat →
    (∀ p r, p ∈ ps → closed r →
            pv (stringify (snd p) +:+ r) = Some (snd p, r)) →
    members pv fuel (join (List.map member ps) +:+ String "}" rest)
    = Some (ps, rest).
Proof.
  induction ps as [|[k v] ps IH]; intros fuel rest Hne Hlen Hpv; [congruence |].
  destruct fuel as [|fuel]; [simpl in Hlen; lia |].
  assert (Hhead : ∀ tail,
    members pv (S fuel) (member (k, v) +:+ tail)
    = match pv (stringify v +:+ tail) with
      | None => None
      | Some (v0, r) =>
          match skip_space r with
          | String c' r' =>
              if (code c' =? 44)%N then
                match members pv fuel r' with
                | Some (ps, r'') => Some ((k, v0) :: ps, r'')
                | None => None
                end
              else if (code c' =? 125)%N then Some ([(k, v0)], r')
              else None
          | EmptyString => None
          end
      end).
  { intros tail. unfold member. cbn [fst snd].
    rewrite append_assoc, QuoteJSONString_append, append_cons.
    cbn [members skip_space]. change (is_space quote) with false. cbv iota.
    change (code quote =? 34)%N with true. cbv iota.
    rewrite string_body_escape.
    cbn [skip_space]. change (is_space ":") with false. cbv iota.
    change (code ":" =? 58)%N with true. cbv iota. reflexivity. }
  destruct ps as [|p' ps].
  - cbn [List.map join]. rewrite Hhead.
    assert (Hv := Hpv (k, v) (String "}" rest)).
    cbn [snd] in Hv. rewrite Hv; [| left | right; right; reflexivity].
    reflexivity.
  - cbn [List.map]. rewrite join_cons, append_assoc, append_cons.
    rewrite Hhead.
    assert (Hv := Hpv (k, v)). cbn [snd] in Hv.
    rewrite Hv; [| left | left; reflexivity].
    cbn [skip_space]. change (is_space ",") with false. cbv iota.
    change (code "," =? 44)%N with true. cbv iota.
    change (member p' :: List.map member ps)
      with (List.map member (p' :: ps)).
    rewrite IH; [reflexivity | discriminate | simpl in *; lia |].
    intros w r Hw. apply Hpv. right. exact Hw.
Qed.

(** The properties of an object that has none twice are kept as they are
    read. *)
Lemma set_property_fresh k v (ps : list (string * Value)) :
  k ∉ List.map fst ps → set_property k v ps = ps ++ [(k, v)].
Proof.
  induction ps as [|[k' v'] ps IH]; intros H; [reflexivity |].
  cbn [set_property]. cbn [List.map fst] in H.
  apply not_elem_of_cons in H as [Hk H].
  destruct (String.eqb_spec k k') as [E|_]; [contradiction |].
  rewrite IH by exact H. reflexivity.
Qed.

Lemma object_of_NoDup (ps : list (string * Value)) :
  NoDup (List.map fst ps) → object_of ps = JObject ps.
Proof.
  intros H. unfold object_of. f_equal.
  enough (G : ∀ acc,
             NoDup (List.map fst (acc ++ ps)) →
             fold_left (fun o p => set_property (fst p) (snd p) o) ps acc
             = acc ++ ps) by (apply (G []), H).
  clear H. induction ps as [|[k v] ps IH]; intros acc H.
  - rewrite app_nil_r. reflexivity.
  - cbn [fold_left fst snd]. rewrite set_property_fresh.
    + rewrite IH; rewrite <- app_assoc; [reflexivity | exact H].
    + rewrite List.map_app in H. apply NoDup_app in H as (_ & H & _).
      intros Hin. apply (H k Hin). left.
Qed.

Lemma fold_size_elem {A} (g : A → nat) (xs : list A) (x : A) :
  x ∈ xs → (S (g x) ≤ fold_right (fun x n => S (g x) + n) 0 xs)%nat.
Proof.
  induction xs as [|y ys IH]; intros H; [inversion H |].
  cbn [fold_right]. apply elem_of_cons in H as [->|H]; [lia |].
  specialize (IH H). lia.
Qed.

Lemma fold_size_length {A} (g : A → nat) (xs : list A) :
  (length xs ≤ fold_right (fun x n => S (g x) + n) 0 xs)%nat.
Proof. induction xs as [|y ys IH]; cbn [fold_right length]; lia. Qed.

Lemma fold_and_elem {A} (P : A → Prop) (xs : list A) (x : A) :
  x ∈ xs → fold_right (fun x Q => P x ∧ Q) True xs → P x.
Proof.
  induction xs as [|y ys IH]; intros H Hall; [inversion H |].
  cbn [fold_right] in Hall. destruct Hall as [Hy Hys].
  apply elem_of_cons in H as [->|H]; [exact Hy | apply IH; assumption].
Qed.

(** *** Values *)

Lemma size_pos (v : Value) : (1 ≤ size v)%nat.
Proof. destruct v; cbn [size]; lia. Qed.

Lemma stringify_array (vs : list Value) (rest : string) :
  stringify (JArray vs) +:+ rest
  = String "[" (join (List.map stringify vs) +:+ String "]" rest).
Proof.
  cbn [stringify]. rewrite append_cons, append_assoc. reflexivity.
Qed.

Lemma stringify_object (ps : list (string * Value)) (rest : string) :
  stringify (JObject ps) +:+ rest
  = String "{" (join (List.map member ps) +:+ String "}" rest).
Proof.
  cbn [stringify]. rewrite append_cons, append_assoc. reflexivity.
Qed.

(** [JSON.parse] reads the text of a value back to the value, whatever
    closes the value in the text. *)
Lemma value_stringify (fuel : nat) :
  ∀ (v : Value) (rest : string),
    (size v ≤ fuel)%nat → ok v → closed rest →
    value fuel (stringify v +:+ rest) = Some (v, rest).
Proof.
  induction fuel as [|fuel IH]; intros v rest Hsize Hok Hrest.
  { pose proof (size_pos v). lia. }
  destruct v as [|[]|q|s|vs|ps].
  - reflexivity.
  - reflexivity.
  - reflexivity.
  - cbn [stringify].
    destruct (Number_toString_head q rest) as (c & t & E & Hc).
    rewrite E, (value_number fuel c t Hc), <- E.
    rewrite (number_toString q rest Hok Hrest). reflexivity.
  - cbn [stringify]. rewrite QuoteJSONString_append.
    cbn [value skip_space]. change (is_space quote) with false. cbv iota zeta.
    change (code quote) with 34%N. cbn [N.eqb Pos.eqb]. cbv iota.
    rewrite string_body_escape. reflexivity.
  - rewrite stringify_array.
    cbn [value skip_space]. change (is_space "[") with false. cbv iota zeta.
    change (code "[") with 91%N. cbn [N.eqb Pos.eqb]. cbv iota.
    destruct vs as [|v vs]; [reflexivity |].
    assert (Hvs : ∀ w r, w ∈ v :: vs → closed r →
                    value fuel (stringify w +:+ r) = Some (w, r)).
    { intros w r Hw Hr. apply IH; [| | exact Hr].
      - cbn [size] in Hsize.
        pose proof (fold_size_elem size (v :: vs) w Hw). lia.
      - cbn [ok] in Hok. apply (fold_and_elem ok (v :: vs) w Hw Hok). }
    assert (Hlen : (length (v :: vs) ≤ fuel)%nat).
    { cbn [size] in Hsize.
      pose proof (fold_size_length size (v :: vs)). lia. }
    pose proof (elements_join (value fuel) (v :: vs) fuel rest
                  ltac:(discriminate) Hlen Hvs) as He.
    destruct (stringify_head v
                (match vs with
                 | [] => EmptyString
                 | _ => String "," (join (List.map stringify vs))
                 end +:+ String "]" rest)) as (c & t & E & Hc).
    assert (E' : join (List.map stringify (v :: vs)) +:+ String "]" rest
                 = String c t).
    { rewrite <- E. destruct vs as [|v' vs].
      - cbn [List.map join]. rewrite append_nil_l. reflexivity.
      - cbn [List.map]. rewrite join_cons, append_assoc. reflexivity. }
    rewrite E' in He |- *. rewrite (skip_space_opening c t Hc).
    destruct Hc as (_ & H93 & _). apply N.eqb_neq in H93. rewrite H93.
    rewrite He. reflexivity.
  - rewrite stringify_object.
    cbn [value skip_space]. change (is_space "{") with false. cbv iota zeta.
    change (code "{") with 123%N. cbn [N.eqb Pos.eqb]. cbv iota.
    destruct ps as [|p ps]; [reflexivity |].
    cbn [ok] in Hok. destruct Hok as [Hnd Hok].
    assert (Hps : ∀ w r, w ∈ p :: ps → closed r →
                    value fuel (stringify (snd w) +:+ r) = Some (snd w, r)).
    { intros w r Hw Hr. apply IH; [| | exact Hr].
      - cbn [size] in Hsize.
        pose proof (fold_size_elem (fun p => size (snd p)) (p :: ps) w Hw).
        cbv beta in *. lia.
      - apply (fold_and_elem (fun p => ok (snd p)) (p :: ps) w Hw Hok). }
    assert (Hlen : (length (p :: ps) ≤ fuel)%nat).
    { cbn [size] in Hsize.
      pose proof (fold_size_length (fun p => size (snd p)) (p :: ps)).
      cbv beta in *. lia. }
    pose proof (members_join (value fuel) (p :: ps) fuel rest
                  ltac:(discriminate) Hlen Hps) as He.
    assert (E' : ∃ t, join (List.map member (p :: ps)) +:+ String "}" rest
                      = String quote t).
    { destruct ps as [|p' ps].
      - cbn [List.map join]. unfold member.
        rewrite append_assoc, QuoteJSONString_append. eexists. reflexivity.
      - cbn [List.map]. rewrite join_cons. unfold member at 1.
        rewrite !append_assoc, QuoteJSONString_append. eexists. reflexivity. }
    destruct E' as [t E']. rewrite E' in He |- *.
    cbn [skip_space]. change (is_space quote) with false. cbv iota.
    change (code quote =? 125)%N with false. cbv iota.
    rewrite He. rewrite (object_of_NoDup _ Hnd). reflexivity.
Qed.

Lemma length_join_bound {A} (f : A → string) (g : A → nat) (xs : list A) :
  (∀ x, x ∈ xs → (g x ≤ String.length (f x))%nat) →
  (fold_right (fun x n => S (g x) + n) 0 xs
   ≤ S (String.length (join (List.map f xs))))%nat.
Proof.
  induction xs as [|x xs IH]; intros H; [simpl; lia |].
  assert (Hx : (g x ≤ String.length (f x))%nat) by (apply H; left).
  assert (Hxs : (fold_right (fun x n => S (g x) + n) 0 xs
                 ≤ S (String.length (join (List.map f xs))))%nat).
  { apply IH. intros y Hy. apply H. right. exact Hy. }
  destruct xs as [|y xs].
  - simpl. lia.
  - cbn [List.map] in *. rewrite join_cons, length_append.
    cbn [fold_right String.length] in *. lia.
Qed.

(** The text of a value is at least as long as the value is big. *)
Lemma size_le_length (n : nat) :
  ∀ v : Value, (size v ≤ n)%nat → (size v ≤ String.length (stringify v))%nat.
Proof.
  induction n as [|n IH]; intros v Hn.
  { pose proof (size_pos v). lia. }
  destruct v as [|[]|q|s|vs|ps]; try (simpl; lia).
  - destruct (Number_toString_head q EmptyString) as (c & t & E & _).
    rewrite append_nil_r in E. cbn [stringify size]. rewrite E. simpl. lia.
  - cbn [size stringify String.length]. rewrite length_append.
    cbn [String.length].
    pose proof (length_join_bound stringify size vs) as H.
    assert (fold_right (fun x n => S (size x) + n) 0 vs
            ≤ S (String.length (join (List.map stringify vs))))%nat; [| lia].
    apply H. intros x Hx. apply IH.
    cbn [size] in Hn. pose proof (fold_size_elem size vs x Hx). lia.
  - cbn [size stringify String.length]. rewrite length_append.
    cbn [String.length].
    pose proof (length_join_bound
                  (fun p => QuoteJSONString (fst p)
                            +:+ String ":" (stringify (snd p)))
                  (fun p => size (snd p)) ps) as H.
    assert (fold_right (fun p n => S (size (snd p)) + n) 0 ps
            ≤ S (String.length
                   (join (List.map
                            (fun p => QuoteJSONString (fst p)
                                      +:+ String ":" (stringify (snd p)))
                            ps))))%nat; [| lia].
    apply H. intros x Hx. rewrite length_append. cbn [String.length].
    assert (size (snd x) ≤ String.length (stringify (snd x)))%nat; [| lia].
    apply IH.
    cbn [size] in Hn.
    pose proof (fold_size_elem (fun p => size (snd p)) ps x Hx).
    cbv beta in *. lia.
Qed.

(** [JSON.parse (JSON.stringify (v))] is [v]. *)
Lemma parse_stringify (v : Value) : ok v → parse (stringify v) = Some v.
Proof.
  intros Hok. unfold parse.
  pose proof (value_stringify (S (String.length (stringify v))) v EmptyString)
    as H.
  rewrite append_nil_r in H. rewrite H; [reflexivity | | exact Hok | exact I].
  pose proof (size_le_length (size v) v (le_n _)). lia.
Qed.

End JSONRoundTrip.

Module LocalStateFacts.
Import JSON JSONFacts JSONRoundTrip LocalState.

Lemma ofZ_decimal (z : Z) : decimal (ofZ z).
Proof.
  unfold decimal, ofZ. cbn [this Q2Qc].
  rewrite Qred_identity by (cbn; apply Z.gcd_1_r).
  cbn. exists (10 ^ 20)%N. rewrite N.mul_1_r. reflexivity.
Qed.

Lemma js_amount_decimal (q : Qc) : js_amount q = true → decimal q.
Proof.
  unfold js_amount, decimal. intros H.
  apply andb_true_iff in H as [H _]. apply Z.eqb_eq in H.
  apply Z.mod_divide in H; [| discriminate].
  destruct H as [k Hk]. destruct k as [|kp|kp]; try lia.
  exists (Npos kp * 10 ^ 18)%N.
  change (10 ^ 20)%N with (100 * 10 ^ 18)%N.
  assert (E : (100 = Npos kp * Npos (Qden q))%N) by lia.
  rewrite E. ring.
Qed.

(** [js_amount] picks the amounts in cents. *)
Lemma cents_as_fraction (q : Qc) (z : Z) :
  q = ofZ z / ofZ 100 ↔ (this q == z # 100)%Q.
Proof.
  assert (E : (this (ofZ z / ofZ 100) == z # 100)%Q).
  { unfold Qcdiv, Qcmult, Qcinv, ofZ. cbn [this Q2Qc].
    rewrite !Qred_correct. unfold Qeq. cbn. lia. }
  split.
  - intros ->. exact E.
  - intros H. apply Qc_is_canon. rewrite H, E. reflexivity.
Qed.

Lemma js_amount_is_cents (q : Qc) : js_amount q = true → is_cents q.
Proof.
  unfold js_amount. intros H. apply andb_true_iff in H as [H _].
  apply Z.eqb_eq in H. apply Z.mod_divide in H; [| discriminate].
  destruct H as [k Hk]. exists (Qnum q * k)%Z.
  apply cents_as_fraction. destruct q as [[n d] Hc].
  cbn [this Qnum Qden] in *. unfold Qeq. cbn [Qnum Qden].
  rewrite Hk. ring.
Qed.

Lemma is_cents_js_amount (q : Qc) :
  is_cents q → - ofZ (10 ^ 13) < q → q < ofZ (10 ^ 13) →
  js_amount q = true.
Proof.
  intros [z Hz] Hlo Hhi. apply cents_as_fraction in Hz.
  unfold js_amount. apply andb_true_intro. split.
  - apply Z.eqb_eq, Z.mod_divide; [discriminate |].
    assert (Hg : Z.gcd (Qnum q) (Zpos (Qden q)) = 1%Z)
      by (apply Qred_iff, (canon q)).
    unfold Qeq in Hz. cbn [Qnum Qden] in Hz.
    apply (Z.gauss _ (Qnum q)); [| rewrite Z.gcd_comm; exact Hg].
    exists z. lia.
  - apply Z.ltb_lt.
    unfold Qclt, Qcopp, ofZ in Hlo, Hhi. cbn [this Q2Qc] in Hlo, Hhi.
    rewrite !Qred_correct in Hlo. rewrite Qred_correct in Hhi.
    unfold Qlt, Qopp, inject_Z in Hlo, Hhi. cbn [Qnum Qden] in Hlo, Hhi.
    lia.
Qed.

Lemma fold_and_map {A} (f : A → Value) (xs : list A) :
  Forall (fun x => ok (f x)) xs →
  fold_right (fun v P => ok v ∧ P) True (List.map f xs).
Proof.
  induction 1 as [|x xs Hx _ IH]; cbn [List.map fold_right]; [exact I |].
  split; assumption.
Qed.

Lemma fold_and_properties {A} (f : A → string * Value) (xs : list A) :
  (∀ x, ok (snd (f x))) →
  fold_right (fun p P => ok (snd p) ∧ P) True (List.map f xs).
Proof.
  intros H. induction xs as [|x xs IH]; cbn [List.map fold_right]; [exact I |].
  split; [apply H | exact IH].
Qed.

Lemma or_null_ok {A} (f : A → Value) (x : option A) :
  (∀ a, ok (f a)) → ok (or_null f x).
Proof. intros H. destruct x; [apply H | exact I]. Qed.

Lemma distinct_keys (ks : list string) :
  bool_decide (NoDup ks) = true → NoDup ks.
Proof. apply bool_decide_eq_true. Qed.

Lemma Tx_value_ok (tx : Tx) :
  js_integer (tx_id tx) = true
  ∧ js_amount (tx_amount tx) = true
  ∧ js_amount (tx_balanceAfter tx) = true →
  ok (Tx_value tx).
Proof.
  intros (_ & H2 & H3). unfold Tx_value. cbn [ok List.map fst snd fold_right].
  split; [apply distinct_keys; reflexivity |].
  repeat split; try exact I.
  - apply ofZ_decimal.
  - apply js_amount_decimal, H2.
  - apply js_amount_decimal, H3.
  - apply or_null_ok. intros a. exact I.
Qed.

Lemma Investment_value_ok (i : Investment) :
  js_integer (inv_id i) = true ∧ js_amount (inv_amount i) = true →
  ok (Investment_value i).
Proof.
  intros (_ & H2). unfold Investment_value.
  cbn [ok List.map fst snd fold_right].
  split; [apply distinct_keys; reflexivity |].
  repeat split; try exact I.
  - apply ofZ_decimal.
  - apply js_amount_decimal, H2.
Qed.

(** The object of a well-formed account is a value that [JSON.parse]
    reads back. *)
Lemma user_value_ok (dateStr : Date → string) (u : UserAccount) :
  wellFormed u → ok (user_value dateStr u).
Proof.
  intros (Hb & _ & Hi & Ht). unfold user_value.
  cbn [ok List.map fst snd fold_right].
  split; [apply distinct_keys; reflexivity |].
  repeat split; try exact I.
  - apply or_null_ok. intros a. exact I.
  - apply js_amount_decimal, Hb.
  - apply or_null_ok. intros a. exact I.
  - apply ofZ_decimal.
  - apply fold_and_map. apply Forall_forall. intros d _. exact I.
  - rewrite List.map_map. cbn [fst].
    change (List.map (fun x : string * bool => fst x))
      with (@fmap list _ _ _ (@fst string bool)).
    apply NoDup_fst_map_to_list.
  - apply fold_and_properties. intros x. exact I.
  - apply fold_and_map. apply (Forall_impl _ _ _ Hi).
    intros i. apply Investment_value_ok.
  - apply fold_and_map. apply (Forall_impl _ _ _ Ht).
    intros tx. apply Tx_value_ok.
Qed.

(** The object determines the account: no field is lost in it. *)
Lemma Qred_inject_Z_inj (a b : Z) :
  Qred (inject_Z a) = Qred (inject_Z b) → a = b.
Proof.
  intros H. apply Qred_eq_iff in H. unfold Qeq in H. cbn in H. lia.
Qed.

Lemma or_null_JString_inj {A} (f : A → string) (x y : option A) :
  (∀ a b, f a = f b → a = b) →
  or_null (fun a => JString (f a)) x = or_null (fun a => JString (f a)) y →
  x = y.
Proof.
  intros Hf. destruct x as [a|], y as [b|]; cbn [or_null];
    intros H; try discriminate; [| reflexivity].
  injection H as H. f_equal. apply Hf, H.
Qed.

Lemma map_inj {A B} (f : A → B) (xs ys : list A) :
  (∀ a b, f a = f b → a = b) →
  List.map f xs = List.map f ys → xs = ys.
Proof.
  intros Hf. revert ys.
  induction xs as [|x xs IH]; intros [|y ys] H; try discriminate;
    [reflexivity |].
  cbn [List.map] in H. injection H as Hx Hxs.
  f_equal; [apply Hf, Hx | apply IH, Hxs].
Qed.

Lemma Tx_value_inj (a b : Tx) : Tx_value a = Tx_value b → a = b.
Proof.
  destruct a as [i1 t1 a1 b1 s1 l1], b as [i2 t2 a2 b2 s2 l2].
  unfold Tx_value. cbn [tx_id tx_ts tx_amount tx_balanceAfter tx_source
                        tx_label].
  intros H. injection H as Hi Ht Ha Hb Hs Hl.
  apply Qred_inject_Z_inj in Hi.
  apply (or_null_JString_inj (fun s : string => s)) in Hl; [| auto].
  congruence.
Qed.

Lemma Investment_value_inj (a b : Investment) :
  Investment_value a = Investment_value b → a = b.
Proof.
  destruct a as [i1 a1 s1 m1], b as [i2 a2 s2 m2].
  unfold Investment_value. cbn [inv_id inv_amount inv_symbol inv_metadata].
  intros H. injection H as Hi Ha Hs Hm.
  apply Qred_inject_Z_inj in Hi. congruence.
Qed.

Lemma user_value_inj (dateStr : Date → string) (u v : UserAccount) :
  (∀ d d', dateStr d = dateStr d' → d = d') →
  user_value dateStr u = user_value dateStr v → u = v.
Proof.
  intros Hd.
  destruct u as [n1 b1 l1 s1 d1 r1 i1 t1], v as [n2 b2 l2 s2 d2 r2 i2 t2].
  unfold user_value.
  cbn [username balance lastLogin streak loginDates readArticles
       investments transactions].
  intros H. injection H as Hn Hb Hl Hs Hds Hr Hi Ht.
  apply (or_null_JString_inj (fun s : string => s)) in Hn; [| auto].
  apply (or_null_JString_inj dateStr) in Hl; [| exact Hd].
  apply Qred_inject_Z_inj in Hs.
  apply (map_inj (fun d => JString (dateStr d))) in Hds;
    [| intros a b [= E]; apply Hd, E].
  apply (map_inj (fun kb : string * bool => (fst kb, JBool (snd kb)))) in Hr;
    [| intros [k1 v1] [k2 v2] [= -> ->]; reflexivity].
  apply (map_inj Investment_value) in Hi; [| apply Investment_value_inj].
  apply (map_inj Tx_value) in Ht; [| apply Tx_value_inj].
  assert (Hr' : r1 = r2) by (apply map_to_list_inj; rewrite Hr; reflexivity).
  congruence.
Qed.

(** What the effect stores is what the hook starts with the next time,
    when the text is not empty and parses back. *)
Lemma useLocalState_restart (key : string) (initial v : Value)
  (storage : Storage) :
  parse (stringify v) = Some v → stringify v ≠ EmptyString →
  useLocalState_initial key initial (useLocalState_effect key v storage) = v.
Proof.
  intros Hp Hne. unfold useLocalState_initial, useLocalState_effect, Storage.
  rewrite lookup_insert_eq, Hp.
  destruct (stringify v); [congruence | reflexivity].
Qed.

End LocalStateFacts.

(** C9: an account whose amounts are amounts in cents, stored by the
    effect of [useLocalState] and read back when the hook starts, is again
    the object that was stored, property by property:
    [JSON.parse (JSON.stringify (user))] is [user], whatever the cache held
    before, whatever the text of the dates, and however long the lists of
    login dates and of ledger entries are.  The object holds every field of
    the account: where different dates have different texts, it is the
    object of no other account. *)
Theorem C9_local_cache_round_trip :
  ∀ (dateStr : Date → string) (key : string) (initial : JSON.Value)
    (storage : LocalState.Storage) (u : UserAccount),
    LocalState.wellFormed u →
    let user := LocalState.user_value dateStr u in
    let reloaded :=
      LocalState.useLocalState_initial key initial
        (LocalState.useLocalState_effect key user storage) in
    JSON.parse (JSON.stringify user) = Some user
    ∧ reloaded = user
    ∧ ((∀ d d', dateStr d = dateStr d' → d = d') →
       ∀ u', LocalState.user_value dateStr u' = reloaded → u' = u).
Proof.
  intros dateStr key initial storage u Hwf user reloaded.
  assert (Hp : JSON.parse (JSON.stringify user) = Some user)
    by (apply JSONRoundTrip.parse_stringify, LocalStateFacts.user_value_ok, Hwf).
  assert (Hr : reloaded = user)
    by (apply LocalStateFacts.useLocalState_restart;
        [exact Hp | discriminate]).
  split; [exact Hp |]. split; [exact Hr |].
  intros Hd u' Hu'. rewrite Hr in Hu'.
  apply (LocalStateFacts.user_value_inj dateStr u' u Hd Hu').
Qed.

(** The account with exactly 30 login dates and exactly 200 ledger
    entries comes back from the cache as it was stored. *)
Lemma C9_local_cache_round_trip_witness :
  length (loginDates boundaryAccount) = 30%nat
  ∧ length (transactions boundaryAccount) = 200%nat
  ∧ LocalState.useLocalState_initial "fintwitch_user"
      (LocalState.user_value isoDate initialUser)
      (LocalState.useLocalState_effect "fintwitch_user"
         (LocalState.user_value isoDate boundaryAccount) ∅)
    = LocalState.user_value isoDate boundaryAccount.
Proof.
  split; [vm_compute; reflexivity |]. split; [vm_compute; reflexivity |].
  destruct (C9_local_cache_round_trip isoDate "fintwitch_user"
              (LocalState.user_value isoDate initialUser) ∅ boundaryAccount)
    as (_ & H & _); [| exact H].
  unfold LocalState.wellFormed.
  apply (bool_decide_unpack _). vm_compute. exact I.
Defined.
